(** * visor: wallet asset pipeline, price proxy and yield views

    A shallow embedding of the data-aggregation code of the dashboard
    (src/components/WalletAssets.js, StakingData.js, LendingData.js,
    WalletSymbols.js, PortfolioOptimizer.js, InvestmentOpportunities.js,
    src/App.js and the scripts price-api-server.js,
    fetch-coinmarketcap-api.js, fetch-defillama-api.js and
    fetch-stakingwatch-api.js) together with the properties its
    specification states about it and further properties of the code.

    Conventions of the embedding.
    - Every network request is an oracle of the environment: it either
      resolves with a value or rejects with an error ([outcome]).
    - [Date.now()] is an integer number of milliseconds ([Z]).
    - JavaScript numbers are exact rationals plus [NaN]; rounding, overflow
      to infinities and the sign of zero are outside the model.
    - Strings are sequences of ASCII code units.
    - A plain object that the code reads at keys it does not control
      has, besides its own properties, the members that every object
      inherits from [Object.prototype] ([Plain]). *)

From Stdlib Require Import Ascii QArith Qcanon.
From stdpp Require Import base decidable option list sorting strings numbers pretty gmap.

Local Open Scope Z_scope.

(** ** Built-ins of the language *)
Module JS.

(** *** Numbers *)

Inductive jsnum : Type :=
  | NaN
  | Num (q : Qc).

#[global] Instance jsnum_eq_dec : EqDecision jsnum.
Proof. solve_decision. Defined.

Definition zero : jsnum := Num 0%Qc.

Definition of_Z (z : Z) : jsnum := Num (Qc_of_Z z).

Definition mul (x y : jsnum) : jsnum :=
  match x, y with
  | Num a, Num b => Num (a * b)%Qc
  | _, _ => NaN
  end.

Definition add (x y : jsnum) : jsnum :=
  match x, y with
  | Num a, Num b => Num (a + b)%Qc
  | _, _ => NaN
  end.

Definition sub (x y : jsnum) : jsnum :=
  match x, y with
  | Num a, Num b => Num (a - b)%Qc
  | _, _ => NaN
  end.

(** [x > y], [x <= y]: every comparison with [NaN] is false. *)
Definition gt (x y : jsnum) : bool :=
  match x, y with
  | Num a, Num b => bool_decide (b < a)%Qc
  | _, _ => false
  end.

Definition le (x y : jsnum) : bool :=
  match x, y with
  | Num a, Num b => bool_decide (a ≤ b)%Qc
  | _, _ => false
  end.

Definition isNaN (x : jsnum) : bool :=
  match x with NaN => true | Num _ => false end.

(** Truthiness of a number: [0] and [NaN] are falsy. *)
Definition truthy (x : jsnum) : bool :=
  match x with
  | NaN => false
  | Num q => bool_decide (q ≠ 0%Qc)
  end.

(** A balance is non-negative when it is a number and that number is [>= 0]. *)
Definition nonneg (x : jsnum) : bool := le zero x.

(** [x < y] and [x === y]; with [NaN] both are false. *)
Definition lt (x y : jsnum) : bool :=
  match x, y with
  | Num a, Num b => bool_decide (a < b)%Qc
  | _, _ => false
  end.

Definition strict_eq (x y : jsnum) : bool :=
  match x, y with
  | Num a, Num b => bool_decide (a = b)
  | _, _ => false
  end.

(** [Math.abs(x)] *)
Definition abs (x : jsnum) : jsnum :=
  match x with
  | Num a => Num (if bool_decide (a < 0)%Qc then (- a)%Qc else a)
  | NaN => NaN
  end.

(** [x / y] for a divisor that is not [0]; the quotients by [0] are
    infinities or [NaN], and no caller divides by [0]. *)
Definition div (x y : jsnum) : jsnum :=
  match x, y with
  | Num a, Num b => if bool_decide (b = 0%Qc) then NaN else Num (a / b)%Qc
  | _, _ => NaN
  end.

(** *** Characters and strings *)

Definition code (c : ascii) : N := N_of_ascii c.

Definition is_digit (c : ascii) : bool :=
  ((48 <=? code c) && (code c <=? 57))%N.

Definition digit_val (c : ascii) : N := (code c - 48)%N.

(** White space removed by [trim] and skipped by [parseFloat] (the ASCII
    part of it): TAB, LF, VT, FF, CR and SPACE. *)
Definition is_white (c : ascii) : bool :=
  ((9 <=? code c) && (code c <=? 13) || (code c =? 32))%N.

Definition upper_char (c : ascii) : ascii :=
  if ((97 <=? code c) && (code c <=? 122))%N then ascii_of_N (code c - 32) else c.

Definition lower_char (c : ascii) : ascii :=
  if ((65 <=? code c) && (code c <=? 90))%N then ascii_of_N (code c + 32) else c.

Fixpoint map_string (f : ascii -> ascii) (s : string) : string :=
  match s with
  | EmptyString => EmptyString
  | String c s' => String (f c) (map_string f s')
  end.

Definition toUpperCase : string -> string := map_string upper_char.
Definition toLowerCase : string -> string := map_string lower_char.

Fixpoint trimStart (s : string) : string :=
  match s with
  | String c s' => if is_white c then trimStart s' else s
  | EmptyString => EmptyString
  end.

Definition trim (s : string) : string :=
  String.rev (trimStart (String.rev (trimStart s))).

(** [s.includes(pat)] *)
Fixpoint includes (pat s : string) : bool :=
  String.prefix pat s ||
  match s with
  | EmptyString => false
  | String _ s' => includes pat s'
  end.

(** A string is truthy when it is not empty. *)
Definition nonempty (s : string) : bool :=
  match s with EmptyString => false | _ => true end.

(** *** Parsing numbers *)

(** The longest prefix of decimal digits, as the number it denotes and the
    count of digits read, and the rest of the string. *)
Fixpoint read_digits (acc : N) (n : nat) (s : string) : N * nat * string :=
  match s with
  | String c s' =>
      if is_digit c then read_digits (10 * acc + digit_val c)%N (S n) s'
      else (acc, n, s)
  | EmptyString => (acc, n, s)
  end.

Definition read_sign (s : string) : bool * string :=
  match s with
  | String "-" s' => (true, s')
  | String "+" s' => (false, s')
  | _ => (false, s)
  end.

(** [m * 10^e] as a rational. *)
Definition scale10 (m : Z) (e : Z) : Qc :=
  if (0 <=? e) then Q2Qc (inject_Z (m * 10 ^ e))
  else Q2Qc (m # Pos.pow 10 (Z.to_pos (- e))).

(** The exponent part [e[+-]ddd] of a decimal literal; it counts only when
    at least one digit follows. *)
Definition read_exponent (s : string) : Z :=
  match s with
  | String c s' =>
      if (code c =? 101)%N || (code c =? 69)%N then
        let '(neg, s'') := read_sign s' in
        let '(e, n, _) := read_digits 0 0 s'' in
        match n with
        | O => 0
        | _ => if neg then - Z.of_N e else Z.of_N e
        end
      else 0
  | EmptyString => 0
  end.

(** [parseFloat(s)]: leading white space is skipped, then the longest
    prefix that is a decimal literal is read; [NaN] when there is none.
    The literal [Infinity] is not in the model. *)
Definition parseFloat (s : string) : jsnum :=
  let '(neg, s1) := read_sign (trimStart s) in
  let '(ip, ni, s2) := read_digits 0 0 s1 in
  let '(m, nf, s3) :=
    match s2 with
    | String "." s2' => read_digits ip 0 s2'
    | _ => (ip, O, s2)
    end in
  match ni, nf with
  | O, O => NaN
  | _, _ =>
      let e := read_exponent s3 in
      let v := scale10 (Z.of_N m) (e - Z.of_nat nf) in
      Num (if neg then (- v)%Qc else v)
  end.

(** [parseInt(s, 10)]; [None] is [NaN]. *)
Definition parseInt (s : string) : option Z :=
  let '(neg, s1) := read_sign (trimStart s) in
  let '(ip, ni, _) := read_digits 0 0 s1 in
  match ni with
  | O => None
  | _ => Some (if neg then - Z.of_N ip else Z.of_N ip)
  end.

(** *** Arrays *)

(** [l.slice(i, j)] for [0 <= i <= j]. *)
Definition slice {A} (i j : nat) (l : list A) : list A :=
  take (j - i) (drop i l).

(** The batches of [for (let i = 0; i < l.length; i += batchSize)
    { const batch = l.slice(i, i + batchSize); ... }], in order; the loop
    runs at most [length l] times. *)
Fixpoint batches_from {A} (fuel batchSize i : nat) (l : list A) : list (list A) :=
  match fuel with
  | O => []
  | S fuel' =>
      if (i <? length l)%nat
      then slice i (i + batchSize) l :: batches_from fuel' batchSize (i + batchSize) l
      else []
  end.

Definition batches {A} (batchSize : nat) (l : list A) : list (list A) :=
  batches_from (length l) batchSize 0 l.

(** [l.indexOf(x)]; [None] is [-1]. *)
Fixpoint indexOf (x : string) (l : list string) : option nat :=
  match l with
  | [] => None
  | y :: l' => if bool_decide (y = x) then Some O else S <$> indexOf x l'
  end.

(** [l.sort(cmp)]: the sort is stable, and for a comparator that is a
    consistent ordering the result does not depend on the algorithm; it is
    modelled as an insertion sort. [cmp a b] is the sign of the number the
    comparator returns ([Eq] when it returns [0] or [NaN]). *)
Fixpoint sort_insert {A} (cmp : A -> A -> comparison) (x : A) (l : list A) : list A :=
  match l with
  | [] => [x]
  | y :: l' =>
      match cmp x y with
      | Gt => y :: sort_insert cmp x l'
      | _ => x :: l
      end
  end.

Definition sort {A} (cmp : A -> A -> comparison) (l : list A) : list A :=
  foldr (sort_insert cmp) [] l.

(** The sign of [x - y] as a comparator result. *)
Definition sign_sub (x y : jsnum) : comparison :=
  match x, y with
  | Num a, Num b => (a ?= b)%Qc
  | _, _ => Eq
  end.

(** [[...new Set(l)]]: the distinct elements in order of first occurrence. *)
Fixpoint unique (l : list string) (seen : list string) : list string :=
  match l with
  | [] => []
  | x :: l' =>
      if bool_decide (x ∈ seen) then unique l' seen
      else x :: unique l' (x :: seen)
  end.

(** *** Cached values *)

(** The check made on an entry read from a cache, which holds a value and
    the time it was stored ([timestamp]): the value is taken only when
    [now - timestamp] is below the time to live. *)
Definition freshCache {A} (ttl now : Z) (entry : option (A * Z)) : option A :=
  match entry with
  | Some (v, timestamp) => if now - timestamp <? ttl then Some v else None
  | None => None
  end.

(** *** Requests *)

(** What a [catch] clause sees of an error: [err.message],
    [err.response?.status] and [err.code]. *)
Record error : Type := Error {
  message : string;
  response_status : option Z;
  code_ : option string;
}.

(** [new Error(msg)] *)
Definition newError (msg : string) : error := Error msg None None.

(** [s.split(',')] *)
Fixpoint split_comma (cur : string) (s : string) : list string :=
  match s with
  | EmptyString => [String.rev cur]
  | String c s' =>
      if (code c =? 44)%N then String.rev cur :: split_comma EmptyString s'
      else split_comma (String c cur) s'
  end.

(** A number field of a JSON document: missing, [null], or a number. *)
Inductive jsonNumber : Type :=
  | JUndefined
  | JNull
  | JNumber (q : Qc).

Inductive outcome (A : Type) : Type :=
  | Resolved (a : A)
  | Rejected (e : error).
Arguments Resolved {A} a.
Arguments Rejected {A} e.

End JS.

Import JS.

(** Console lines written by [console.error] and [console.warn]
    ([console.log] lines are not recorded). *)
Inductive level : Type := LError | LWarn.
Definition logline : Type := (level * string)%type.

(** A JavaScript object used as a map from strings, with its keys in
    insertion order ([Object.keys]). *)
Module Obj.

Definition t (A : Type) : Type := list (string * A).

Fixpoint get {A} (k : string) (o : t A) : option A :=
  match o with
  | [] => None
  | (k', v) :: o' => if bool_decide (k' = k) then Some v else get k o'
  end.

(** [o[k] = v]: an existing key keeps its place, a new key goes last. *)
Fixpoint set {A} (k : string) (v : A) (o : t A) : t A :=
  match o with
  | [] => [(k, v)]
  | (k', v') :: o' =>
      if bool_decide (k' = k) then (k, v) :: o' else (k', v') :: set k v o'
  end.

Definition keys {A} (o : t A) : list string := o.*1.

End Obj.

(** A plain object ([{}], an object literal, a document read by
    [JSON.parse]) that the code reads at keys it does not control:
    besides its own properties it has the members that every object
    inherits from [Object.prototype]. The map holds the own properties. *)
Module Plain.

Definition OBJECT_PROTOTYPE : list string :=
  [ "constructor"; "__defineGetter__"; "__defineSetter__"; "hasOwnProperty";
    "__lookupGetter__"; "__lookupSetter__"; "isPrototypeOf";
    "propertyIsEnumerable"; "toString"; "valueOf"; "__proto__";
    "toLocaleString" ].

(** [o[k]]: an own property, an inherited member (a function, or the
    prototype itself for [__proto__]), or [undefined]. *)
Inductive property (A : Type) : Type :=
  | Own (a : A)
  | Inherited
  | Undefined.
Arguments Own {A} a.
Arguments Inherited {A}.
Arguments Undefined {A}.

Definition get {A} (k : string) (o : gmap string A) : property A :=
  match o !! k with
  | Some a => Own a
  | None => if bool_decide (k ∈ OBJECT_PROTOTYPE) then Inherited else Undefined
  end.

(** Whether [o[k]] is truthy, when the own properties are objects. *)
Definition has {A} (k : string) (o : gmap string A) : bool :=
  match get k o with
  | Undefined => false
  | _ => true
  end.

(** [o[k] = v]. For the key [__proto__] that is not an own property the
    assignment goes to the setter of [Object.prototype], which gives the
    object another prototype or does nothing: no own property is made. *)
Definition set {A} (k : string) (v : A) (o : gmap string A) : gmap string A :=
  if bool_decide (k = "__proto__") && bool_decide (o !! k = None) then o
  else <[k := v]> o.

End Plain.

(** ** ethers: formatting of balances *)
Module Ethers.

Fixpoint dropZeros (s : string) : string :=
  match s with
  | String "0" s' => dropZeros s'
  | _ => s
  end.

(** The fraction digits without their trailing zeros, keeping one digit. *)
Definition stripTrailingZeros (s : string) : string :=
  match dropZeros (String.rev s) with
  | EmptyString => "0"
  | r => String.rev r
  end.

Fixpoint zeros (n : nat) : string :=
  match n with
  | O => EmptyString
  | S n' => String "0" (zeros n')
  end.

Definition padStart (n : nat) (s : string) : string :=
  zeros (n - String.length s) +:+ s.

(** [ethers.formatUnits(value, decimals)] of an amount that a contract
    or the node returns (an unsigned integer of at most 256 bits), for an
    integer number of decimals. It throws ([None]) for more than 80
    decimals and for a number of decimals below [-(2^53 - 1)]. Otherwise the digits of [value] are padded to more than
    [decimals] digits, the point is put before the last [decimals]
    digits, and the zeros at both ends are removed but for one; with a
    negative number of decimals the point comes last. *)
Definition formatUnits (value : N) (decimals : Z) : option string :=
  if (80 <? decimals) || (decimals <? - (2 ^ 53 - 1)) then None
  else if decimals =? 0 then Some (pretty value)
  else if decimals <? 0 then Some (pretty value +:+ ".")
  else
    let unit := (10 ^ Z.to_N decimals)%N in
    Some (pretty (value `div` unit)%N +:+ "." +:+
          stripTrailingZeros (padStart (Z.to_nat decimals) (pretty (value `mod` unit)%N))).

Definition formatEther (value : N) : string :=
  default "0.0" (formatUnits value 18).

End Ethers.

(** ** WalletAssets.js *)
Module WalletAssets.

(** The alternatives of [URL_PATTERN_REGEX]; each is a literal, and the
    [i] flag makes the match case-insensitive. *)
Definition URL_PATTERNS : list string :=
  [ "http"; "https"; "www."; ".com"; ".net"; ".org"; ".io"; ".xyz"; ".eth";
    ".app"; ".finance"; ".exchange"; ".crypto"; "://"; ".me"; ".co"; ".site";
    ".info"; "url="; "link="; "website"; "telegram"; "twitter"; "discord";
    "t.me/"; "github" ].

Definition URL_PATTERN_REGEX_test (s : string) : bool :=
  existsb (fun p => includes p (toLowerCase s)) URL_PATTERNS.

(** [str] may be [undefined]. *)
Definition containsUrlPattern (str : option string) : bool :=
  match str with
  | None => false
  | Some s => if nonempty s then URL_PATTERN_REGEX_test s else false
  end.

(** A token transfer of the transaction index; every field may be missing. *)
Record tx : Type := Tx {
  contractAddress : option string;
  tokenSymbol : option string;
  tokenName : option string;
  tokenDecimal : option string;
}.

Record token : Type := Token {
  address : string;
  symbol : string;
  name : string;
  decimals : Z;
}.

(** [{...token, balance, balanceRaw, cacheTime}] and
    [{...token, balance: 'Error', balanceRaw: '0', error: true}]. *)
Record tokenData : Type := TokenData {
  td_token : token;
  balance : string;
  balanceRaw : string;
  cacheTime : option Z;
  error : bool;
}.

Record priceEntry : Type := PriceEntry {
  price : jsnum;
  percentChange24h : jsnum;
  lastUpdated : string;
}.

(** An element of the asset list: the ETH literal
    [{symbol, name, balance, usdValue}] or [{...asset, usdValue}]. *)
Record asset : Type := Asset {
  asset_symbol : string;
  asset_name : string;
  asset_balance : string;
  usdValue : jsnum;
  asset_source : option tokenData;
}.

(** [sessionStorage], by key: [eth-balance-<address>],
    [token-balances-<address>] and [price-data-cache]; every entry is the
    stored value with its [timestamp]. *)
Record sessionStorage : Type := SessionStorage {
  eth_balance : gmap string (string * Z);
  token_balances : gmap string (list tokenData * Z);
  price_data_cache : option (gmap string priceEntry * Z);
}.

Definition CACHE_EXPIRY : Z := 5 * 60 * 1000.

Definition truthy_str (o : option string) : bool :=
  match o with Some s => nonempty s | None => false end.

(** [a || b] on strings that may be missing. *)
Definition or_str (a : option string) (b : string) : string :=
  match a with
  | Some s => if nonempty s then s else b
  | None => b
  end.

(** [parseInt(tx.tokenDecimal, 10) || 18] *)
Definition parseDecimals (d : option string) : Z :=
  match d with
  | None => 18
  | Some s =>
      match parseInt s with
      | Some z => if z =? 0 then 18 else z
      | None => 18
      end
  end.

(** The state of the loop of [processTokenTransactions]. *)
Record txScan : Type := TxScan {
  uniqueTokens : Obj.t token;
  tokensWithoutSymbols : nat;
  tokensWithUrlPatterns : nat;
  processedAddresses : gset string;
  scanLog : list logline;
}.

Definition processTx (s : txScan) (otx : option tx) : txScan :=
  match otx with
  | None => s
  | Some t =>
      match contractAddress t with
      | None => s
      | Some ca =>
          if negb (nonempty ca) then s else
          let tokenAddress := toLowerCase ca in
          if bool_decide (tokenAddress ∈ processedAddresses s) then s else
          let seen := {[ tokenAddress ]} ∪ processedAddresses s in
          let hasSymbol :=
            match tokenSymbol t with
            | Some sy => nonempty sy && negb (bool_decide (trim sy = ""))
            | None => false
            end in
          let containsUrl :=
            containsUrlPattern (tokenSymbol t) || containsUrlPattern (tokenName t) in
          if containsUrl then
            TxScan (uniqueTokens s) (tokensWithoutSymbols s)
              (S (tokensWithUrlPatterns s)) seen
              (if (S (tokensWithUrlPatterns s) <? 5)%nat
               then scanLog s ++ [(LWarn, "Filtered out token with URL pattern")]
               else scanLog s)
          else if hasSymbol then
            let sy := default "" (tokenSymbol t) in
            TxScan
              (Obj.set tokenAddress
                 (Token ca sy (or_str (tokenName t) sy) (parseDecimals (tokenDecimal t)))
                 (uniqueTokens s))
              (tokensWithoutSymbols s) (tokensWithUrlPatterns s) seen (scanLog s)
          else
            TxScan (uniqueTokens s) (S (tokensWithoutSymbols s))
              (tokensWithUrlPatterns s) seen (scanLog s)
      end
  end.

Definition scanTransactions (tokenTxs : list (option tx)) : txScan :=
  foldl processTx (TxScan [] 0 0 ∅ []) tokenTxs.

(** The returned object; the counters go to [setFilteredTokens]. *)
Definition processTokenTransactions (tokenTxs : list (option tx)) : Obj.t token :=
  uniqueTokens (scanTransactions tokenTxs).

(** The world outside the component during one run of [fetchAssets]. *)
Record etherscanData : Type := EtherscanData {
  es_status : string;
  es_message : option string;
  es_result : list (option tx);
}.

Record priceResponse : Type := PriceResponse {
  pr_status : Z;
  pr_data : option priceEntry;
}.

Record env : Type := Env {
  now : Z;
  etherscanApiKey : option string;
  getBalance : outcome N;
  tokentx : outcome etherscanData;
  balanceOf : string -> outcome N;
  priceOf : string -> outcome priceResponse;
  setItem_error : option JS.error;
}.

(** [sessionStorage.setItem]: it throws when the storage refuses the write. *)
Definition setItem {A} (w : env) (stored : A) : outcome A :=
  match setItem_error w with
  | Some e => Rejected e
  | None => Resolved stored
  end.

(** [fetchEthBalance]: the balance string, the storage, the console, and
    whether [provider.getBalance] was called. *)
Definition fetchEthBalance (w : env) (ss : sessionStorage) (walletAddress : string)
  : string * sessionStorage * list logline * bool :=
  match freshCache (2 * 60 * 1000) (now w) (eth_balance ss !! walletAddress) with
  | Some balance => (balance, ss, [], false)
  | None =>
      match getBalance w with
      | Resolved balance =>
          let formattedBalance := Ethers.formatEther balance in
          match setItem w (<[walletAddress := (formattedBalance, now w)]> (eth_balance ss)) with
          | Resolved eb =>
              (formattedBalance,
               SessionStorage eb (token_balances ss) (price_data_cache ss), [], true)
          | Rejected _ => ("Error", ss, [(LError, "Failed to fetch ETH balance:")], true)
          end
      | Rejected _ => ("Error", ss, [(LError, "Failed to fetch ETH balance:")], true)
      end
  end.

(** The test [isRateLimitError] of the [catch] clauses. *)
Definition isRateLimitError (e : JS.error) : bool :=
  includes "rate limit" (message e) ||
  includes "too many requests" (message e) ||
  includes "429" (message e) ||
  bool_decide (response_status e = Some 429).

(** [fetchTokenData]: the transactions, or the error it throws; whether
    it called [setIsRateLimited(true)]; the console. *)
Definition fetchTokenData (w : env) (walletAddress : string)
  : outcome (list (option tx)) * bool * list logline :=
  if negb (truthy_str (etherscanApiKey w)) then
    (Rejected (newError "REACT_APP_ETHERSCAN_API_KEY is not defined in .env file"),
     false, [])
  else
    let attempt : outcome (list (option tx)) * list logline :=
      match tokentx w with
      | Resolved d =>
          if bool_decide (es_status d = "1") then (Resolved (es_result d), [])
          else
            (Rejected (newError ("Etherscan API error: " +:+
                                  or_str (es_message d) "Unknown error")),
             [(LError, "Etherscan API error:")])
      | Rejected e => (Rejected e, [])
      end in
    match attempt with
    | (Resolved result, l) => (Resolved result, false, l)
    | (Rejected err, l) =>
        let l := l ++ [(LError, "Error fetching from Etherscan:")] in
        if isRateLimitError err then
          (Resolved [], true, l ++ [(LWarn, "Etherscan rate limit detected")])
        else
          (Rejected (newError ("Failed to fetch token data: " +:+ message err)),
           false, l)
    end.

(** The entry of [globalTokenBalanceCache] that [fetchTokenBalance]
    returns instead of fetching, when there is one. *)
Definition cachedTokenBalance (w : env) (cache : gmap string tokenData)
    (cacheKey : string) : option tokenData :=
  match cache !! cacheKey with
  | Some cachedData =>
      if now w - default 0 (cacheTime cachedData) <? CACHE_EXPIRY
      then Some cachedData else None
  | None => None
  end.

(** What one call of [fetchTokenBalance] does: the result ([None] is
    [null]), the entry it puts into [globalTokenBalanceCache], the
    console, and whether [contract.balanceOf] was called. *)
Record tokenFetch : Type := TokenFetch {
  tf_result : option tokenData;
  tf_cached : option (string * tokenData);
  tf_log : list logline;
  tf_requested : bool;
}.

Definition fetchTokenBalance (w : env) (cache : gmap string tokenData)
    (walletAddress : string) (tk : token) (tokenAddress : string) : tokenFetch :=
  let cacheKey := walletAddress +:+ "-" +:+ tokenAddress in
  let failed :=
    TokenFetch (Some (TokenData tk "Error" "0" None true)) None
      [(LError, "Error fetching balance for " +:+ symbol tk)] true in
  match cachedTokenBalance w cache cacheKey with
  | Some cachedData => TokenFetch (Some cachedData) None [] false
  | None =>
      if containsUrlPattern (Some (symbol tk)) || containsUrlPattern (Some (name tk)) then
        TokenFetch None None
          [(LWarn, "Skipping token with URL pattern: " +:+ symbol tk)] false
      else if negb (nonempty (symbol tk)) || bool_decide (trim (symbol tk) = "") then
        TokenFetch None None [(LWarn, "Skipping token without symbol")] false
      else
        match balanceOf w (address tk) with
        | Resolved bal =>
            match Ethers.formatUnits bal (decimals tk) with
            | Some formattedBalance =>
                let tokenData :=
                  TokenData tk formattedBalance (pretty bal) (Some (now w)) false in
                TokenFetch (Some tokenData) (Some (cacheKey, tokenData)) [] true
            | None => failed
            end
        | Rejected _ => failed
        end
  end.

Definition priorityTokens : list string :=
  ["USDC"; "USDT"; "DAI"; "WETH"; "WBTC"; "LINK"].

(** The comparator of the priority sort, on the tokens of the two
    addresses compared. *)
Definition comparePriority (a b : string * token) : comparison :=
  match indexOf (symbol a.2) priorityTokens, indexOf (symbol b.2) priorityTokens with
  | Some priorityA, Some priorityB => Nat.compare priorityA priorityB
  | Some _, None => Lt
  | None, Some _ => Gt
  | None, None => Eq
  end.

(** [sortedAddresses], each address with [uniqueTokens[address]]. *)
Definition sortedAddresses (uniqueTokens : Obj.t token) : list (string * token) :=
  sort comparePriority uniqueTokens.

(** One batch: [Promise.all(batch.map(fetchTokenBalance))]. Every request
    of the batch reads the cache before any of them writes to it. *)
Definition fetchBatch (w : env) (cache : gmap string tokenData)
    (walletAddress : string) (batch : list (string * token))
  : list (option tokenData) * gmap string tokenData * list logline :=
  let rs := (fun at_ : string * token =>
               fetchTokenBalance w cache walletAddress at_.2 at_.1) <$> batch in
  (tf_result <$> rs,
   foldl (fun c r => match tf_cached r with Some (k, v) => <[k := v]> c | None => c end)
         cache rs,
   concat (tf_log <$> rs)).

(** The loop over the batches: the results of every batch so far, the
    cache and the console. *)
Fixpoint tokenBatchLoop (w : env) (walletAddress : string)
    (bs : list (list (string * token))) (cache : gmap string tokenData)
  : list (list (option tokenData)) * gmap string tokenData * list logline :=
  match bs with
  | [] => ([], cache, [])
  | batch :: bs' =>
      let '(batchResults, cache1, l1) := fetchBatch w cache walletAddress batch in
      let '(rest, cache2, l2) := tokenBatchLoop w walletAddress bs' cache1 in
      (batchResults :: rest, cache2, l1 ++ l2)
  end.

(** [batchResults.filter(result => result !== null)] *)
Definition validResults (batchResults : list (option tokenData)) : list tokenData :=
  omap id batchResults.

(** The cached batch of [sessionStorage] that [fetchTokenBalances] returns
    instead of fetching, when there is one. *)
Definition cachedTokenBalances (w : env) (ss : sessionStorage)
    (walletAddress : string) (uniqueTokens : Obj.t token) : option (list tokenData) :=
  match freshCache CACHE_EXPIRY (now w) (token_balances ss !! walletAddress) with
  | Some balances =>
      let validCachedBalances :=
        filter (fun t : tokenData =>
                  nonempty (address (td_token t)) = true ∧
                  is_Some (Obj.get (toLowerCase (address (td_token t))) uniqueTokens))
               balances in
      if (0 <? length validCachedBalances)%nat then Some validCachedBalances else None
  | None => None
  end.

Record tokenBalancesResult : Type := TokenBalancesResult {
  tokenBalances : list tokenData;
  tb_batchResults : list (list (option tokenData));
  tb_storage : sessionStorage;
  tb_cache : gmap string tokenData;
  tb_log : list logline;
}.

Definition fetchTokenBalances (w : env) (ss : sessionStorage)
    (cache : gmap string tokenData) (walletAddress : string)
    (uniqueTokens : Obj.t token) : tokenBalancesResult :=
  if (length (Obj.keys uniqueTokens) =? 0)%nat then
    TokenBalancesResult [] [] ss cache []
  else
    match cachedTokenBalances w ss walletAddress uniqueTokens with
    | Some validCachedBalances =>
        TokenBalancesResult validCachedBalances [] ss cache []
    | None =>
        let batchSize := 5%nat in
        let '(results, cache', l) :=
          tokenBatchLoop w walletAddress
            (batches batchSize (sortedAddresses uniqueTokens)) cache in
        let tokenBalances := concat (validResults <$> results) in
        match setItem w (<[walletAddress := (tokenBalances, now w)]> (token_balances ss)) with
        | Resolved tb =>
            TokenBalancesResult tokenBalances results
              (SessionStorage (eth_balance ss) tb (price_data_cache ss)) cache' l
        | Rejected _ =>
            TokenBalancesResult tokenBalances results ss cache'
              (l ++ [(LWarn, "Error caching token balances:")])
        end
    end.

(** One price request: [axios.get(...).then(...).catch(...)]. *)
Definition fetchPrice (w : env) (sym : string)
  : option (string * priceEntry) * list logline :=
  match priceOf w sym with
  | Resolved response =>
      if pr_status response =? 200 then
        match pr_data response with
        | Some data => (Some (sym, data), [])
        | None => (None, [])
        end
      else (None, [])
  | Rejected _ => (None, [(LError, "Error fetching price for " +:+ sym)])
  end.

(** [results.forEach(result => ...)] *)
Definition storePrice (priceData : gmap string priceEntry)
    (result : option (string * priceEntry)) : gmap string priceEntry :=
  match result with
  | Some (sym, data) =>
      Plain.set sym (PriceEntry (price data) (percentChange24h data) (lastUpdated data))
        priceData
  | None => priceData
  end.

Fixpoint priceBatchLoop (w : env) (bs : list (list string))
    (priceData : gmap string priceEntry)
  : gmap string priceEntry * list (list (option (string * priceEntry))) * list logline :=
  match bs with
  | [] => (priceData, [], [])
  | batch :: bs' =>
      let rs := fetchPrice w <$> batch in
      let results := rs.*1 in
      let '(priceData', rest, l) :=
        priceBatchLoop w bs' (foldl storePrice priceData results) in
      (priceData', results :: rest, concat (rs.*2) ++ l)
  end.

Record priceDataResult : Type := PriceDataResult {
  prices : gmap string priceEntry;
  pd_results : list (list (option (string * priceEntry)));
  pd_storage : sessionStorage;
  pd_rateLimited : bool;
  pd_log : list logline;
}.

(** The symbols of the assets, and ETH. *)
Definition priceSymbols (assetSymbols : list string) : list string :=
  let symbols := unique assetSymbols [] in
  if bool_decide ("ETH" ∈ symbols) then symbols else symbols ++ ["ETH"].

Definition priceCacheOf (w : env) (ss : sessionStorage) : gmap string priceEntry :=
  default ∅ (freshCache (2 * 60 * 1000) (now w) (price_data_cache ss)).

(** [symbols.filter(symbol => !priceCache[symbol])]: the symbols whose
    price is requested. *)
Definition symbolsToFetch (w : env) (ss : sessionStorage)
    (assetSymbols : list string) : list string :=
  filter (fun sym => Plain.has sym (priceCacheOf w ss) = false) (priceSymbols assetSymbols).

(** [fetchPriceData(assets)]; of the assets only [asset.symbol] is read,
    so the argument is the list of their symbols. *)
Definition fetchPriceData (w : env) (ss : sessionStorage)
    (assetSymbols : list string) : priceDataResult :=
  if (length assetSymbols =? 0)%nat then PriceDataResult ∅ [] ss false []
  else
    let priceCache := priceCacheOf w ss in
    let toFetch := symbolsToFetch w ss assetSymbols in
    if (length toFetch =? 0)%nat then PriceDataResult priceCache [] ss false []
    else
      let batchSize := 3%nat in
      let '(priceData, results, l) :=
        priceBatchLoop w (batches batchSize toFetch) priceCache in
      match setItem w (priceData, now w) with
      | Resolved entry =>
          PriceDataResult priceData results
            (SessionStorage (eth_balance ss) (token_balances ss) (Some entry)) false l
      | Rejected err =>
          let l := l ++ [(LError, "Error in fetch prices process:")] in
          if isRateLimitError err then
            let l := l ++ [(LWarn, "Price API rate limit detected")] in
            match price_data_cache ss with
            | Some (data, _) => PriceDataResult data results ss true l
            | None => PriceDataResult ∅ results ss true l
            end
          else PriceDataResult ∅ results ss false l
      end.

(** The state of the component (the loading progress and status texts
    are presentation and are left out). *)
Record state : Type := State {
  assets : list asset;
  ethBalance : string;
  isLoading : bool;
  st_error : option string;
  filteredTokens : nat * nat;
  priceData : gmap string priceEntry;
  isRateLimited : bool;
  initialFetchDone : bool;
}.

Definition initialState : state :=
  State [] "0" false None (0, 0)%nat ∅ false false.

(** What the wallet context keeps of [updateNetWorth(value, breakdown)]:
    [totalAssets], [assetsWithValue], [assetsWithoutValue]. *)
Record netWorthReport : Type := NetWorthReport {
  netWorth : jsnum;
  totalAssets : nat;
  assetsWithValue : nat;
  assetsWithoutValue : nat;
}.

(** Everything outside the component that a run reads or writes. *)
Record world : Type := World {
  storage : sessionStorage;
  globalTokenBalanceCache : gmap string tokenData;
  context : netWorthReport;
  onAssetsLoaded : list (list asset);
  console : list logline;
}.

Definition initialWorld : world :=
  World (SessionStorage ∅ ∅ None) ∅ (NetWorthReport zero 0 0 0) [] [].

Record props : Type := Props {
  p_address : option string;
  isConnected : bool;
}.

(** The filter of [validBalances]. *)
Definition validBalance (t : tokenData) : bool :=
  negb (error t) &&
  gt (parseFloat (balance t)) zero &&
  nonempty (symbol (td_token t)) &&
  negb (bool_decide (trim (symbol (td_token t)) = "")) &&
  negb (containsUrlPattern (Some (symbol (td_token t)))) &&
  negb (containsUrlPattern (Some (name (td_token t)))).

(** [prices[asset.symbol] ? prices[asset.symbol].price : 0], as the factor
    of the product: an inherited member has no [price], and [undefined]
    makes the product [NaN]. *)
Definition priceFor (ps : gmap string priceEntry) (sym : string) : jsnum :=
  match Plain.get sym ps with
  | Plain.Own entry => price entry
  | Plain.Inherited => NaN
  | Plain.Undefined => zero
  end.

Definition ethAsset (ethBalance : string) (ps : gmap string priceEntry) : asset :=
  Asset "ETH" "Ethereum" ethBalance
    (match ps !! "ETH" with
     | Some entry => mul (parseFloat ethBalance) (price entry)
     | None => zero
     end)
    None.

Definition tokenAsset (ps : gmap string priceEntry) (t : tokenData) : asset :=
  let price := priceFor ps (symbol (td_token t)) in
  let usdValue := mul (parseFloat (balance t)) price in
  Asset (symbol (td_token t)) (name (td_token t)) (balance t) usdValue (Some t).

(** The loop that adds up the net worth. *)
Definition addNetWorth (r : netWorthReport) (a : asset) : netWorthReport :=
  if truthy (usdValue a) && negb (isNaN (usdValue a)) then
    NetWorthReport (add (netWorth r) (usdValue a)) (totalAssets r)
      (S (assetsWithValue r)) (assetsWithoutValue r)
  else
    NetWorthReport (netWorth r) (totalAssets r)
      (assetsWithValue r) (S (assetsWithoutValue r)).

Definition netWorthOf (assetsWithValue : list asset) : netWorthReport :=
  foldl addNetWorth (NetWorthReport zero (length assetsWithValue) 0 0) assetsWithValue.

(** [(a, b) => b.usdValue - a.usdValue] *)
Definition byUsdValueDesc (a b : asset) : comparison :=
  sign_sub (usdValue b) (usdValue a).

(** The error test of the [catch] of [fetchAssets]: the message only. *)
Definition isRateLimitMessage (e : JS.error) : bool :=
  includes "rate limit" (message e) ||
  includes "too many requests" (message e) ||
  includes "429" (message e).

(** [fetchAssets], run to completion. [st] is the state of the render
    the callback closes over: [ethBalance st] and [assets st] are read
    from it, also after [setEthBalance]. *)
Definition fetchAssets (w : env) (p : props) (st : state) (wd : world)
  : state * world :=
  match p_address p with
  | Some addr =>
      if isConnected p && nonempty addr then
        let '(bal, ss1, l1, _) := fetchEthBalance w (storage wd) addr in
        let '(tokenTxs, limited1, l2) := fetchTokenData w addr in
        match tokenTxs with
        | Resolved txs =>
            let scan := scanTransactions txs in
            let tb := fetchTokenBalances w ss1 (globalTokenBalanceCache wd) addr
                        (uniqueTokens scan) in
            let validBalances := List.filter validBalance (tokenBalances tb) in
            let allAssets := "ETH" :: ((fun t => symbol (td_token t)) <$> validBalances) in
            let pd := fetchPriceData w (tb_storage tb) allAssets in
            let assetsWithValue :=
              ethAsset (ethBalance st) (prices pd)
              :: (tokenAsset (prices pd) <$> validBalances) in
            let sortedAssets := sort byUsdValueDesc (drop 1 assetsWithValue) in
            (State sortedAssets bal false None
               (tokensWithUrlPatterns scan, tokensWithoutSymbols scan)
               (prices pd)
               (isRateLimited st || limited1 || pd_rateLimited pd)
               (initialFetchDone st),
             World (pd_storage pd) (tb_cache tb) (netWorthOf assetsWithValue)
               (onAssetsLoaded wd ++ [assetsWithValue])
               (console wd ++ l1 ++ l2 ++ scanLog scan ++ tb_log tb ++ pd_log pd))
        | Rejected err =>
            let l3 := [(LError, "Error fetching assets:")] in
            let wd' := World ss1 (globalTokenBalanceCache wd) (context wd)
                         (onAssetsLoaded wd) (console wd ++ l1 ++ l2 ++ l3) in
            if isRateLimitMessage err then
              (State (assets st) (ethBalance st) false
                 (Some (if (0 <? length (assets st))%nat
                        then "Rate limit reached. Displaying cached data."
                        else "Rate limit reached. Please try again later."))
                 (0, 0)%nat
                 (match price_data_cache ss1 with
                  | Some (data, _) => data
                  | None => priceData st
                  end)
                 true (initialFetchDone st),
               wd')
            else
              (State (assets st) (ethBalance st) false
                 (Some ("Failed to fetch wallet assets: " +:+ message err))
                 (0, 0)%nat (priceData st) (isRateLimited st || limited1)
                 (initialFetchDone st),
               wd')
        end
      else
        (State [] "0" (isLoading st) (st_error st) (filteredTokens st) (priceData st)
           (isRateLimited st) (initialFetchDone st), wd)
  | None =>
      (State [] "0" (isLoading st) (st_error st) (filteredTokens st) (priceData st)
         (isRateLimited st) (initialFetchDone st), wd)
  end.

(** The effect that starts the fetch; the flag tells whether it called
    [fetchAssets]. *)
Definition assetFetchEffect (w : env) (p : props) (st : state) (wd : world)
  : state * world * bool :=
  if isRateLimited st then (st, wd, false)
  else if negb (initialFetchDone st) || truthy_str (p_address p) then
    let '(st', wd') := fetchAssets w p st wd in
    (State (assets st') (ethBalance st') (isLoading st') (st_error st')
       (filteredTokens st') (priceData st') (isRateLimited st') true,
     wd', true)
  else (st, wd, false).

(** The rows of the asset list that the component renders: the ETH row
    and one row for each element of [assets]; symbol and balance. *)
Definition renderedAssets (p : props) (st : state) : list (string * string) :=
  if isLoading st then []
  else if bool_decide (is_Some (st_error st)) then []
  else if negb (isConnected p) then []
  else ("ETH", ethBalance st)
       :: ((fun a => (asset_symbol a, asset_balance a)) <$> assets st).

End WalletAssets.

(** ** scripts/price-api-server.js *)
Module PriceProxy.

Definition CACHE_DURATION : Z := 5 * 60 * 1000.
Definition RATE_LIMIT_WINDOW : Z := 60 * 1000.
Definition MAX_REQUESTS_PER_WINDOW : Z := 25.

(** *** The rate limiter *)

Record limiter : Type := Limiter {
  requestCount : Z;
  windowStart : Z;
}.

Inductive verdict : Type :=
  | Next          (* [next()] *)
  | TooMany.      (* [res.status(429)] *)

(** The middleware [rateLimiter], at time [now]. *)
Definition rateLimiter (now : Z) (s : limiter) : limiter * verdict :=
  let s1 := if RATE_LIMIT_WINDOW <? now - windowStart s then Limiter 0 now else s in
  if MAX_REQUESTS_PER_WINDOW <=? requestCount s1 then (s1, TooMany)
  else (Limiter (requestCount s1 + 1) (windowStart s1), Next).

(** The callback of [setInterval(..., RATE_LIMIT_WINDOW)]. *)
Definition resetTimer (now : Z) (s : limiter) : limiter := Limiter 0 now.

Inductive event : Type :=
  | Request (now : Z)
  | TimerFires (now : Z).

Definition time_of (e : event) : Z :=
  match e with Request t => t | TimerFires t => t end.

(** One event: the new state and, for a request, the verdict. *)
Definition step (s : limiter) (e : event) : limiter * option verdict :=
  match e with
  | Request now => let '(s', v) := rateLimiter now s in (s', Some v)
  | TimerFires now => (resetTimer now s, None)
  end.

(** A run: the final state and the verdicts of the requests with their
    times, in order. *)
Fixpoint run (s : limiter) (es : list event) : limiter * list (Z * verdict) :=
  match es with
  | [] => (s, [])
  | e :: es' =>
      let '(s1, v) := step s e in
      let '(s2, vs) := run s1 es' in
      (s2, match v with Some v => (time_of e, v) :: vs | None => vs end)
  end.

(** The times of the requests that were served. *)
Definition served (vs : list (Z * verdict)) : list Z :=
  omap (fun tv : Z * verdict => match tv.2 with Next => Some tv.1 | TooMany => None end) vs.

(** Whether the event resets the counter in state [s]. *)
Definition resets (s : limiter) (e : event) : bool :=
  match e with
  | Request now => RATE_LIMIT_WINDOW <? now - windowStart s
  | TimerFires _ => true
  end.

(** A run in which no event resets the counter: one window. *)
Fixpoint oneWindow (s : limiter) (es : list event) : bool :=
  match es with
  | [] => true
  | e :: es' => negb (resets s e) && oneWindow (step s e).1 es'
  end.

(** *** The price endpoints *)

(** [responseData]; [price] is [None] when the upstream price is [null]. *)
Record priceData : Type := PriceData {
  pd_symbol : string;
  pd_name : string;
  pd_price : option Qc;
  pd_lastUpdated : string;
  pd_percentChange24h : Qc;
}.

Record cacheEntry : Type := CacheEntry {
  timestamp : Z;
  data : priceData;
}.

(** The upstream document: [response.data.data[symbol]] with
    [name] and [quote.USD]. *)
Record usdQuote : Type := UsdQuote {
  q_price : jsonNumber;
  q_last_updated : option string;
  q_percent_change_24h : jsonNumber;
}.

Record coin : Type := Coin {
  coin_name : option string;
  quote_USD : option usdQuote;
}.

Record cmcResponse : Type := CmcResponse {
  cmc_status : Z;
  cmc_data : option (gmap string coin);
}.

Inductive body : Type :=
  | PriceBody (d : priceData)
  | PricesBody (result : gmap string priceData)
  | ErrorBody (err : string).

Record response : Type := Response {
  status : Z;
  res_body : body;
}.

(** The world of one request: the time, [new Date().toISOString()], and
    the answer of the upstream API to the request the handler makes. *)
Record env : Type := Env {
  now : Z;
  nowIso : string;
  upstream : outcome cmcResponse;
}.

Definition or_name (a : option string) (b : string) : string :=
  match a with
  | Some s => if nonempty s then s else b
  | None => b
  end.

(** [responseData] of a coin whose price is not [undefined]. *)
Definition responseData (w : env) (sym : string) (c : coin) (q : usdQuote)
    (price : option Qc) : priceData :=
  PriceData sym (or_name (coin_name c) sym) price
    (or_name (q_last_updated q) (nowIso w))
    (match q_percent_change_24h q with JNumber x => x | _ => 0%Qc end).

(** The fresh cache entry of a key, if any. *)
Definition freshEntry (w : env) (priceCache : gmap string cacheEntry) (cacheKey : string)
  : option priceData :=
  match priceCache !! cacheKey with
  | Some cachedData =>
      if now w - timestamp cachedData <? CACHE_DURATION then Some (data cachedData)
      else None
  | None => None
  end.

(** The [catch] clause of [GET /api/price/:symbol]. *)
Definition priceErrorHandler (priceCache : gmap string cacheEntry) (sym : string)
    (err : JS.error) : response :=
  match response_status err with
  | Some st =>
      if st =? 429 then
        let cacheKey := toUpperCase sym in
        match priceCache !! cacheKey with
        | Some cachedData => Response 200 (PriceBody (data cachedData))
        | None => Response 429 (ErrorBody "Rate limit exceeded on upstream API")
        end
      else Response st (ErrorBody "API Error")
  | None =>
      if bool_decide (code_ err = Some "ECONNABORTED")
      then Response 504 (ErrorBody "Request timeout")
      else Response 500 (ErrorBody (message err))
  end.

(** [GET /api/price/:symbol]: the response, the cache, and whether the
    upstream API was called. *)
Definition getPrice (w : env) (priceCache : gmap string cacheEntry) (sym : string)
  : response * gmap string cacheEntry * bool :=
  let cacheKey := toUpperCase sym in
  match freshEntry w priceCache cacheKey with
  | Some d => (Response 200 (PriceBody d), priceCache, false)
  | None =>
      match upstream w with
      | Resolved r =>
          let found :=
            if cmc_status r =? 200 then cmc_data r ≫= (fun d => d !! sym) else None in
          match found with
          | Some c =>
              match quote_USD c with
              | Some q =>
                  match q_price q with
                  | JNumber price =>
                      let d := responseData w sym c q (Some price) in
                      (Response 200 (PriceBody d),
                       <[cacheKey := CacheEntry (now w) d]> priceCache, true)
                  | JNull =>
                      (* [price.toFixed] throws; the inner [catch] answers *)
                      (Response 500 (ErrorBody "Error processing price data"),
                       priceCache, true)
                  | JUndefined =>
                      (Response 404 (ErrorBody "Price data not available"), priceCache, true)
                  end
              | None =>
                  (Response 404 (ErrorBody "Price data not available"), priceCache, true)
              end
          | None =>
              (Response 404 (ErrorBody "Token not found or invalid format"),
               priceCache, true)
          end
      | Rejected err => (priceErrorHandler priceCache sym err, priceCache, true)
      end
  end.

(** The symbols of [GET /api/prices?symbols=...]. *)
Definition symbolArray (symbols : string) : list string :=
  (fun s => toUpperCase (trim s)) <$> split_comma EmptyString symbols.

(** One symbol of the upstream answer to the batch request. *)
Definition storeQuote (w : env) (d : gmap string coin)
    (acc : gmap string priceData * gmap string cacheEntry) (sym : string)
  : gmap string priceData * gmap string cacheEntry :=
  match d !! sym with
  | Some c =>
      match quote_USD c with
      | Some q =>
          let put price :=
            let r := responseData w sym c q price in
            (<[sym := r]> acc.1, <[sym := CacheEntry (now w) r]> acc.2) in
          match q_price q with
          | JNumber price => put (Some price)
          | JNull => put None
          | JUndefined => acc
          end
      | None => acc
      end
  | None => acc
  end.

(** [GET /api/prices]; [symbols] is the query parameter. *)
Definition getPrices (w : env) (priceCache : gmap string cacheEntry)
    (symbols : option string) : response * gmap string cacheEntry * bool :=
  match symbols with
  | Some q =>
      if negb (nonempty q) then
        (Response 400 (ErrorBody "Missing symbols parameter"), priceCache, false)
      else
        let syms := symbolArray q in
        let result : gmap string priceData :=
          foldl (fun r sym => match freshEntry w priceCache sym with
                              | Some d => <[sym := d]> r
                              | None => r
                              end) ∅ syms in
        let symbolsToFetch :=
          filter (fun sym => freshEntry w priceCache sym = None) syms in
        if (length symbolsToFetch =? 0)%nat then
          (Response 200 (PricesBody result), priceCache, false)
        else
          match upstream w with
          | Resolved r =>
              match (if cmc_status r =? 200 then cmc_data r else None) with
              | Some d =>
                  let '(result', cache') :=
                    foldl (storeQuote w d) (result, priceCache) symbolsToFetch in
                  (Response 200 (PricesBody result'), cache', true)
              | None => (Response 200 (PricesBody result), priceCache, true)
              end
          | Rejected err =>
              (match response_status err with
               | Some st =>
                   if st =? 429
                   then Response 429 (ErrorBody "Rate limit exceeded on upstream API")
                   else Response st (ErrorBody "API Error")
               | None =>
                   if bool_decide (code_ err = Some "ECONNABORTED")
                   then Response 504 (ErrorBody "Request timeout")
                   else Response 500 (ErrorBody (message err))
               end, priceCache, true)
          end
  | None => (Response 400 (ErrorBody "Missing symbols parameter"), priceCache, false)
  end.

(** *** The server *)

(** [app.use(rateLimiter)] comes before the routes: every request passes
    the limiter first, and a request that it rejects does not reach its
    route. *)
Record server : Type := Server {
  limit : limiter;
  cache : gmap string cacheEntry;
}.

Definition rateLimitExceeded : response :=
  Response 429 (ErrorBody "Rate limit exceeded").

(** A request [GET /api/price/:symbol] to the server: the response, the
    server after it, and whether the upstream API was called. *)
Definition servePrice (w : env) (s : server) (sym : string)
  : response * server * bool :=
  let '(l, v) := rateLimiter (now w) (limit s) in
  match v with
  | TooMany => (rateLimitExceeded, Server l (cache s), false)
  | Next =>
      let '(r, c, called) := getPrice w (cache s) sym in
      (r, Server l c, called)
  end.

End PriceProxy.

(** ** scripts/fetch-coinmarketcap-api.js *)
Module CmcScript.

(** The object that [fetchCryptoPriceData] returns; [name],
    [lastUpdated] and [percentChange24h] are passed on as they come. *)
Record priceData : Type := PriceData {
  symbol : string;
  name : option string;
  price : Qc;
  lastUpdated : option string;
  percentChange24h : jsonNumber;
}.

(** [fetchCryptoPriceData(symbol)] with the answer of the API; [None]
    when it throws: the request is rejected, the answer is not a 200
    with data, or reading [data.quote.USD.price] or calling
    [price.toFixed] throws. *)
Definition fetchCryptoPriceData (answer : outcome PriceProxy.cmcResponse)
    (symbol : string) : option priceData :=
  match answer with
  | Resolved response =>
      if PriceProxy.cmc_status response =? 200 then
        match PriceProxy.cmc_data response ≫= (fun d => d !! symbol) with
        | Some data =>
            match PriceProxy.quote_USD data with
            | Some usd =>
                match PriceProxy.q_price usd with
                | JNumber price =>
                    Some (PriceData symbol (PriceProxy.coin_name data) price
                            (PriceProxy.q_last_updated usd)
                            (PriceProxy.q_percent_change_24h usd))
                | _ => None
                end
            | None => None
            end
        | None => None
        end
      else None
  | Rejected _ => None
  end.

(** [main]: the three requests one after the other; the first that
    throws ends the script with exit code 1. The result is the data
    printed, or [None], and the symbols that were requested. *)
Fixpoint fetchAll (api : string → outcome PriceProxy.cmcResponse)
    (symbols : list string) : option (list priceData) * list string :=
  match symbols with
  | [] => (Some [], [])
  | symbol :: rest =>
      match fetchCryptoPriceData (api symbol) symbol with
      | Some data =>
          let '(r, requested) := fetchAll api rest in
          (cons data <$> r, symbol :: requested)
      | None => (None, [symbol])
      end
  end.

Definition main (api : string → outcome PriceProxy.cmcResponse)
  : option (list priceData) * list string :=
  fetchAll api ["ETH"; "BTC"; "AVAX"].

End CmcScript.

(** ** StakingData.js *)
Module StakingData.

(** A pool of the [stats] endpoint. *)
Record stakingToken : Type := StakingToken {
  slug : option string;
  st_symbol : option string;
}.

Record protocolRef : Type := ProtocolRef {
  pr_id : option string;
  pr_name : option string;
}.

Record pool : Type := Pool {
  staking_token : option stakingToken;
  protocol_ : option protocolRef;
  apy : jsonNumber;
}.

(** A processed opportunity (the formatted texts [apr], [tvl] and the
    chain names are presentation and are left out). *)
Record item : Type := Item {
  protocol : string;
  asset : string;
  aprValue : Qc;
}.

(** The four documents fetched in parallel; of [protocols] and [tokens]
    the lookup maps by [id] and [slug]. *)
Record endpoints : Type := Endpoints {
  protocolNames : gmap string string;
  tokenSymbols : gmap string string;
  stats : list pool;
}.

Definition or3 (a b : option string) (c : string) : string :=
  match a with
  | Some s => if nonempty s then s else
      match b with Some s' => if nonempty s' then s' else c | None => c end
  | None => match b with Some s' => if nonempty s' then s' else c | None => c end
  end.

(** [assetName] of a pool. *)
Definition assetName (e : endpoints) (p : pool) : string :=
  let tokenSlug := staking_token p ≫= slug in
  let tokenSymbol := tokenSlug ≫= (fun sl => tokenSymbols e !! sl) in
  or3 (staking_token p ≫= st_symbol) tokenSymbol "Unknown".

Definition protocolName (e : endpoints) (p : pool) : string :=
  let protocolId := protocol_ p ≫= pr_id in
  or3 (protocolId ≫= (fun i => protocolNames e !! i)) (protocol_ p ≫= pr_name) "Unknown".

(** The body of the [reduce]; it throws when [apy] is [null]
    ([aprValue.toFixed]). *)
Definition processPool (e : endpoints) (acc : outcome (list item)) (p : pool)
  : outcome (list item) :=
  match acc with
  | Rejected err => Rejected err
  | Resolved acc =>
      if bool_decide (assetName e p = "Unknown") then Resolved acc
      else
        match apy p with
        | JNull => Rejected (newError "Cannot read properties of null (reading 'toFixed')")
        | JUndefined => Resolved acc
        | JNumber aprValue =>
            if bool_decide (aprValue ≤ 0)%Qc then Resolved acc
            else Resolved (acc ++ [Item (protocolName e p) (assetName e p) aprValue])
        end
  end.

Definition processedData (e : endpoints) : outcome (list item) :=
  foldl (processPool e) (Resolved []) (stats e).

(** [(a, b) => b.aprValue - a.aprValue] *)
Definition byAprDesc (a b : item) : comparison := (aprValue b ?= aprValue a)%Qc.

Record state : Type := State {
  stakingData : list item;
  isLoading : bool;
  st_error : option string;
}.

Definition initialState : state := State [] false None.

(** [fetchStakingData]: the state and the [staking-data-cache] entry of
    [sessionStorage]; the flag tells whether the network was used.
    [setItem_error] tells whether [sessionStorage.setItem] throws. *)
Definition fetchStakingData (now : Z) (api : outcome endpoints) (setItem_error : bool)
    (walletAddress : option string) (st : state) (cache : option (list item * Z))
  : state * option (list item * Z) * bool :=
  if negb (match walletAddress with Some a => nonempty a | None => false end)
  then (st, cache, false)
  else
    match freshCache (10 * 60 * 1000) now cache with
    | Some data => (State data false None, cache, false)
    | None =>
        let failed :=
          (State (stakingData st) false
             (Some "Failed to fetch staking data. Please try again later."),
           cache, true) in
        match api with
        | Resolved e =>
            match processedData e with
            | Resolved processed =>
                let sortedData := sort byAprDesc processed in
                (State sortedData false None,
                 if setItem_error then cache else Some (sortedData, now), true)
            | Rejected _ => failed
            end
        | Rejected _ => failed
        end
    end.

(** [userAssetSymbols]; a user asset is its symbol, which may be missing. *)
Definition userAssetSymbols (userAssets : list (option string)) : gset string :=
  foldl (fun symbols a =>
           match a with
           | Some sy => if nonempty sy then {[ toUpperCase sy ]} ∪ symbols else symbols
           | None => symbols
           end) ∅ userAssets.

Definition filteredStakingData (st : state) (userAssets : list (option string))
  : list item :=
  if (length userAssets =? 0)%nat then []
  else filter (fun it => toUpperCase (asset it) ∈ userAssetSymbols userAssets)
              (stakingData st).

(** The rows of the table that the component renders. *)
Definition displayed (st : state) (userAssets : list (option string)) : list item :=
  if isLoading st then []
  else if bool_decide (is_Some (st_error st)) then []
  else if (length (stakingData st) =? 0)%nat then []
  else filteredStakingData st userAssets.

End StakingData.

(** ** LendingData.js *)
Module LendingData.

Definition LENDING_PROTOCOLS : list string :=
  [ "aave-v2"; "aave-v3"; "compound-v2"; "compound-v3"; "euler"; "morpho-aave";
    "morpho-compound"; "spark"; "venus"; "cream"; "iron-bank"; "maker";
    "clearpool-lending"; "maple"; "notional-v3"; "silo-finance"; "solend";
    "tenderfi"; "benqi"; "geist"; "granary"; "radiant"; "seamless-protocol" ].

Record pool : Type := Pool {
  p_apy : jsonNumber;
  p_apr : jsonNumber;
  p_chain : option string;
  p_project : option string;
  p_protocol : option string;
  p_symbol : option string;
  p_tvlUsd : jsonNumber;
}.

Record item : Type := Item {
  symbol : string;
  protocol : string;
  apy : Qc;
  tvlUsd : Qc;
  chain : string;
}.

(** The shapes of [response.data] that the code tells apart. *)
Inductive document : Type :=
  | DataArray (pools : list pool)      (* [{ data: [...] }] *)
  | PoolsArray (pools : list pool)     (* [{ pools: [...] }] *)
  | BareArray (pools : list pool)      (* [[...]] *)
  | NoArray.                           (* anything else *)

Record response : Type := Response {
  status : Z;
  res_data : option document;
}.

Definition or_else (a : option string) (b : string) : string :=
  match a with Some s => if nonempty s then s else b | None => b end.

Definition filterPool (acc : list item) (p : pool) : list item :=
  let apy := match p_apy p with
             | JNumber x => x
             | _ => match p_apr p with JNumber x => x | _ => 0%Qc end
             end in
  let chain := or_else (p_chain p) "" in
  let project := or_else (p_project p) (or_else (p_protocol p) "") in
  if bool_decide (Q2Qc (1 # 100) < apy)%Qc &&
     bool_decide (toLowerCase chain = "ethereum") &&
     bool_decide (project ∈ LENDING_PROTOCOLS)
  then acc ++ [Item (or_else (p_symbol p) "Unknown") project apy
                 (match p_tvlUsd p with JNumber x => x | _ => 0%Qc end) chain]
  else acc.

Definition byApyDesc (a b : item) : comparison := (apy b ?= apy a)%Qc.

Record state : Type := State {
  lendingData : list item;
  isLoading : bool;
  st_error : option string;
}.

(** [fetchLendingData]: the state, the [lending-data-cache] entry, and
    whether the network was used. [setItem_error] tells whether
    [sessionStorage.setItem] throws. *)
Definition fetchLendingData (now : Z) (api : outcome response) (setItem_error : bool)
    (st : state) (cache : option (list item * Z))
  : state * option (list item * Z) * bool :=
  match freshCache (15 * 60 * 1000) now cache with
  | Some data => (State data false None, cache, false)
  | None =>
      let fallback :=
        match cache with
        | Some (data, _) =>
            (State data false
               (Some "Using cached data. Latest data could not be fetched."), cache, true)
        | None =>
            (State (lendingData st) false
               (Some "Failed to fetch lending data. Please try again later."), cache, true)
        end in
      match api with
      | Resolved r =>
          match (if status r =? 200 then res_data r else None) with
          | Some NoArray => fallback
          | Some doc =>
              let poolsData :=
                match doc with
                | DataArray l => l
                | PoolsArray l => l
                | _ => []
                end in
              let filteredData := sort byApyDesc (foldl filterPool [] poolsData) in
              (State filteredData false None,
               if setItem_error then cache else Some (filteredData, now), true)
          | None =>
              (State (lendingData st) false
                 (Some "Failed to fetch lending data. Unexpected response format."),
               cache, true)
          end
      | Rejected _ => fallback
      end
  end.

(** [userAssetSymbols]; a user asset is its symbol, which may be missing. *)
Definition userAssetSymbols (userAssets : list (option string)) : gset string :=
  foldl (fun symbols a =>
           match a with
           | Some sy => if nonempty sy then {[ toUpperCase sy ]} ∪ symbols else symbols
           | None => symbols
           end) ∅ userAssets.

(** [filteredLendingData]; [showOnlyUserAssets] is the state of the check
    box. *)
Definition filteredLendingData (st : state) (showOnlyUserAssets : bool)
    (userAssets : list (option string)) : list item :=
  if negb showOnlyUserAssets || (length userAssets =? 0)%nat then lendingData st
  else filter (fun it => toUpperCase (symbol it) ∈ userAssetSymbols userAssets)
              (lendingData st).

(** One step of the [forEach] of [findHighestApyByAsset]. *)
Definition highestApyStep (highestApyMap : gmap string Qc) (it : item)
  : gmap string Qc :=
  let asset := symbol it in
  let apyValue := if bool_decide (apy it = 0%Qc) then 0%Qc else apy it in
  match highestApyMap !! asset with
  | Some highest =>
      if bool_decide (highest < apyValue)%Qc then <[asset := apyValue]> highestApyMap
      else highestApyMap
  | None => <[asset := apyValue]> highestApyMap
  end.

Definition findHighestApyByAsset (rows : list item) : gmap string Qc :=
  foldl highestApyStep ∅ rows.

(** [item.apy === findHighestApyByAsset.get(item.symbol)] *)
Definition isHighestApy (rows : list item) (it : item) : bool :=
  bool_decide (findHighestApyByAsset rows !! symbol it = Some (apy it)).

(** The rows of the table that the component renders, each with the
    mark of the highest APY of its asset. *)
Definition displayed (st : state) (showOnlyUserAssets : bool)
    (userAssets : list (option string)) : list (item * bool) :=
  if isLoading st then []
  else if bool_decide (is_Some (st_error st)) then []
  else if (length (lendingData st) =? 0)%nat then []
  else
    let rows := filteredLendingData st showOnlyUserAssets userAssets in
    (fun it => (it, isHighestApy rows it)) <$> rows.

End LendingData.

(** ** WalletSymbols.js *)
Module WalletSymbols.

Record quote : Type := Quote {
  price : jsnum;
  percentChange24h : jsnum;
}.

Inductive fetchState : Type := Loading | Success | Failed.

Record batchResponse : Type := BatchResponse {
  status : Z;
  res_data : gmap string quote;
}.

Record state : Type := State {
  tokenPrices : gmap string quote;
  fetchStatus : gmap string fetchState;
}.

(** What is stored for a symbol that the answer has: the two fields of
    [response.data[symbol]]; an inherited member has neither, and a field
    that is not a number is [NaN]. *)
Definition quoteOf (p : Plain.property quote) : quote :=
  match p with
  | Plain.Own q => Quote (price q) (percentChange24h q)
  | _ => Quote NaN NaN
  end.

(** [const status = {}; batch.forEach(symbol => { status[symbol] = v })]
    followed by [setFetchStatus(prev => ({ ...prev, ...status }))]. *)
Definition markBatch (v : fetchState) (batch : list string)
    (prev : gmap string fetchState) : gmap string fetchState :=
  foldl (fun status sym => Plain.set sym v status) ∅ batch ∪ prev.

(** One symbol of a batch that was answered with status 200. *)
Definition storeAnswer (response : batchResponse)
    (acc : gmap string quote * nat * gmap string fetchState) (sym : string)
  : gmap string quote * nat * gmap string fetchState :=
  let '(newPrices, successCount, fs) := acc in
  match Plain.get sym (res_data response) with
  | Plain.Undefined => (newPrices, successCount, <[sym := Failed]> fs)
  | p => (Plain.set sym (quoteOf p) newPrices, S successCount, <[sym := Success]> fs)
  end.

(** One batch of [fetchTokenPrices]: the request for the joined symbols
    and what is done with its answer. The last component lists the
    batches requested so far. *)
Definition fetchBatch (api : list string -> outcome batchResponse)
    (acc : gmap string quote * nat * gmap string fetchState * list (list string))
    (batch : list string)
  : gmap string quote * nat * gmap string fetchState * list (list string) :=
  let '(newPrices, successCount, fs, requested) := acc in
  let fs := markBatch Loading batch fs in
  match api batch with
  | Resolved response =>
      if status response =? 200 then
        (foldl (storeAnswer response) (newPrices, successCount, fs) batch,
         requested ++ [batch])
      else (newPrices, successCount, fs, requested ++ [batch])
  | Rejected _ =>
      (newPrices, successCount, markBatch Failed batch fs, requested ++ [batch])
  end.

(** [fetchTokenPrices(symbols)]: the state, the
    [wallet-symbols-price-cache] entry, the returned count, and the
    batches that were requested. [setItem_error] tells whether
    [sessionStorage.setItem] throws. *)
Definition fetchTokenPrices (now : Z) (api : list string -> outcome batchResponse)
    (setItem_error : bool) (symbols : list string) (st : state)
    (cache : option (gmap string quote * Z))
  : state * option (gmap string quote * Z) * nat * list (list string) :=
  match freshCache (2 * 60 * 1000) now cache with
  | Some prices =>
      (State prices
         (foldl (fun newFetchStatus sym =>
                   Plain.set sym (if Plain.has sym prices then Success else Failed)
                     newFetchStatus)
                ∅ symbols),
       cache, size prices, [])
  | None =>
      let cachedPrices := match cache with Some (prices, _) => prices | None => ∅ end in
      let batchSize := 5%nat in
      let '(newPrices, successCount, fs, requested) :=
        foldl (fetchBatch api) (cachedPrices, O, fetchStatus st, [])
          (batches batchSize symbols) in
      (State newPrices fs,
       if setItem_error then cache else Some (newPrices, now),
       successCount, requested)
  end.

End WalletSymbols.

(** ** scripts/fetch-defillama-api.js *)
Module DefiLlamaScript.

Definition LENDING_PROTOCOLS : list string :=
  [ "aave-v2"; "aave-v3"; "compound-v2"; "compound-v3"; "euler"; "morpho-aave";
    "morpho-compound"; "spark"; "venus"; "cream"; "iron-bank"; "maker";
    "clearpool-lending"; "maple"; "notional-v3"; "silo-finance"; "solend";
    "tenderfi"; "benqi"; "geist"; "granary"; "radiant"; "seamless-protocol" ].

(** An element of [yieldData] ([exposure] and [ilRisk] are only printed
    and are left out). *)
Record yieldItem : Type := YieldItem {
  symbol : option string;
  protocol : string;
  apy : Qc;
  tvlUsd : Qc;
  chain : string;
}.

(** The test of the [filter]; a comparison with a missing or [null] APY
    is false. *)
Definition accepted (p : LendingData.pool) : bool :=
  match LendingData.p_apy p with
  | JNumber x => bool_decide (Q2Qc (1 # 100) < x)%Qc
  | _ => false
  end &&
  bool_decide (LendingData.p_chain p = Some "Ethereum") &&
  match LendingData.p_project p with
  | Some project => bool_decide (project ∈ LENDING_PROTOCOLS)
  | None => false
  end.

(** The body of the [map], on a pool that passed the filter. *)
Definition toYield (p : LendingData.pool) : yieldItem :=
  YieldItem (LendingData.p_symbol p)
    (default "" (LendingData.p_project p))
    (match LendingData.p_apy p with JNumber x => x | _ => 0%Qc end)
    (match LendingData.p_tvlUsd p with JNumber x => x | _ => 0%Qc end)
    (default "" (LendingData.p_chain p)).

Definition byApyDesc (a b : yieldItem) : comparison := (apy b ?= apy a)%Qc.

(** [yieldData] after the sort: the pools that the script prints. *)
Definition yieldData (pools : list LendingData.pool) : list yieldItem :=
  sort byApyDesc (toYield <$> filter (fun p => accepted p = true) pools).

End DefiLlamaScript.

(** ** scripts/fetch-stakingwatch-api.js *)
Module StakingScript.

(** An element of [stakingData]; of its fields the filter reads
    [protocol], [asset] and [chains]. *)
Record entry : Type := Entry {
  protocol : string;
  asset : string;
  chains : list string;
}.

Record filters : Type := Filters {
  f_asset : option string;
  f_protocol : option string;
  f_chain : option string;
}.

(** [if (x) { filteredData = filteredData.filter(test) }] *)
Definition filterWhen (x : option string) (test : string → entry → bool)
    (filteredData : list entry) : list entry :=
  match x with
  | Some v => if nonempty v then List.filter (test v) filteredData else filteredData
  | None => filteredData
  end.

Definition assetTest (asset_ : string) (item : entry) : bool :=
  bool_decide (toLowerCase (asset item) = toLowerCase asset_).

Definition protocolTest (protocol_ : string) (item : entry) : bool :=
  includes (toLowerCase protocol_) (toLowerCase (protocol item)).

Definition chainTest (chain : string) (item : entry) : bool :=
  existsb (fun c => includes (toLowerCase chain) (toLowerCase c)) (chains item).

Definition filterStakingData (data : list entry) (f : filters) : list entry :=
  filterWhen (f_chain f) chainTest
    (filterWhen (f_protocol f) protocolTest
       (filterWhen (f_asset f) assetTest data)).

(** The loop of [main] over the command-line arguments; [None] when
    [--help] is met, which ends the script. *)
Fixpoint parseArgs (args : list string) (f : filters) : option filters :=
  match args with
  | [] => Some f
  | a :: rest =>
      match rest with
      | v :: rest' =>
          if bool_decide (a = "--asset")
          then parseArgs rest' (Filters (Some v) (f_protocol f) (f_chain f))
          else if bool_decide (a = "--protocol")
          then parseArgs rest' (Filters (f_asset f) (Some v) (f_chain f))
          else if bool_decide (a = "--chain")
          then parseArgs rest' (Filters (f_asset f) (f_protocol f) (Some v))
          else if bool_decide (a = "--help") then None
          else parseArgs rest f
      | [] => if bool_decide (a = "--help") then None else Some f
      end
  end.

End StakingScript.

(** ** src/App.js and src/components/InvestmentOpportunities.js *)
Module App.

(** The total that [handleAssetsLoaded] computes for the console. *)
Definition totalValue (assets : list WalletAssets.asset) : jsnum :=
  foldl (fun totalValue a =>
           if truthy (WalletAssets.usdValue a) && negb (isNaN (WalletAssets.usdValue a))
           then add totalValue (WalletAssets.usdValue a) else totalValue)
        zero assets.

(** [handleAssetsLoaded]: the new [userAssets]. *)
Definition handleAssetsLoaded (assets : list WalletAssets.asset)
  : list WalletAssets.asset := assets.

(** [userAssets] after the calls of [onAssetsLoaded] of the world. *)
Definition userAssets (wd : WalletAssets.world) : list WalletAssets.asset :=
  foldl (fun _ l => handleAssetsLoaded l) [] (WalletAssets.onAssetsLoaded wd).

(** What the yield views read of the user's assets: [asset.symbol]. *)
Definition symbolsOf (assets : list WalletAssets.asset) : list (option string) :=
  (fun a => Some (WalletAssets.asset_symbol a)) <$> assets.

End App.

Module InvestmentOpportunities.

Inductive panel : Type :=
  | StakingPanel
  | LendingPanel
  | WalletSymbolsPanel
  | OptimizePanel.

Definition tabName (p : panel) : string :=
  match p with
  | StakingPanel => "staking"
  | LendingPanel => "lending"
  | WalletSymbolsPanel => "wallet-symbols"
  | OptimizePanel => "optimize"
  end.

(** The state: [activeTab], and the [investment-active-tab] entry of
    [sessionStorage]. *)
Record state : Type := State {
  activeTab : string;
  savedTab : option string;
}.

(** The first render, with the storage as it is found. *)
Definition initial (saved : option string) : state := State "staking" saved.

(** [handleTabClick(tab)]; [setItem_error] tells whether the storage
    refuses the write. *)
Definition handleTabClick (setItem_error : bool) (tab : string) (s : state) : state :=
  State tab (if setItem_error then savedTab s else Some tab).

(** The effect of the first render. *)
Definition restoreTab (s : state) : state :=
  match savedTab s with
  | Some tab => if nonempty tab then State tab (savedTab s) else s
  | None => s
  end.

(** The panels that are rendered. *)
Definition rendered (s : state) : list panel :=
  List.filter (fun p => bool_decide (activeTab s = tabName p))
    [StakingPanel; LendingPanel; WalletSymbolsPanel; OptimizePanel].

End InvestmentOpportunities.

(** ** src/components/PortfolioOptimizer.js *)
Module PortfolioOptimizer.
Import WalletAssets.

(** [a || b] on counts. *)
Definition or_count (a b : nat) : nat := if (a =? 0)%nat then b else a.

(** [portfolioSummary]; the two counts are missing in the summary of an
    empty list. *)
Record summary : Type := Summary {
  totalValue : jsnum;
  assetCount : nat;
  sm_assetsWithValue : option nat;
  sm_assetsWithoutValue : option nat;
  hasValueData : bool;
}.

Definition hasValue (a : asset) : bool :=
  truthy (usdValue a) && negb (isNaN (usdValue a)).

Definition calculateTotalFromAssets (userAssets : list asset) : jsnum :=
  foldl (fun total a => if hasValue a then add total (usdValue a) else total)
        zero userAssets.

(** The last loop of [portfolioSummary]: the total and the two counts.
    The assets that [WalletAssets] passes on have no [price], so an
    asset is valued by its [usdValue] only. *)
Definition fallbackStep (acc : jsnum * nat * nat) (a : asset) : jsnum * nat * nat :=
  let '(totalValue, assetsWithValue, assetsWithoutValue) := acc in
  if negb (nonempty (asset_balance a)) || bool_decide (asset_balance a = "Error")
  then acc
  else
    let balance := parseFloat (asset_balance a) in
    if isNaN balance || le balance zero then acc
    else
      let assetValue := if isNaN (usdValue a) then zero else usdValue a in
      if gt assetValue zero
      then (add totalValue assetValue, S assetsWithValue, assetsWithoutValue)
      else (totalValue, assetsWithValue, S assetsWithoutValue).

Definition portfolioSummary (ctx : netWorthReport) (userAssets : list asset) : summary :=
  let totalFromAssets := calculateTotalFromAssets userAssets in
  if gt (netWorth ctx) zero &&
     (strict_eq totalFromAssets zero ||
      lt (div (abs (sub (netWorth ctx) totalFromAssets)) (netWorth ctx))
         (Num (Q2Qc (1 # 10))))
  then
    Summary (netWorth ctx) (or_count (totalAssets ctx) (length userAssets))
      (Some (assetsWithValue ctx)) (Some (assetsWithoutValue ctx)) true
  else if gt totalFromAssets zero then
    Summary totalFromAssets (length userAssets)
      (Some (length (List.filter hasValue userAssets)))
      (Some (length (List.filter (fun a => negb (hasValue a)) userAssets)))
      true
  else if (length userAssets =? 0)%nat then Summary zero 0 None None false
  else
    let '(totalValue, assetsWithValue, assetsWithoutValue) :=
      foldl fallbackStep (zero, O, O) userAssets in
    Summary totalValue (length userAssets) (Some assetsWithValue)
      (Some assetsWithoutValue) (0 <? assetsWithValue)%nat.

(** What the component shows: nothing without assets or without value
    data, else the summary. *)
Definition shown (ctx : netWorthReport) (userAssets : list asset) : option summary :=
  if (length userAssets =? 0)%nat then None
  else
    let s := portfolioSummary ctx userAssets in
    if hasValueData s then Some s else None.

End PortfolioOptimizer.

(** * Vocabulary of the properties *)

(** The definitions below are not part of the program: they name the
    notions in which the properties of the last part are stated, and
    the concrete runs that are evaluated there. *)

(** A list of batches is a chunking of [l] by [n]: the batches are
    consecutive pieces of [l] in order, none is empty or longer than [n],
    and every batch that has a successor has exactly [n] elements. *)
Definition chunking {A} (n : nat) (l : list A) (bs : list (list A)) : Prop :=
  concat bs = l ∧
  ∀ k b, bs !! k = Some b →
    (1 ≤ length b ≤ n)%nat ∧ (is_Some (bs !! S k) → length b = n).

(** With a comparator that orders totally, the result is sorted:
    no element is followed by one that compares smaller. *)
Definition precedes {A} (cmp : A → A → comparison) (x y : A) : Prop :=
  cmp x y ≠ Gt.

Module LimiterSpec.
Import PriceProxy.

(** The requests served during the minute that starts at [t]. *)
Definition servedWithin (vs : list (Z * verdict)) (t : Z) : list Z :=
  filter (fun x => t ≤ x < t + RATE_LIMIT_WINDOW) (served vs).

(** The bound read over any minute of time: whatever minute one looks at,
    at most [MAX_REQUESTS_PER_WINDOW] requests were served in it. *)
Definition atMostPerMinute (s : limiter) (es : list event) : Prop :=
  ∀ t, Z.of_nat (length (servedWithin (run s es).2 t)) ≤ MAX_REQUESTS_PER_WINDOW.

(** A burst around a reset: 25 requests just before the timer fires and
    25 just after it. *)
Definition burst : list event :=
  replicate 25 (Request 59999) ++ [TimerFires 60000] ++ replicate 25 (Request 60001).

Definition count_ok (s : limiter) : Prop :=
  0 ≤ requestCount s ≤ MAX_REQUESTS_PER_WINDOW.

Definition stale_entry : gmap string PriceProxy.cacheEntry :=
  {[ "ETH" := PriceProxy.CacheEntry 0
                (PriceProxy.PriceData "ETH" "Ethereum" (Some (Qc_of_Z 2000))
                   "2024-01-01T00:00:00.000Z" 0%Qc) ]}.

End LimiterSpec.

Module StakingSpec.
Import StakingData.

(** The effect that loads the data when the wallet address changes. *)
Definition stakingEffect (now : Z) (api : outcome endpoints) (setItem_error : bool)
    (walletAddress : option string) (st : state) (cache : option (list item * Z))
  : state * option (list item * Z) :=
  if match walletAddress with Some a => nonempty a | None => false end
  then (fetchStakingData now api setItem_error walletAddress st cache).1
  else (State [] (isLoading st) (st_error st), cache).









End StakingSpec.

Module AssetsSpec.
Import WalletAssets.

(** The lists that one run of [fetchAssets] passes to [onAssetsLoaded]. *)
Definition deliveredBy (w : env) (p : props) (st : state) (wd : world)
  : list (list asset) :=
  drop (length (onAssetsLoaded wd)) (onAssetsLoaded (fetchAssets w p st wd).2).

(** A symbol is blank when it is empty or white space only. *)
Definition blank (s : string) : Prop := trim s = "".

(** A token passes the spam filter: its symbol is not blank, and neither
    its symbol nor its name has a URL pattern. *)
Definition clean (sym nm : string) : Prop :=
  ¬ blank sym ∧
  URL_PATTERN_REGEX_test sym = false ∧
  URL_PATTERN_REGEX_test nm = false.

(** The ETH balance of the state: the text [Error], or a number that is
    not negative. *)
Definition balance_ok (b : string) : Prop :=
  b = "Error" ∨ nonneg (parseFloat b) = true.

(** The states and worlds that runs of the effect reach. *)
Inductive reachable : state → world → Prop :=
  | reach_init : reachable initialState initialWorld
  | reach_effect w p st wd :
      reachable st wd →
      reachable (assetFetchEffect w p st wd).1.1 (assetFetchEffect w p st wd).1.2.

(** [parseFloat(balance) > 0] *)
Definition positive (b : string) : Prop := gt (parseFloat b) zero = true.

(** Every asset that is delivered or displayed has a balance that is a
    number and is not negative. *)
Definition nonNegativeBalances : Prop :=
  ∀ w p st wd, reachable st wd →
    (∀ l a, l ∈ deliveredBy w p st wd → a ∈ l →
       nonneg (parseFloat (asset_balance a)) = true) ∧
    (∀ row, row ∈ renderedAssets p st → nonneg (parseFloat row.2) = true).

(** Runs of the effect one after the other: the final state and world and
    the number of times [fetchAssets] was called. *)
Fixpoint runEffects (steps : list (env * props)) (st : state) (wd : world)
  : state * world * nat :=
  match steps with
  | [] => (st, wd, O)
  | (w, p) :: steps' =>
      let '(st1, wd1, called) := assetFetchEffect w p st wd in
      let '(st2, wd2, n) := runEffects steps' st1 wd1 in
      (st2, wd2, if called then S n else n)
  end.

(** The flag follows every rate-limited request: of the two requests that
    a run for a connected wallet makes first, the ETH balance request and
    the token-transaction request, whichever fails with a rate-limit
    error sets [isRateLimited]. *)
Definition flagFollowsRateLimit : Prop :=
  ∀ w addr st wd e,
    truthy_str (etherscanApiKey w) = true → nonempty addr = true →
    eth_balance (storage wd) !! addr = None →
    getBalance w = Rejected e ∨ tokentx w = Rejected e →
    isRateLimitError e = true →
    isRateLimited (fetchAssets w (Props (Some addr) true) st wd).1 = true.



Definition starts_with_digit (s : string) : Prop :=
  match s with
  | String c _ => is_digit c = true
  | EmptyString => False
  end.

Definition scan_ok (s : txScan) : Prop :=
  Forall (fun kt : string * token => clean (symbol kt.2) (name kt.2)) (uniqueTokens s) ∧
  NoDup (Obj.keys (uniqueTokens s)).

(** Every ETH balance kept in [sessionStorage] is a number that is not
    negative. *)
Definition eth_cache_ok (ss : sessionStorage) : Prop :=
  ∀ k b ts, eth_balance ss !! k = Some (b, ts) → nonneg (parseFloat b) = true.

Definition inv (st : state) (wd : world) : Prop :=
  balance_ok (ethBalance st) ∧
  Forall (fun a => positive (asset_balance a)) (assets st) ∧
  eth_cache_ok (storage wd).

End AssetsSpec.

Module Demo.
Import WalletAssets.

Definition connected : props := Props (Some "0xabc") true.

(** A wallet whose ETH balance request fails and that has no token
    transfers. *)
Definition ethFails : env :=
  Env 1000 (Some "KEY")
    (Rejected (newError "missing response"))
    (Resolved (EtherscanData "1" (Some "OK") []))
    (fun _ => Rejected (newError "Request timeout"))
    (fun _ => Rejected (newError "Network Error"))
    None.

(** The same wallet when the node answers the balance request with
    HTTP 429. *)
Definition ethRateLimited : env :=
  Env 1000 (Some "KEY")
    (Rejected (Error "429 Too Many Requests" (Some 429) None))
    (Resolved (EtherscanData "1" (Some "OK") []))
    (fun _ => Rejected (newError "Request timeout"))
    (fun _ => Rejected (newError "Network Error"))
    None.

(** The transaction index answers with HTTP 429. *)
Definition etherscanRateLimited : env :=
  Env 1000 (Some "KEY")
    (Resolved 1500000000000000000%N)
    (Rejected (Error "Request failed with status code 429" (Some 429) None))
    (fun _ => Rejected (newError "Request timeout"))
    (fun _ => Rejected (newError "Network Error"))
    None.

Definition afterFailure : state * world :=
  (assetFetchEffect ethFails connected initialState initialWorld).1.

(** A wallet that received a stablecoin and a token advertising a site;
    the node and the price service answer for the stablecoin and for ETH. *)
Definition usdc : tx := Tx (Some "0xA0b8") (Some "USDC") (Some "USD Coin") (Some "6").
Definition spam : tx :=
  Tx (Some "0xBAD") (Some "visit site.com") (Some "Claim at site.com") (Some "18").

Definition quoteOf (usd : Z) : outcome priceResponse :=
  Resolved (PriceResponse 200
              (Some (PriceEntry (Num (Qc_of_Z usd)) (Num 0%Qc) "2024-01-01T00:00:00.000Z"))).

Definition funded : env :=
  Env 1000 (Some "KEY")
    (Resolved 1500000000000000000%N)
    (Resolved (EtherscanData "1" (Some "OK") [Some usdc; Some spam]))
    (fun a => if String.eqb a "0xA0b8" then Resolved 2500000%N
              else Rejected (newError "call revert exception"))
    (fun s => if String.eqb s "ETH" then quoteOf 2000
              else if String.eqb s "USDC" then quoteOf 1
              else Rejected (newError "Request failed with status code 404"))
    None.

(** The same wallet when the balance request of the stablecoin fails, and
    when the price request of the stablecoin fails. *)
Definition fundedTokenFails : env :=
  Env 1000 (Some "KEY")
    (Resolved 1500000000000000000%N)
    (Resolved (EtherscanData "1" (Some "OK") [Some usdc; Some spam]))
    (fun _ => Rejected (newError "call revert exception"))
    (priceOf funded)
    None.

Definition fundedPriceFails : env :=
  Env 1000 (Some "KEY")
    (Resolved 1500000000000000000%N)
    (Resolved (EtherscanData "1" (Some "OK") [Some usdc; Some spam]))
    (balanceOf funded)
    (fun s => if String.eqb s "ETH" then quoteOf 2000
              else Rejected (newError "Request failed with status code 404"))
    None.

Definition fundedEthFails : env :=
  Env 1000 (Some "KEY")
    (Rejected (newError "missing response"))
    (tokentx funded) (balanceOf funded) (priceOf funded) None.



Definition usdcToken : token := Token "0xA0b8" "USDC" "USD Coin" 6.
Definition daiToken : token := Token "0x6B17" "DAI" "Dai Stablecoin" 18.
Definition twoTokens : Obj.t token := [("0xa0b8", usdcToken); ("0x6b17", daiToken)].

(** The state and the world after the first run for the funded wallet. *)
Definition afterFunded : state * world :=
  (assetFetchEffect funded connected initialState initialWorld).1.

End Demo.

Module DemoStaking.
Import StakingData.

(** Three pools: one whose symbol comes from the token list, one of an
    asset the user does not hold, one with a symbol in lower case. *)
Definition documents : endpoints :=
  Endpoints {[ "lido" := "Lido" ]} {[ "ethereum" := "ETH" ]}
    [Pool (Some (StakingToken (Some "ethereum") None))
          (Some (ProtocolRef (Some "lido") None)) (JNumber (Qc_of_Z 4));
     Pool (Some (StakingToken None (Some "SOL")))
          (Some (ProtocolRef None (Some "Marinade"))) (JNumber (Qc_of_Z 7));
     Pool (Some (StakingToken None (Some "eth"))) None (JNumber (Qc_of_Z 5))].

End DemoStaking.

Module LoopSpec.

(** The place of a token in the priority order: the index of its symbol
    among the priority tokens, and their number for every other symbol. *)
Definition priorityRank (at_ : string * WalletAssets.token) : nat :=
  default (length WalletAssets.priorityTokens)
    (indexOf (WalletAssets.symbol at_.2) WalletAssets.priorityTokens).

(** [l'] is [l] in the order of the ranks, elements of equal rank in the
    order they have in [l]. *)
Definition sortedByRank {A} (rank : A → nat) (l l' : list A) : Prop :=
  StronglySorted (fun a b => (rank a ≤ rank b)%nat) l' ∧
  ∀ r, filter (fun a => rank a = r) l' = filter (fun a => rank a = r) l.

(** What the answer to the request of a batch makes of the status of a
    symbol of the batch. *)
Definition statusAfter (answer : outcome WalletSymbols.batchResponse) (sym : string)
  : WalletSymbols.fetchState :=
  match answer with
  | Resolved response =>
      if WalletSymbols.status response =? 200 then
        if Plain.has sym (WalletSymbols.res_data response)
        then WalletSymbols.Success else WalletSymbols.Failed
      else WalletSymbols.Loading
  | Rejected _ => WalletSymbols.Failed
  end.

End LoopSpec.

Module IsolationSpec.
Import WalletAssets.

(** Two worlds that differ at most in the answer of [balanceOf] for the
    token contract [a0]. *)
Definition sameButBalanceOf (a0 : string) (w1 w2 : env) : Prop :=
  now w1 = now w2 ∧ setItem_error w1 = setItem_error w2 ∧
  ∀ a, a ≠ a0 → balanceOf w1 a = balanceOf w2 a.

(** Two worlds that differ at most in the answer of the price request for
    the symbol [s0]. *)
Definition sameButPriceOf (s0 : string) (w1 w2 : env) : Prop :=
  now w1 = now w2 ∧ setItem_error w1 = setItem_error w2 ∧
  ∀ sym, sym ≠ s0 → priceOf w1 sym = priceOf w2 sym.

(** Two worlds that differ at most in the answer of [getBalance]. *)
Definition sameButGetBalance (w1 w2 : env) : Prop :=
  now w1 = now w2 ∧ setItem_error w1 = setItem_error w2 ∧
  etherscanApiKey w1 = etherscanApiKey w2 ∧ tokentx w1 = tokentx w2 ∧
  (∀ a, balanceOf w1 a = balanceOf w2 a) ∧
  (∀ sym, priceOf w1 sym = priceOf w2 sym).

(** The balances of the tokens of other contracts than [a0]. *)
Definition others (a0 : string) (l : list tokenData) : list tokenData :=
  filter (fun t => address (td_token t) ≠ a0) l.

Definition cacheKeyOf (addr k : string) : string := addr +:+ "-" +:+ k.

End IsolationSpec.

Module CacheSpec.

(** An entry, stored with its time, is fresh at [now] for a time to live
    when its age is below it. *)
Definition fresh {A} (ttl now : Z) (entry : option (A * Z)) (v : A) : Prop :=
  ∃ timestamp, entry = Some (v, timestamp) ∧ now - timestamp < ttl.

(** No fresh entry: there is none, or it is too old. *)
Definition stale {A} (ttl now : Z) (entry : option (A * Z)) : Prop :=
  ∀ v timestamp, entry = Some (v, timestamp) → ttl ≤ now - timestamp.

Definition five_minutes : Z := 300000.


(** The tokens of a cached batch that belong to the current tokens. *)
Definition validCached (ut : Obj.t WalletAssets.token)
    (balances : list WalletAssets.tokenData) : list WalletAssets.tokenData :=
  filter (fun t : WalletAssets.tokenData =>
            nonempty (WalletAssets.address (WalletAssets.td_token t)) = true ∧
            is_Some (Obj.get (toLowerCase (WalletAssets.address (WalletAssets.td_token t))) ut))
         balances.

End CacheSpec.

Module DemoCache.
Import WalletAssets.





(** An ETH balance stored half a second ago. *)
Definition storedEth : sessionStorage :=
  SessionStorage {[ "0xabc" := ("1.5", 500) ]} ∅ None.

End DemoCache.

Module LendingSpec.
Import LendingData.

(** The three criteria of a lending opportunity. *)
Definition eligible (it : item) : Prop :=
  (Q2Qc (1 # 100) < apy it)%Qc ∧
  toLowerCase (chain it) = "ethereum" ∧
  protocol it ∈ LENDING_PROTOCOLS.

#[global] Instance eligible_dec (it : item) : Decision (eligible it).
Proof. unfold eligible. apply _. Defined.

(** A pool of the answer as the component reads it: the symbol
    ([Unknown] when it is missing), the project, or else the protocol,
    the APY, or else the APR, or else 0, the value locked, or else 0, and
    the chain. *)
Definition read (p : pool) : item :=
  Item (or_else (p_symbol p) "Unknown")
    (or_else (p_project p) (or_else (p_protocol p) ""))
    (match p_apy p, p_apr p with
     | JNumber x, _ => x
     | _, JNumber x => x
     | _, _ => 0%Qc
     end)
    (match p_tvlUsd p with JNumber x => x | _ => 0%Qc end)
    (or_else (p_chain p) "").

Definition apyDescending (a b : item) : Prop := (apy b ≤ apy a)%Qc.

(** No row of the same asset has a higher APY. *)
Definition highestOf (rows : list item) (it : item) : Prop :=
  ∀ it', it' ∈ rows → symbol it' = symbol it → (apy it' ≤ apy it)%Qc.

(** What the map of the highest values holds after the rows [rows]. *)
Definition highest_inv (rows : list item) (m : gmap string Qc) : Prop :=
  ∀ s, match m !! s with
       | Some v => (∃ it, it ∈ rows ∧ symbol it = s ∧ apy it = v) ∧
                   (∀ it, it ∈ rows → symbol it = s → (apy it ≤ v)%Qc)
       | None => ∀ it, it ∈ rows → symbol it ≠ s
       end.

End LendingSpec.

Module LendingSpec2.
Import LendingData.

(** The request fails: it is rejected, or it is answered with the
    status 200 and a document that holds no array of pools. *)
Definition fetchFails (api : outcome response) : Prop :=
  match api with
  | Rejected _ => True
  | Resolved r => status r = 200 ∧ res_data r = Some NoArray
  end.

End LendingSpec2.

Module ScriptSpec.

(** An opportunity printed by the script and an opportunity of the
    component are the same pool. *)
Definition sameOpportunity (y : DefiLlamaScript.yieldItem) (it : LendingData.item) : Prop :=
  LendingData.protocol it = DefiLlamaScript.protocol y ∧
  LendingData.apy it = DefiLlamaScript.apy y ∧
  LendingData.tvlUsd it = DefiLlamaScript.tvlUsd y ∧
  LendingData.chain it = DefiLlamaScript.chain y ∧
  LendingData.symbol it = LendingData.or_else (DefiLlamaScript.symbol y) "Unknown".

Definition yieldDescending (a b : DefiLlamaScript.yieldItem) : Prop :=
  (DefiLlamaScript.apy b ≤ DefiLlamaScript.apy a)%Qc.

End ScriptSpec.

Module StakingScriptSpec.
Import StakingScript.

(** A filter value counts when it is given and not empty. *)
Definition given (x : option string) (v : string) : Prop :=
  x = Some v ∧ v ≠ "".

(** What the three filters ask of an entry. *)
Definition matches (f : filters) (item : entry) : Prop :=
  (∀ a, given (f_asset f) a → toLowerCase (asset item) = toLowerCase a) ∧
  (∀ p, given (f_protocol f) p →
        includes (toLowerCase p) (toLowerCase (protocol item)) = true) ∧
  (∀ c, given (f_chain f) c →
        ∃ name, name ∈ chains item ∧
                includes (toLowerCase c) (toLowerCase name) = true).

(** Two filter values that differ in the case of letters only. *)
Definition sameUpToCase (x y : option string) : Prop :=
  match x, y with
  | Some a, Some b => toLowerCase a = toLowerCase b
  | None, None => True
  | _, _ => False
  end.

End StakingScriptSpec.

Module ProxySpec.
Import PriceProxy.

(** The number of events of a run that reset the counter. *)
Fixpoint resetCount (s : limiter) (es : list event) : nat :=
  match es with
  | [] => O
  | e :: es' => ((if resets s e then 1 else 0) + resetCount (step s e).1 es')%nat
  end.

(** Requests [GET /api/price/:symbol] to the server one after the
    other, each with its world and its symbol: the responses, each with
    the flag of the upstream request, and the server after them. *)
Fixpoint serveAll (s : server) (reqs : list (env * string))
  : list (response * bool) * server :=
  match reqs with
  | [] => ([], s)
  | (w, sym) :: reqs' =>
      let '(r, s1, called) := servePrice w s sym in
      let '(rs, s2) := serveAll s1 reqs' in
      ((r, called) :: rs, s2)
  end.

(** Every entry of the cache [c'] is an entry of [c] or was stored at
    the time [t]. *)
Definition stampedAt (t : Z) (c c' : gmap string cacheEntry) : Prop :=
  ∀ k e, c' !! k = Some e → c !! k = Some e ∨ timestamp e = t.

(** What the loop over the symbols to fetch keeps true of the result and
    the cache, from [res0] and [c0]. *)
Definition stored (w : env) (res0 : gmap string priceData) (c0 : gmap string cacheEntry)
    (l : list string) (acc : gmap string priceData * gmap string cacheEntry) : Prop :=
  (∀ s x, acc.1 !! s = Some x →
     (res0 !! s = Some x ∧ acc.2 !! s = c0 !! s) ∨
     (s ∈ l ∧ acc.2 !! s = Some (CacheEntry (now w) x))) ∧
  stampedAt (now w) c0 acc.2.

End ProxySpec.

Module ScanSpec.
Import WalletAssets.

(** The contract addresses of a transaction list, each in lower case. *)
Definition addressOf (otx : option tx) : option string :=
  match otx with
  | Some t =>
      match contractAddress t with
      | Some ca => if nonempty ca then Some (toLowerCase ca) else None
      | None => None
      end
  | None => None
  end.

(** What the loop of [processTokenTransactions] keeps true. *)
Definition counted (s : txScan) : Prop :=
  NoDup (Obj.keys (uniqueTokens s)) ∧
  (∀ k tk, (k, tk) ∈ uniqueTokens s →
     k = toLowerCase (address tk) ∧ k ∈ processedAddresses s ∧ decimals tk ≠ 0) ∧
  (length (uniqueTokens s) + tokensWithoutSymbols s + tokensWithUrlPatterns s
   = size (processedAddresses s))%nat.

End ScanSpec.

Module SymbolsSpec.


End SymbolsSpec.

(** Concrete documents and runs, for the evaluation of the properties. *)
Module Samples.

Definition lendingPools : list LendingData.pool :=
  [ LendingData.Pool (JNumber (Q2Qc (7 # 2))) JUndefined (Some "Ethereum")
      (Some "aave-v3") None (Some "USDC") (JNumber (Qc_of_Z 1000000));
    LendingData.Pool JUndefined (JNumber (Qc_of_Z 5)) (Some "ethereum")
      None (Some "compound-v3") (Some "USDC") JNull;
    LendingData.Pool (JNumber (Qc_of_Z 9)) JUndefined (Some "Arbitrum")
      (Some "aave-v3") None (Some "DAI") (JNumber (Qc_of_Z 500));
    LendingData.Pool (JNumber (Qc_of_Z 2)) JUndefined (Some "Ethereum")
      (Some "spark") None (Some "DAI") JUndefined ].

Definition lendingApi : outcome LendingData.response :=
  Resolved (LendingData.Response 200 (Some (LendingData.DataArray lendingPools))).

(** The state after the lending data were fetched at time 1000. *)
Definition lendingLoaded : LendingData.state :=
  (LendingData.fetchLendingData 1000 lendingApi false (LendingData.State [] false None)
     None).1.1.

Definition compoundUsdc : LendingData.item :=
  LendingData.Item "USDC" "compound-v3" (Qc_of_Z 5) 0%Qc "ethereum".

Definition stakingEntries : list StakingScript.entry :=
  [ StakingScript.Entry "Lido" "ETH" ["Ethereum"];
    StakingScript.Entry "Marinade" "SOL" ["Solana"];
    StakingScript.Entry "Rocket Pool" "eth" ["Ethereum"; "Arbitrum"] ].

Definition upstreamEth : PriceProxy.cmcResponse :=
  PriceProxy.CmcResponse 200
    (Some {[ "ETH" := PriceProxy.Coin (Some "Ethereum")
                        (Some (PriceProxy.UsdQuote (JNumber (Qc_of_Z 2000))
                                 (Some "2024-01-01T00:00:00.000Z") (JNumber 0%Qc))) ]}).

Definition proxyFetches : PriceProxy.env :=
  PriceProxy.Env 1000 "2024-01-01T00:00:01.000Z" (Resolved upstreamEth).

Definition proxyLater : PriceProxy.env :=
  PriceProxy.Env 200000 "2024-01-01T00:03:20.000Z"
    (Rejected (newError "Network Error")).

Definition proxySoon : PriceProxy.env :=
  PriceProxy.Env 2000 "2024-01-01T00:00:02.000Z"
    (Rejected (newError "Network Error")).

(** The server after it fetched the price of ETH as the 24th request of
    the window. *)
Definition serverFetched : PriceProxy.server :=
  (PriceProxy.servePrice proxyFetches (PriceProxy.Server (PriceProxy.Limiter 23 0) ∅)
     "ETH").1.2.

Definition ethPrice : PriceProxy.priceData :=
  PriceProxy.PriceData "ETH" "Ethereum" (Some (Qc_of_Z 2000))
    "2024-01-01T00:00:00.000Z" 0%Qc.



(** The staking view after the documents of [DemoStaking] were loaded. *)
Definition stakingLoaded : StakingData.state :=
  (StakingData.fetchStakingData 0 (Resolved DemoStaking.documents) false (Some "0xabc")
     StakingData.initialState None).1.1.

(** The list that the first run for the funded wallet passes on. *)
Definition fundedAssets : list WalletAssets.asset :=
  default [] (head (AssetsSpec.deliveredBy Demo.funded Demo.connected
                      WalletAssets.initialState WalletAssets.initialWorld)).

End Samples.

Module PriceSpec.
Import WalletAssets.

(** The price entry that the request for a symbol gives, if any. *)
Definition fetched (w : env) (sym : string) : option priceEntry :=
  snd <$> (fetchPrice w sym).1.

End PriceSpec.

Module NumberSpec.

(** A string of decimal digits, and the number it denotes after the
    digits already read as [acc]. *)
Fixpoint all_digits (s : string) : bool :=
  match s with
  | EmptyString => true
  | String c s' => is_digit c && all_digits s'
  end.

Fixpoint value_from (acc : N) (s : string) : N :=
  match s with
  | EmptyString => acc
  | String c s' => value_from (10 * acc + digit_val c) s'
  end.

Definition valueOf (s : string) : N := value_from 0 s.

(** The rest of a string at which reading digits stops. *)
Definition stops (rest : string) : Prop :=
  match rest with
  | EmptyString => True
  | String c _ => is_digit c = false
  end.

(** [value / 10^decimals], exactly. *)
Definition quotient (value : N) (decimals : Z) : Qc :=
  Q2Qc (Z.of_N value # Z.to_pos (10 ^ decimals)).

(** The text is a decimal numeral, digits on both sides of a point, and
    [q] is the number it denotes. *)
Definition denotes (s : string) (q : Qc) : Prop :=
  ∃ ip f,
    s = ip +:+ "." +:+ f ∧
    all_digits ip = true ∧ (1 ≤ String.length ip)%nat ∧
    all_digits f = true ∧ (1 ≤ String.length f)%nat ∧
    q = Q2Qc (Z.of_N (valueOf ip * 10 ^ N.of_nat (String.length f) + valueOf f)
              # Z.to_pos (10 ^ Z.of_nat (String.length f))).

End NumberSpec.

Module BatchSpec.
Import WalletAssets.

(** A token balance belongs to the current tokens: its address is not
    empty and, in lower case, is a key of [uniqueTokens]. *)
Definition known (ut : Obj.t token) (t : tokenData) : Prop :=
  nonempty (address (td_token t)) = true ∧
  is_Some (Obj.get (toLowerCase (address (td_token t))) ut).

(** The tokens are kept under their addresses. *)
Definition keyed (ut : Obj.t token) : Prop :=
  ∀ k tk, (k, tk) ∈ ut →
    nonempty (address tk) = true ∧ is_Some (Obj.get (toLowerCase (address tk)) ut).

(** The cache holds, for the wallet and the current tokens, balances of
    current tokens only. *)
Definition cacheOf (ut : Obj.t token) (addr : string) (c : gmap string tokenData) : Prop :=
  ∀ k tk d, (k, tk) ∈ ut → c !! (addr +:+ "-" +:+ k) = Some d → known ut d.

End BatchSpec.

(** * Properties *)

(** ** Cached values *)

Lemma freshCache_Some {A} (ttl now : Z) (entry : option (A * Z)) (v : A) :
  freshCache ttl now entry = Some v ↔
  ∃ timestamp, entry = Some (v, timestamp) ∧ now - timestamp < ttl.
Proof.
  unfold freshCache. destruct entry as [[v' ts]|].
  - destruct (Z.ltb_spec (now - ts) ttl) as [Hlt|Hge]; split.
    + intros [= <-]. by exists ts.
    + by intros (ts' & [= <- <-] & _).
    + done.
    + intros (ts' & [= <- <-] & ?). lia.
  - split; [done|]. by intros (? & ? & _).
Qed.

Lemma freshCache_None {A} (ttl now : Z) (entry : option (A * Z)) :
  freshCache ttl now entry = None ↔
  ∀ v timestamp, entry = Some (v, timestamp) → ttl ≤ now - timestamp.
Proof.
  unfold freshCache. destruct entry as [[v' ts]|].
  - destruct (Z.ltb_spec (now - ts) ttl) as [Hlt|Hge]; split.
    + done.
    + intros H. specialize (H v' ts eq_refl). lia.
    + by intros _ v ts' [= <- <-].
    + done.
  - split; [|done]. by intros _ ??.
Qed.

(** ** Plain objects *)

Section plain.
Context {A : Type}.

Lemma Plain_set_ne (k i : string) (v : A) (o : gmap string A) :
  k ≠ i → Plain.set k v o !! i = o !! i.
Proof.
  intros Hne. unfold Plain.set. destruct (_ && _); [done|].
  by rewrite lookup_insert_ne.
Qed.

Lemma Plain_set_eq (k : string) (v : A) (o : gmap string A) :
  Plain.set k v o !! k =
    if bool_decide (k = "__proto__") && bool_decide (o !! k = None) then None else Some v.
Proof.
  unfold Plain.set. destruct (bool_decide (k = "__proto__")); cbn [andb].
  - case_bool_decide; [done|]. by rewrite lookup_insert_eq.
  - by rewrite lookup_insert_eq.
Qed.

Lemma Plain_set_plain (k : string) (v : A) (o : gmap string A) :
  k ≠ "__proto__" → Plain.set k v o = <[k := v]> o.
Proof. intros Hk. unfold Plain.set. by rewrite (bool_decide_eq_false_2 _ Hk). Qed.

Lemma Plain_set_dom (k : string) (v : A) (o : gmap string A) :
  dom o ⊆ dom (Plain.set k v o).
Proof.
  unfold Plain.set. destruct (_ && _); [done|].
  rewrite dom_insert. set_solver.
Qed.

Lemma Plain_has_own (k : string) (o : gmap string A) :
  is_Some (o !! k) → Plain.has k o = true.
Proof. intros [a Ha]. unfold Plain.has, Plain.get. by rewrite Ha. Qed.

Lemma Plain_has_spec (k : string) (o : gmap string A) :
  Plain.has k o = true ↔ is_Some (o !! k) ∨ k ∈ Plain.OBJECT_PROTOTYPE.
Proof.
  unfold Plain.has, Plain.get. destruct (o !! k) as [a|].
  - split; [by left; eexists | done].
  - case_bool_decide; split; try done.
    + by right.
    + intros [[? ?]|?]; done.
Qed.
End plain.

(** ** Batching *)


Section batches.
Context {A : Type}.
Implicit Types (l : list A) (n i k fuel : nat).

Lemma slice_take_drop n i l : slice i (i + n) l = take n (drop i l).
Proof. unfold slice. f_equal. lia. Qed.

Lemma batches_from_lookup n fuel i l k :
  (1 ≤ n)%nat → (length l ≤ fuel + i)%nat →
  batches_from fuel n i l !! k =
    if decide (i + k * n < length l)%nat
    then Some (take n (drop (i + k * n) l)) else None.
Proof.
  intros Hn. revert i k. induction fuel as [|fuel IH]; intros i k Hfuel; simpl.
  - rewrite lookup_nil. case_decide; [lia | done].
  - destruct (Nat.ltb_spec i (length l)) as [Hlt | Hge].
    + destruct k as [|k]; simpl.
      * rewrite Nat.add_0_r, slice_take_drop. case_decide; [done | lia].
      * rewrite IH by lia.
        replace (i + n + k * n)%nat with (i + (n + k * n))%nat by lia. done.
    + rewrite lookup_nil. case_decide; [lia | done].
Qed.

Lemma batches_from_concat n fuel i l :
  (1 ≤ n)%nat → (length l ≤ fuel + i)%nat →
  concat (batches_from fuel n i l) = drop i l.
Proof.
  intros Hn. revert i. induction fuel as [|fuel IH]; intros i Hfuel; simpl.
  - rewrite drop_ge by lia. done.
  - destruct (Nat.ltb_spec i (length l)) as [Hlt | Hge]; simpl.
    + rewrite IH by lia. rewrite slice_take_drop.
      rewrite <- (take_drop n (drop i l)) at 2. by rewrite drop_drop.
    + rewrite drop_ge by lia. done.
Qed.

Lemma batches_lookup n l k :
  (1 ≤ n)%nat →
  batches n l !! k =
    if decide (k * n < length l)%nat then Some (take n (drop (k * n) l)) else None.
Proof. intros Hn. unfold batches. rewrite batches_from_lookup by lia. done. Qed.

Lemma batches_chunking n l : (1 ≤ n)%nat → chunking n l (batches n l).
Proof.
  intros Hn. split.
  - unfold batches. rewrite batches_from_concat by lia. done.
  - intros k b. rewrite !batches_lookup by done.
    case_decide as Hk; [|done]. intros [= <-].
    rewrite length_take, length_drop. split; [lia|].
    case_decide as Hk'; [|by intros [? ?]]. simpl in Hk'. lia.
Qed.

(** Every element of the list is in exactly one batch, at one place. *)
Lemma chunking_length n l bs :
  chunking n l bs → sum_list (length <$> bs) = length l.
Proof.
  intros [<- _]. induction bs as [|b bs IH]; simpl; [done|].
  rewrite length_app. f_equal. exact IH.
Qed.
End batches.

(** ** Sorting *)

Section sort.
Context {A : Type} (cmp : A → A → comparison).

Lemma sort_insert_perm x l : sort_insert cmp x l ≡ₚ x :: l.
Proof.
  induction l as [|y l IH]; simpl; [done|].
  destruct (cmp x y); try done.
  rewrite IH. apply Permutation_swap.
Qed.

Lemma sort_perm l : sort cmp l ≡ₚ l.
Proof.
  induction l as [|x l IH]; simpl; [done|].
  rewrite sort_insert_perm. by rewrite IH.
Qed.

Lemma sort_length l : length (sort cmp l) = length l.
Proof. by rewrite sort_perm. Qed.

Lemma elem_of_sort x l : x ∈ sort cmp l ↔ x ∈ l.
Proof. by rewrite sort_perm. Qed.


Hypothesis cmp_total : ∀ x y, cmp x y = Gt → cmp y x ≠ Gt.
Hypothesis cmp_trans : ∀ x y z, precedes cmp x y → precedes cmp y z → precedes cmp x z.

Lemma sort_insert_sorted x l :
  Sorted (precedes cmp) l → Sorted (precedes cmp) (sort_insert cmp x l).
Proof.
  induction l as [|y l IH]; simpl; intros Hs.
  - repeat constructor.
  - destruct (cmp x y) eqn:Hxy.
    + constructor; [done|]. constructor. unfold precedes. congruence.
    + constructor; [done|]. constructor. unfold precedes. congruence.
    + apply Sorted_inv in Hs as [Hs Hhd]. constructor; [by apply IH|].
      destruct l as [|z l]; simpl.
      * constructor. by apply cmp_total.
      * destruct (cmp x z); constructor;
          solve [ by apply cmp_total | by inversion Hhd ].
Qed.

Lemma sort_sorted l : Sorted (precedes cmp) (sort cmp l).
Proof.
  induction l as [|x l IH]; simpl; [constructor|].
  by apply sort_insert_sorted.
Qed.

Lemma sort_strongly_sorted l : StronglySorted (precedes cmp) (sort cmp l).
Proof.
  apply Sorted_StronglySorted; [|apply sort_sorted].
  intros x y z. apply cmp_trans.
Qed.
End sort.

Section sort_rank.
Context {A : Type} (cmp : A → A → comparison) (rank : A → nat).
Hypothesis cmp_rank : ∀ x y, cmp x y = Gt ↔ (rank y < rank x)%nat.

Lemma sort_insert_rank_sorted x l :
  StronglySorted (fun a b => (rank a ≤ rank b)%nat) l →
  StronglySorted (fun a b => (rank a ≤ rank b)%nat) (sort_insert cmp x l).
Proof.
  induction 1 as [|y l Hs IH Hall]; simpl.
  - repeat constructor.
  - destruct (cmp x y) eqn:Hxy.
    + assert (Hle : (rank x ≤ rank y)%nat).
      { destruct (decide (rank y < rank x)%nat) as [Hlt|]; [|lia].
        apply cmp_rank in Hlt. congruence. }
      constructor; [by constructor|]. constructor; [done|].
      eapply Forall_impl; [exact Hall|]. intros z Hz. simpl in Hz. lia.
    + assert (Hle : (rank x ≤ rank y)%nat).
      { destruct (decide (rank y < rank x)%nat) as [Hlt|]; [|lia].
        apply cmp_rank in Hlt. congruence. }
      constructor; [by constructor|]. constructor; [done|].
      eapply Forall_impl; [exact Hall|]. intros z Hz. simpl in Hz. lia.
    + apply cmp_rank in Hxy. constructor; [done|].
      apply Forall_forall. intros z Hz.
      rewrite sort_insert_perm in Hz.
      apply elem_of_cons in Hz as [->|Hz]; [lia|].
      rewrite Forall_forall in Hall. by apply Hall.
Qed.

Lemma sort_rank_sorted l :
  StronglySorted (fun a b => (rank a ≤ rank b)%nat) (sort cmp l).
Proof.
  induction l as [|x l IH]; simpl; [constructor|].
  by apply sort_insert_rank_sorted.
Qed.

Lemma sort_insert_stable r x l :
  filter (fun a => rank a = r) (sort_insert cmp x l) =
  filter (fun a => rank a = r) (x :: l).
Proof.
  induction l as [|y l IH]; simpl; [done|].
  destruct (cmp x y) eqn:Hxy; [done..|].
  apply cmp_rank in Hxy. rewrite filter_cons, IH, !filter_cons.
  destruct (decide (rank y = r)) as [Hy|Hy];
    destruct (decide (rank x = r)) as [Hx|Hx]; try done.
  lia.
Qed.

Lemma sort_stable r l :
  filter (fun a => rank a = r) (sort cmp l) = filter (fun a => rank a = r) l.
Proof.
  induction l as [|x l IH]; simpl; [done|].
  rewrite sort_insert_stable, !filter_cons. by rewrite IH.
Qed.
End sort_rank.

Lemma StronglySorted_mono {A} (R R' : A → A → Prop) (l : list A) :
  (∀ x y, R x y → R' x y) → StronglySorted R l → StronglySorted R' l.
Proof.
  intros HR. induction 1 as [|x l Hs IH Hall]; constructor; [done|].
  eapply Forall_impl; [exact Hall|]. intros y. apply HR.
Qed.


(** ** The rate limiter of the proxy *)


Section limiter.
Import PriceProxy LimiterSpec.


Lemma rateLimiter_count_ok now s : count_ok s → count_ok (rateLimiter now s).1.
Proof.
  intros Hs. unfold rateLimiter.
  destruct (RATE_LIMIT_WINDOW <? now - windowStart s).
  - unfold count_ok, MAX_REQUESTS_PER_WINDOW. simpl. lia.
  - destruct (Z.leb_spec MAX_REQUESTS_PER_WINDOW (requestCount s)); [done|].
    unfold count_ok in *. simpl. lia.
Qed.

Lemma step_count_ok s e : count_ok s → count_ok (step s e).1.
Proof.
  destruct e as [now|now]; simpl.
  - intros Hs. pose proof (rateLimiter_count_ok now s Hs).
    by destruct (rateLimiter now s).
  - intros _. unfold count_ok, MAX_REQUESTS_PER_WINDOW. simpl. lia.
Qed.

Lemma run_cons s e es :
  run s (e :: es) =
    ((run (step s e).1 es).1,
     match (step s e).2 with
     | Some v => (time_of e, v) :: (run (step s e).1 es).2
     | None => (run (step s e).1 es).2
     end).
Proof. simpl. destruct (step s e) as [s1 v]. simpl. by destruct (run s1 es). Qed.

Lemma run_count_ok es s : count_ok s → count_ok (run s es).1.
Proof.
  revert s. induction es as [|e es IH]; intros s Hs; [done|].
  rewrite run_cons. simpl. by apply IH, step_count_ok.
Qed.

Lemma rateLimiter_same_window now s :
  now - windowStart s ≤ RATE_LIMIT_WINDOW →
  rateLimiter now s =
    if MAX_REQUESTS_PER_WINDOW <=? requestCount s then (s, TooMany)
    else (Limiter (requestCount s + 1) (windowStart s), Next).
Proof.
  intros Hw. unfold rateLimiter.
  destruct (Z.ltb_spec RATE_LIMIT_WINDOW (now - windowStart s)); [lia | done].
Qed.

Lemma rateLimiter_new_window now s :
  RATE_LIMIT_WINDOW < now - windowStart s →
  rateLimiter now s = (Limiter 1 now, Next).
Proof.
  intros Hw. unfold rateLimiter.
  destruct (Z.ltb_spec RATE_LIMIT_WINDOW (now - windowStart s)); [done | lia].
Qed.

(** In one window the counter counts the requests served. *)
Lemma run_one_window es s :
  count_ok s → oneWindow s es = true →
  requestCount (run s es).1 = requestCount s + Z.of_nat (length (served (run s es).2)) ∧
  windowStart (run s es).1 = windowStart s.
Proof.
  revert s. induction es as [|e es IH]; intros s Hs Hw.
  - simpl. lia.
  - simpl in Hw. apply andb_prop in Hw as [Hre Hw].
    rewrite run_cons. simpl.
    destruct (IH _ (step_count_ok s e Hs) Hw) as [IHc IHw].
    rewrite IHc, IHw. clear IH IHc IHw Hw.
    destruct e as [now|now]; [|done]. simpl in *.
    apply negb_true_iff, Z.ltb_ge in Hre.
    rewrite (rateLimiter_same_window now s Hre).
    destruct (Z.leb_spec MAX_REQUESTS_PER_WINDOW (requestCount s)); simpl.
    + unfold served. simpl. fold (served (run s es).2). lia.
    + unfold served. simpl. split; [|done].
      rewrite Nat2Z.inj_succ. lia.
Qed.
End limiter.

(** C4, as stated, read over any minute of time: the burst around a reset
    has 50 requests served within two milliseconds. *)
Lemma C4_burst_counterexample :
  ¬ LimiterSpec.atMostPerMinute (PriceProxy.Limiter 0 0) LimiterSpec.burst.
Proof.
  intros H. specialize (H 59999). vm_compute in H. by apply H.
Qed.

(** C4 (amended): the limiter is a fixed counter. In every state the
    server reaches the counter is between 0 and 25. Over one window, that
    is a run of events none of which resets the counter, the counter grows
    by the number of requests served, so at most 25 are served in it. A
    request that arrives when 25 are counted and the window has not elapsed
    is rejected and leaves the state as it is; with fewer counted it is
    served and the counter grows by one; when the window has elapsed the
    counter restarts and the request is the first of the new window; the
    timer sets the counter to zero. *)
Theorem C4_rate_limiter_window (t0 : Z) (history es : list PriceProxy.event) (now : Z) :
  let s := (PriceProxy.run (PriceProxy.Limiter 0 t0) history).1 in
  let r := PriceProxy.run s es in
  0 ≤ PriceProxy.requestCount s ≤ 25 ∧
  (PriceProxy.oneWindow s es = true →
     PriceProxy.requestCount r.1 =
       PriceProxy.requestCount s + Z.of_nat (length (PriceProxy.served r.2)) ∧
     PriceProxy.requestCount r.1 ≤ 25) ∧
  (now - PriceProxy.windowStart s ≤ 60000 → PriceProxy.requestCount s = 25 →
     PriceProxy.rateLimiter now s = (s, PriceProxy.TooMany)) ∧
  (now - PriceProxy.windowStart s ≤ 60000 → PriceProxy.requestCount s < 25 →
     PriceProxy.rateLimiter now s =
       (PriceProxy.Limiter (PriceProxy.requestCount s + 1) (PriceProxy.windowStart s),
        PriceProxy.Next)) ∧
  (60000 < now - PriceProxy.windowStart s →
     PriceProxy.rateLimiter now s = (PriceProxy.Limiter 1 now, PriceProxy.Next)) ∧
  PriceProxy.resetTimer now s = PriceProxy.Limiter 0 now.
Proof.
  intros s r.
  assert (Hs : LimiterSpec.count_ok s).
  { apply run_count_ok. unfold LimiterSpec.count_ok, PriceProxy.MAX_REQUESTS_PER_WINDOW. simpl. lia. }
  split; [exact Hs|]. split; [|split; [|split; [|split]]].
  - intros Hw. destruct (run_one_window es s Hs Hw) as [Hc _].
    split; [exact Hc|]. apply (run_count_ok es s Hs).
  - intros Hw Hc. rewrite rateLimiter_same_window by exact Hw.
    rewrite Hc. reflexivity.
  - intros Hw Hc. rewrite rateLimiter_same_window by exact Hw.
    destruct (Z.leb_spec PriceProxy.MAX_REQUESTS_PER_WINDOW (PriceProxy.requestCount s)) as [H|H];
      [|reflexivity].
    unfold PriceProxy.MAX_REQUESTS_PER_WINDOW in H. lia.
  - intros Hw. by apply rateLimiter_new_window.
  - reflexivity.
Qed.

Lemma C4_rate_limiter_window_witness :
  let s := (PriceProxy.run (PriceProxy.Limiter 0 0)
              (replicate 25 (PriceProxy.Request 10))).1 in
  PriceProxy.rateLimiter 40 s = (s, PriceProxy.TooMany) ∧
  PriceProxy.requestCount
    (PriceProxy.run s [PriceProxy.Request 20; PriceProxy.Request 30]).1 ≤ 25 ∧
  PriceProxy.rateLimiter 40 (PriceProxy.Limiter 0 0) =
    (PriceProxy.Limiter 1 0, PriceProxy.Next) ∧
  PriceProxy.rateLimiter 70000 s = (PriceProxy.Limiter 1 70000, PriceProxy.Next).
Proof.
  intros s.
  destruct (C4_rate_limiter_window 0 (replicate 25 (PriceProxy.Request 10))
              [PriceProxy.Request 20; PriceProxy.Request 30] 40)
    as (_ & Hwin & Hfull & _ & _ & _).
  destruct (C4_rate_limiter_window 0 [] [] 40) as (_ & _ & _ & Hfree & _ & _).
  destruct (C4_rate_limiter_window 0 (replicate 25 (PriceProxy.Request 10)) [] 70000)
    as (_ & _ & _ & _ & Hnew & _).
  split; [|split; [|split]].
  - apply Hfull; vm_compute; [discriminate | reflexivity].
  - apply Hwin. vm_compute. reflexivity.
  - apply Hfree; vm_compute; [discriminate | reflexivity].
  - apply Hnew. vm_compute. reflexivity.
Defined.

(** ** The price endpoint under upstream rate limiting *)

(** C10: when the handler of [GET /api/price/:symbol] calls the upstream
    API and the call fails with HTTP 429, the answer is 200 with the data
    of the cached entry of the symbol whenever the cache has one, whatever
    its timestamp; it is 429 exactly when the cache has no entry for the
    symbol. The cache is left as it is. *)
Theorem C10_stale_price_on_upstream_429
    (w : PriceProxy.env) (priceCache : gmap string PriceProxy.cacheEntry)
    (sym : string) (err : JS.error) :
  (PriceProxy.getPrice w priceCache sym).2 = true →
  PriceProxy.upstream w = Rejected err →
  response_status err = Some 429 →
  let res := (PriceProxy.getPrice w priceCache sym).1.1 in
  (∀ entry, priceCache !! toUpperCase sym = Some entry →
     res = PriceProxy.Response 200 (PriceProxy.PriceBody (PriceProxy.data entry))) ∧
  (PriceProxy.status res = 429 ↔ priceCache !! toUpperCase sym = None) ∧
  (PriceProxy.getPrice w priceCache sym).1.2 = priceCache.
Proof.
  intros Hcalled Hup Hst. unfold PriceProxy.getPrice in *.
  destruct (PriceProxy.freshEntry w priceCache (toUpperCase sym)); [done|].
  rewrite Hup. simpl. unfold PriceProxy.priceErrorHandler. rewrite Hst. simpl.
  destruct (priceCache !! toUpperCase sym) as [entry|]; simpl.
  - split; [by intros ? [= <-]|]. split; [|done]. split; done.
  - split; [done|]. split; done.
Qed.


Lemma C10_stale_price_on_upstream_429_witness :
  (PriceProxy.getPrice
     (PriceProxy.Env 86400000 "2024-01-02T00:00:00.000Z"
        (Rejected (Error "Request failed with status code 429" (Some 429) None)))
     LimiterSpec.stale_entry "eth").1.1
  = PriceProxy.Response 200
      (PriceProxy.PriceBody
         (PriceProxy.PriceData "ETH" "Ethereum" (Some (Qc_of_Z 2000))
            "2024-01-01T00:00:00.000Z" 0%Qc)).
Proof.
  destruct (C10_stale_price_on_upstream_429
              (PriceProxy.Env 86400000 "2024-01-02T00:00:00.000Z"
                 (Rejected (Error "Request failed with status code 429" (Some 429) None)))
              LimiterSpec.stale_entry "eth"
              (Error "Request failed with status code 429" (Some 429) None))
    as [H _].
  - vm_compute. reflexivity.
  - reflexivity.
  - reflexivity.
  - apply (H (PriceProxy.CacheEntry 0
                (PriceProxy.PriceData "ETH" "Ethereum" (Some (Qc_of_Z 2000))
                   "2024-01-01T00:00:00.000Z" 0%Qc))).
    vm_compute. reflexivity.
Defined.

(** ** Staking opportunities *)


Section staking.
Import StakingData StakingSpec.









End staking.

Section staking_displayed.
Import StakingData StakingSpec.

Lemma elem_of_userAssetSymbols_acc u ua (acc : gset string) :
  u ∈ foldl (fun symbols a =>
               match a with
               | Some sy => if nonempty sy then {[ toUpperCase sy ]} ∪ symbols else symbols
               | None => symbols
               end) acc ua ↔
  u ∈ acc ∨ ∃ sy, Some sy ∈ ua ∧ nonempty sy = true ∧ toUpperCase sy = u.
Proof.
  revert acc. induction ua as [|a ua IH]; intros acc; simpl.
  - split; [by left|]. intros [?|(sy & H & _)]; [done|]. by apply elem_of_nil in H.
  - rewrite IH. split.
    + intros [H|(sy & H & Hn & Hu)].
      * destruct a as [sy|]; [destruct (nonempty sy) eqn:Hn|]; try by left.
        apply elem_of_union in H as [->%elem_of_singleton|H]; [|by left].
        right. exists sy. split; [by left|done].
      * right. exists sy. split; [by right|done].
    + intros [H|(sy & H & Hn & Hu)].
      * left. destruct a as [sy|]; [destruct (nonempty sy)|]; try done.
        apply elem_of_union. by right.
      * apply elem_of_cons in H as [<-|H].
        -- left. rewrite Hn. apply elem_of_union. left. by apply elem_of_singleton.
        -- right. by exists sy.
Qed.








End staking_displayed.



(** ** Numbers written by ethers and read back by [parseFloat] *)

Section parse.

Lemma read_digits_count acc n s : (n ≤ (read_digits acc n s).1.2)%nat.
Proof.
  revert acc n. induction s as [|c s IH]; intros acc n; simpl; [done|].
  destruct (is_digit c); simpl; [|done].
  etrans; [|apply IH]. lia.
Qed.

Lemma scale10_nonneg m e : 0 ≤ m → (0 ≤ scale10 m e)%Qc.
Proof.
  intros Hm. unfold scale10.
  destruct (0 <=? e) eqn:He; unfold Qcle; cbn [this Q2Qc];
    rewrite !Qred_correct; unfold Qle; cbn [Qnum Qden inject_Z].
  - apply Z.leb_le in He. rewrite Z.mul_0_l, Z.mul_1_r.
    apply Z.mul_nonneg_nonneg; [done|]. by apply Z.pow_nonneg.
  - rewrite Z.mul_0_l, Z.mul_1_r. done.
Qed.

Lemma parseFloat_digit_first c s :
  is_digit c = true → nonneg (parseFloat (String c s)) = true.
Proof.
  intros Hc. unfold parseFloat.
  assert (Hw : trimStart (String c s) = String c s).
  { simpl. replace (is_white c) with false; [done|].
    destruct c as [[] [] [] [] [] [] [] []]; try discriminate Hc; reflexivity. }
  assert (Hs : read_sign (String c s) = (false, String c s)).
  { destruct c as [[] [] [] [] [] [] [] []]; try discriminate Hc; reflexivity. }
  rewrite Hw, Hs. simpl. rewrite Hc.
  pose proof (read_digits_count (10 * 0 + digit_val c) 1 s) as Hn.
  destruct (read_digits (10 * 0 + digit_val c) 1 s) as [[ip ni] s2]. simpl in Hn.
  destruct (match s2 with
            | String "." s2' => read_digits ip 0 s2'
            | _ => (ip, 0%nat, s2)
            end) as [[m nf] s3].
  destruct ni as [|ni]; [lia|].
  unfold nonneg, JS.le, zero. apply bool_decide_eq_true.
  apply scale10_nonneg. lia.
Qed.

Lemma pretty_N_char_digit x : is_digit (pretty_N_char x) = true.
Proof. unfold pretty_N_char. by repeat case_match. Qed.


Lemma pretty_N_go_digit x s :
  (0 < x)%N ∨ AssetsSpec.starts_with_digit s → AssetsSpec.starts_with_digit (pretty_N_go x s).
Proof.
  revert s. induction (N.lt_wf_0 x) as [x _ IH]; intros s Hx.
  destruct (decide (0 < x)%N) as [Hpos|Hz].
  - rewrite pretty_N_go_step by done. apply IH.
    + by apply N.div_lt.
    + right. apply pretty_N_char_digit.
  - assert (x = 0%N) as -> by lia. rewrite pretty_N_go_0.
    destruct Hx as [?|?]; [lia | done].
Qed.

Lemma pretty_N_digit (x : N) : AssetsSpec.starts_with_digit (pretty x).
Proof.
  unfold pretty, pretty_N. case_decide; [done|].
  apply pretty_N_go_digit. left. lia.
Qed.

Lemma starts_with_digit_app s t : AssetsSpec.starts_with_digit s → AssetsSpec.starts_with_digit (s +:+ t).
Proof. by destruct s. Qed.

Lemma parseFloat_starts_with_digit s :
  AssetsSpec.starts_with_digit s → nonneg (parseFloat s) = true.
Proof. destruct s as [|c s]; [done|]. apply parseFloat_digit_first. Qed.

Lemma formatUnits_digit value decimals s :
  Ethers.formatUnits value decimals = Some s → AssetsSpec.starts_with_digit s.
Proof.
  unfold Ethers.formatUnits. destruct (_ || _); [done|].
  destruct (decimals =? 0); [|destruct (decimals <? 0)]; intros [= <-].
  - apply pretty_N_digit.
  - apply starts_with_digit_app, pretty_N_digit.
  - apply starts_with_digit_app, pretty_N_digit.
Qed.

(** A balance formatted by ethers reads back as a number that is not
    negative. *)
Lemma formatEther_nonneg value : nonneg (parseFloat (Ethers.formatEther value)) = true.
Proof.
  apply parseFloat_starts_with_digit. unfold Ethers.formatEther.
  destruct (Ethers.formatUnits value 18) as [s|] eqn:H; simpl.
  - by eapply formatUnits_digit.
  - reflexivity.
Qed.
End parse.

(** ** The asset list *)


Section assets.
Import WalletAssets AssetsSpec.

(** The two ways a run of [fetchAssets] ends: without a list, leaving
    the wallet context as it is, or with the list built from the valid
    balances and the fetched prices. *)
Lemma fetchAssets_cases w p st wd :
  let r := fetchAssets w p st wd in
  (onAssetsLoaded r.2 = onAssetsLoaded wd ∧ context r.2 = context wd ∧
   (assets r.1 = assets st ∨ assets r.1 = [])) ∨
  ∃ validBalances,
    let l := ethAsset (ethBalance st) (priceData r.1)
             :: (tokenAsset (priceData r.1) <$> validBalances) in
    Forall (fun t => validBalance t = true) validBalances ∧
    onAssetsLoaded r.2 = onAssetsLoaded wd ++ [l] ∧
    context r.2 = netWorthOf l ∧
    assets r.1 = sort byUsdValueDesc (tokenAsset (priceData r.1) <$> validBalances).
Proof.
  intros r. unfold r, fetchAssets.
  destruct (p_address p) as [addr|]; [|left; simpl; auto].
  destruct (isConnected p && nonempty addr); [|left; simpl; auto].
  destruct (fetchEthBalance w (storage wd) addr) as [[[bal ss1] l1] rq].
  destruct (fetchTokenData w addr) as [[[txs|err] limited1] l2].
  - right. simpl.
    exists (List.filter validBalance
              (tokenBalances
                 (fetchTokenBalances w ss1 (globalTokenBalanceCache wd) addr
                    (uniqueTokens (scanTransactions txs))))).
    split; [|done].
    apply Forall_forall. intros t Ht. apply list_elem_of_In, filter_In in Ht. tauto.
  - left. destruct (isRateLimitMessage err); simpl; auto.
Qed.

Lemma deliveredBy_cases w p st wd :
  let r := fetchAssets w p st wd in
  deliveredBy w p st wd = [] ∨
  ∃ validBalances,
    let l := ethAsset (ethBalance st) (priceData r.1)
             :: (tokenAsset (priceData r.1) <$> validBalances) in
    Forall (fun t => validBalance t = true) validBalances ∧
    deliveredBy w p st wd = [l] ∧
    context r.2 = netWorthOf l.
Proof.
  intros r. unfold deliveredBy.
  destruct (fetchAssets_cases w p st wd) as [(H & _ & _)|(vb & Hvb & H & Hc & _)].
  - left. rewrite H. by apply drop_all.
  - right. exists vb. split; [done|]. split; [|done].
    unfold r. rewrite H. by rewrite drop_app_length.
Qed.

Lemma validBalance_clean t :
  validBalance t = true →
  gt (parseFloat (balance t)) zero = true ∧
  clean (symbol (td_token t)) (name (td_token t)).
Proof.
  unfold validBalance, clean, blank, containsUrlPattern.
  rewrite !andb_true_iff, !negb_true_iff.
  intros (((((_ & Hgt) & Hne) & Htrim) & Hs) & Hn).
  split; [done|]. split; [by apply bool_decide_eq_false in Htrim|].
  rewrite Hne in Hs. split; [done|].
  destruct (nonempty (name (td_token t))) eqn:Hnm; [done|].
  by destruct (name (td_token t)).
Qed.
End assets.

Section objects.
Context {A : Type}.
Implicit Types (o : Obj.t A) (k : string) (v : A).

Lemma Obj_set_Forall (P : string * A → Prop) k v o :
  P (k, v) → Forall P o → Forall P (Obj.set k v o).
Proof.
  intros Hkv. induction 1 as [|[k' v'] o Hx Ho IH]; simpl.
  - by constructor.
  - case_bool_decide; constructor; done.
Qed.

Lemma Obj_keys_set k v o :
  Obj.keys (Obj.set k v o) =
    if bool_decide (k ∈ Obj.keys o) then Obj.keys o else Obj.keys o ++ [k].
Proof.
  unfold Obj.keys. induction o as [|[k' v'] o IH]; [done|].
  cbn [Obj.set]. destruct (bool_decide (k' = k)) eqn:Hk.
  - apply bool_decide_eq_true in Hk. subst k'.
    rewrite bool_decide_eq_true_2; [done|]. rewrite fmap_cons. by left.
  - apply bool_decide_eq_false in Hk. rewrite !fmap_cons, IH. cbn [fst].
    destruct (bool_decide (k ∈ o.*1)) eqn:Hin.
    + apply bool_decide_eq_true in Hin.
      rewrite bool_decide_eq_true_2; [done|]. by right.
    + apply bool_decide_eq_false in Hin.
      rewrite bool_decide_eq_false_2; [done|].
      intros [->|?]%elem_of_cons; done.
Qed.

Lemma Obj_set_NoDup k v o : NoDup (Obj.keys o) → NoDup (Obj.keys (Obj.set k v o)).
Proof.
  intros Hnd. rewrite Obj_keys_set. case_bool_decide as Hin; [done|].
  apply NoDup_app. split; [done|]. split.
  - intros x Hx ->%list_elem_of_singleton. done.
  - apply NoDup_singleton.
Qed.
End objects.

Section transactions.
Import WalletAssets AssetsSpec.


Lemma containsUrlPattern_false o :
  containsUrlPattern o = false →
  ∀ s, o = Some s → URL_PATTERN_REGEX_test s = false.
Proof.
  intros H s ->. simpl in H. destruct (nonempty s) eqn:Hs; [done|].
  by destruct s.
Qed.

Lemma processTx_ok s otx : scan_ok s → scan_ok (processTx s otx).
Proof.
  intros [Hc Hnd]. unfold processTx.
  destruct otx as [t|]; [|done].
  destruct (contractAddress t) as [ca|]; [|done].
  destruct (nonempty ca); [|done]. simpl.
  case_bool_decide; [done|].
  destruct (containsUrlPattern (tokenSymbol t) || containsUrlPattern (tokenName t))
    eqn:Hurl; [done|].
  apply orb_false_iff in Hurl as [Hus Hun].
  destruct (tokenSymbol t) as [sy|] eqn:Hsy; [|done].
  destruct (nonempty sy && negb (bool_decide (trim sy = ""))) eqn:Hhas; [|done].
  apply andb_true_iff in Hhas as [Hne Hblank].
  apply negb_true_iff, bool_decide_eq_false in Hblank.
  split; simpl; [|by apply Obj_set_NoDup].
  apply Obj_set_Forall; [|done]. simpl.
  pose proof (containsUrlPattern_false _ Hus sy eq_refl) as Hsy_ok.
  split; [done|]. split; [done|].
  unfold or_str. destruct (tokenName t) as [nm|] eqn:Hnm; [|done].
  destruct (nonempty nm) eqn:Hnmne; [|done].
  by apply (containsUrlPattern_false _ Hun).
Qed.

Lemma scanTransactions_ok txs : scan_ok (scanTransactions txs).
Proof.
  unfold scanTransactions.
  assert (H0 : scan_ok (TxScan [] 0 0 ∅ [])) by (split; constructor).
  revert H0. generalize (TxScan [] 0 0 ∅ []).
  induction txs as [|t txs IH]; intros s Hs; simpl; [done|].
  by apply IH, processTx_ok.
Qed.
End transactions.

(** C9: every token asset of a list passed to [onAssetsLoaded] has a
    symbol that is not blank, and neither its symbol nor its name matches
    the URL pattern; this holds whatever the caches held. The tokens
    that [processTokenTransactions] returns satisfy the same already. *)
Theorem C9_no_spam_tokens
    (w : WalletAssets.env) (p : WalletAssets.props) (st : WalletAssets.state)
    (wd : WalletAssets.world) (tokenTxs : list (option WalletAssets.tx)) :
  (∀ l a, l ∈ AssetsSpec.deliveredBy w p st wd → a ∈ l →
     is_Some (WalletAssets.asset_source a) →
     AssetsSpec.clean (WalletAssets.asset_symbol a) (WalletAssets.asset_name a)) ∧
  (∀ k tk, (k, tk) ∈ WalletAssets.processTokenTransactions tokenTxs →
     AssetsSpec.clean (WalletAssets.symbol tk) (WalletAssets.name tk)).
Proof.
  split.
  - intros l a Hl Ha Hsrc.
    destruct (deliveredBy_cases w p st wd) as [H|(vb & Hvb & H & _)];
      rewrite H in Hl; [by apply elem_of_nil in Hl|].
    apply list_elem_of_singleton in Hl as ->.
    apply elem_of_cons in Ha as [->|Ha].
    + simpl in Hsrc. by destruct Hsrc.
    + apply list_elem_of_fmap in Ha as (t & -> & Ht). simpl.
      rewrite Forall_forall in Hvb. by apply validBalance_clean, Hvb.
  - intros k tk Hin.
    destruct (scanTransactions_ok tokenTxs) as [Hc _].
    rewrite Forall_forall in Hc. exact (Hc _ Hin).
Qed.

Lemma C9_no_spam_tokens_witness :
  Forall (fun kt => AssetsSpec.clean (WalletAssets.symbol kt.2) (WalletAssets.name kt.2))
    (WalletAssets.processTokenTransactions [Some Demo.usdc; Some Demo.spam]).
Proof.
  apply Forall_forall. intros [k tk] Hin.
  apply (C9_no_spam_tokens Demo.funded Demo.connected WalletAssets.initialState
           WalletAssets.initialWorld [Some Demo.usdc; Some Demo.spam]) with k.
  exact Hin.
Defined.

Section valuation.
Import WalletAssets AssetsSpec.



End valuation.




Section balances.
Import WalletAssets AssetsSpec.


Lemma fetchEthBalance_ok w ss addr :
  eth_cache_ok ss →
  balance_ok (fetchEthBalance w ss addr).1.1.1 ∧
  eth_cache_ok (fetchEthBalance w ss addr).1.1.2.
Proof.
  intros Hss. unfold fetchEthBalance.
  destruct (freshCache _ _ _) as [b|] eqn:Hc.
  - apply freshCache_Some in Hc as (ts & Hc & _). simpl.
    split; [|done]. right. by eapply Hss.
  - destruct (getBalance w) as [n|e]; simpl; [|split; [by left | done]].
    unfold setItem. destruct (setItem_error w); simpl; [split; [by left | done]|].
    split; [right; apply formatEther_nonneg|].
    intros k b' ts'. simpl. rewrite lookup_insert. case_decide.
    + intros [= <- <-]. apply formatEther_nonneg.
    + apply Hss.
Qed.

Lemma fetchTokenBalances_eth w ss cache addr ut :
  eth_balance (tb_storage (fetchTokenBalances w ss cache addr ut)) = eth_balance ss.
Proof.
  unfold fetchTokenBalances.
  destruct (_ =? _)%nat; [done|].
  destruct (cachedTokenBalances w ss addr ut); [done|].
  destruct (tokenBatchLoop _ _ _ _) as [[results cache'] l].
  unfold setItem. by destruct (setItem_error w).
Qed.

Lemma fetchPriceData_eth w ss syms :
  eth_balance (pd_storage (fetchPriceData w ss syms)) = eth_balance ss.
Proof.
  unfold fetchPriceData.
  destruct (_ =? _)%nat; [done|].
  destruct (length (symbolsToFetch w ss syms) =? 0)%nat; [done|].
  destruct (priceBatchLoop _ _ _) as [[pd results] l].
  unfold setItem. destruct (setItem_error w) as [err|]; [|done].
  destruct (isRateLimitError err); [|done].
  by destruct (price_data_cache ss) as [[? ?]|].
Qed.


Lemma balance_ok_0 : balance_ok "0".
Proof. right. by apply parseFloat_starts_with_digit. Qed.

Lemma positive_nonneg b : positive b → nonneg (parseFloat b) = true.
Proof.
  unfold positive, nonneg, gt, JS.le, zero.
  destruct (parseFloat b) as [|q]; [done|].
  rewrite !bool_decide_eq_true. apply Qclt_le_weak.
Qed.

Lemma fetchAssets_inv w p st wd :
  inv st wd → inv (fetchAssets w p st wd).1 (fetchAssets w p st wd).2.
Proof.
  intros (Hb & Ha & Hss). unfold fetchAssets.
  destruct (p_address p) as [addr|];
    [|split; [apply balance_ok_0 | split; [constructor | done]]].
  destruct (isConnected p && nonempty addr);
    [|split; [apply balance_ok_0 | split; [constructor | done]]].
  destruct (fetchEthBalance_ok w (storage wd) addr Hss) as [Hbal Hss1].
  destruct (fetchEthBalance w (storage wd) addr) as [[[bal ss1] l1] rq]. simpl in Hbal, Hss1.
  destruct (fetchTokenData w addr) as [[[txs|err] limited1] l2].
  - split; [done|]. split; simpl.
    + apply Forall_forall. intros a Hin%elem_of_sort.
      apply list_elem_of_fmap in Hin as (t & -> & Ht).
      apply list_elem_of_In, filter_In in Ht as [_ Ht].
      by apply validBalance_clean in Ht as [Hgt _].
    + unfold eth_cache_ok. rewrite fetchPriceData_eth, fetchTokenBalances_eth.
      exact Hss1.
  - destruct (isRateLimitMessage err); done.
Qed.

Lemma assetFetchEffect_inv w p st wd :
  inv st wd →
  inv (assetFetchEffect w p st wd).1.1 (assetFetchEffect w p st wd).1.2.
Proof.
  intros Hinv. unfold assetFetchEffect.
  destruct (isRateLimited st); [done|].
  destruct (negb (initialFetchDone st) || truthy_str (p_address p)); [|done].
  pose proof (fetchAssets_inv w p st wd Hinv) as H.
  by destruct (fetchAssets w p st wd) as [st' wd'].
Qed.

Lemma reachable_inv st wd : reachable st wd → inv st wd.
Proof.
  induction 1 as [|w p st wd _ IH].
  - split; [apply balance_ok_0|]. split; [constructor|]. by intros k b ts.
  - by apply assetFetchEffect_inv.
Qed.
End balances.

(** C6, as stated, fails: after a run in which the ETH balance request
    fails, the ETH row shows the balance [Error], and the next run passes
    an ETH entry with the balance [Error] to [onAssetsLoaded]; [Error] is
    not a number. *)
Lemma C6_error_balance_counterexample : ¬ AssetsSpec.nonNegativeBalances.
Proof.
  intros H.
  destruct (H Demo.ethFails Demo.connected Demo.afterFailure.1 Demo.afterFailure.2)
    as [Hdel Hrow].
  { apply AssetsSpec.reach_effect, AssetsSpec.reach_init. }
  specialize (Hrow ("ETH", "Error")). simpl in Hrow.
  assert (Hfalse : nonneg (parseFloat "Error") = false) by reflexivity.
  rewrite Hfalse in Hrow. discriminate Hrow.
  vm_compute. apply list_elem_of_here.
Qed.

(** C6 (amended): in every state the component reaches, every asset of a
    list passed to [onAssetsLoaded] other than the ETH entry has
    [parseFloat(balance) > 0], and so has every token row displayed; the
    ETH entry and the ETH row carry [ethBalance] of the state, which is
    the text [Error] or a number that is not negative. *)
Theorem C6_balances_of_assets
    (w : WalletAssets.env) (p : WalletAssets.props) (st : WalletAssets.state)
    (wd : WalletAssets.world) :
  AssetsSpec.reachable st wd →
  (∀ l a, l ∈ AssetsSpec.deliveredBy w p st wd → a ∈ l →
     match WalletAssets.asset_source a with
     | Some _ => AssetsSpec.positive (WalletAssets.asset_balance a)
     | None =>
         WalletAssets.asset_balance a = WalletAssets.ethBalance st ∧
         AssetsSpec.balance_ok (WalletAssets.asset_balance a)
     end) ∧
  Forall (fun row => AssetsSpec.balance_ok row.2) (WalletAssets.renderedAssets p st) ∧
  Forall (fun row => AssetsSpec.positive row.2)
    (drop 1 (WalletAssets.renderedAssets p st)).
Proof.
  intros (Hb & Ha & _)%reachable_inv. split; [|split].
  - intros l a Hl Hin.
    destruct (deliveredBy_cases w p st wd) as [H|(vb & Hvb & H & _)];
      rewrite H in Hl; [by apply elem_of_nil in Hl|].
    apply list_elem_of_singleton in Hl as ->.
    apply elem_of_cons in Hin as [->|Hin]; simpl; [done|].
    apply list_elem_of_fmap in Hin as (t & -> & Ht). simpl.
    rewrite Forall_forall in Hvb. by apply validBalance_clean, Hvb.
  - unfold WalletAssets.renderedAssets.
    destruct (WalletAssets.isLoading st); [constructor|].
    case_bool_decide; [constructor|].
    destruct (negb (WalletAssets.isConnected p)); [constructor|].
    constructor; [done|]. apply Forall_fmap.
    eapply Forall_impl; [exact Ha|]. intros a Hpos. simpl.
    right. by apply positive_nonneg.
  - unfold WalletAssets.renderedAssets.
    destruct (WalletAssets.isLoading st); [constructor|].
    case_bool_decide; [constructor|].
    destruct (negb (WalletAssets.isConnected p)); [constructor|].
    simpl. by apply Forall_fmap.
Qed.

Lemma C6_balances_of_assets_witness :
  AssetsSpec.reachable Demo.afterFunded.1 Demo.afterFunded.2 ∧
  Forall (fun row => AssetsSpec.balance_ok row.2)
    (WalletAssets.renderedAssets Demo.connected Demo.afterFunded.1).
Proof.
  assert (Hr : AssetsSpec.reachable Demo.afterFunded.1 Demo.afterFunded.2).
  { apply AssetsSpec.reach_effect, AssetsSpec.reach_init. }
  split; [exact Hr|].
  apply (C6_balances_of_assets Demo.funded Demo.connected _ _ Hr).
Defined.

(** ** The rate-limit flag *)

Section rate_limit.
Import WalletAssets AssetsSpec.

Lemma fetchTokenData_rate_limited w addr e :
  truthy_str (etherscanApiKey w) = true →
  tokentx w = Rejected e → isRateLimitError e = true →
  ∃ l, fetchTokenData w addr = (Resolved [], true, l).
Proof.
  intros Hkey Htx He. unfold fetchTokenData. rewrite Hkey, Htx. simpl.
  rewrite He. by eexists.
Qed.

Lemma fetchAssets_keeps_flag w p st wd :
  isRateLimited st = true → isRateLimited (fetchAssets w p st wd).1 = true.
Proof.
  intros Hf. unfold fetchAssets.
  destruct (p_address p) as [addr|]; [|done].
  destruct (isConnected p && nonempty addr); [|done].
  destruct (fetchEthBalance w (storage wd) addr) as [[[bal ss1] l1] rq].
  destruct (fetchTokenData w addr) as [[[txs|err] limited1] l2]; simpl.
  - by rewrite Hf.
  - destruct (isRateLimitMessage err); simpl; [done|]. by rewrite Hf.
Qed.

Lemma effect_skips w p st wd :
  isRateLimited st = true → assetFetchEffect w p st wd = (st, wd, false).
Proof. intros Hf. unfold assetFetchEffect. by rewrite Hf. Qed.

Lemma runEffects_skips steps st wd :
  isRateLimited st = true → runEffects steps st wd = (st, wd, O).
Proof.
  intros Hf. induction steps as [|[w p] steps IH]; simpl; [done|].
  rewrite effect_skips by done. by rewrite IH.
Qed.

Lemma rethrown_message m :
  isRateLimitMessage (newError ("Failed to fetch token data: " +:+ m)) =
  isRateLimitMessage (newError m).
Proof. reflexivity. Qed.

(** The error that [fetchTokenData] throws is no rate-limit error for the
    [catch] of [fetchAssets]. *)
Lemma fetchTokenData_thrown w addr err limited l :
  fetchTokenData w addr = (Rejected err, limited, l) →
  limited = false ∧ isRateLimitMessage err = false.
Proof.
  unfold fetchTokenData. destruct (negb _); [by intros [= <- <- _]|].
  assert (Hmsg : ∀ e, isRateLimitError e = false →
                      isRateLimitMessage (newError (message e)) = false).
  { intros e He. unfold isRateLimitError in He. unfold isRateLimitMessage.
    cbn [message newError]. by apply orb_false_elim in He as [He _]. }
  destruct (tokentx w) as [d|e].
  - case_bool_decide; [done|]. cbn [fst snd].
    destruct (isRateLimitError _) eqn:He; [done|].
    intros [= <- <- _]. split; [done|]. rewrite rethrown_message.
    by apply (Hmsg _ He).
  - destruct (isRateLimitError e) eqn:He; [done|].
    intros [= <- <- _]. split; [done|]. rewrite rethrown_message. by apply Hmsg.
Qed.

Lemma fetchPriceData_flag w ss syms :
  pd_rateLimited (fetchPriceData w ss syms) = true →
  ∃ e, setItem_error w = Some e ∧ isRateLimitError e = true.
Proof.
  unfold fetchPriceData. destruct (_ =? _)%nat; [done|]. destruct (_ =? _)%nat; [done|].
  destruct (priceBatchLoop _ _ _) as [[pd r] l].
  unfold setItem. destruct (setItem_error w) as [err|]; [|done].
  destruct (isRateLimitError err) eqn:He; [|done]. intros _. by exists err.
Qed.

(** The flag after a run for a connected wallet. *)
Lemma fetchAssets_flag w p addr st wd :
  p_address p = Some addr → isConnected p = true → nonempty addr = true →
  isRateLimited (fetchAssets w p st wd).1 = true →
  isRateLimited st = true ∨ (fetchTokenData w addr).1.2 = true ∨
  ∃ e, setItem_error w = Some e ∧ isRateLimitError e = true.
Proof.
  intros Hp Hc Ha. unfold fetchAssets. rewrite Hp, Hc, Ha. cbn [andb].
  destruct (fetchEthBalance w (storage wd) addr) as [[[bal ss1] l1] rq].
  destruct (fetchTokenData w addr) as [[[txs|err] limited1] l2] eqn:Htd; cbn [fst snd].
  - cbn [isRateLimited]. intros [[H|H]%orb_true_iff|H]%orb_true_iff; [by left|by right; left|].
    right. right. by eapply fetchPriceData_flag.
  - destruct (fetchTokenData_thrown w addr err limited1 l2 Htd) as [-> Hmsg].
    rewrite Hmsg. cbn [fst isRateLimited]. rewrite orb_false_r. by left.
Qed.

Lemma fetchTokenData_flag w addr :
  (fetchTokenData w addr).1.2 = true →
  ∃ e, isRateLimitError e = true ∧
       (tokentx w = Rejected e ∨
        ∃ d, tokentx w = Resolved d ∧ es_status d ≠ "1" ∧
             e = newError ("Etherscan API error: " +:+ or_str (es_message d) "Unknown error")).
Proof.
  unfold fetchTokenData. destruct (negb _); [done|].
  destruct (tokentx w) as [d|e].
  - case_bool_decide as Hst; [done|]. cbn [fst snd].
    destruct (isRateLimitError _) eqn:He; [|done]. intros _.
    eexists. split; [exact He|]. right. by exists d.
  - destruct (isRateLimitError e) eqn:He; [|done]. intros _.
    exists e. split; [done|]. by left.
Qed.
End rate_limit.

(** C2, as stated, fails: a rate-limit failure of the ETH balance request
    is absorbed by the request itself and leaves the flag false. *)
Lemma C2_absorbed_rate_limit_counterexample : ¬ AssetsSpec.flagFollowsRateLimit.
Proof.
  intros H.
  specialize (H Demo.ethRateLimited "0xabc" WalletAssets.initialState
                WalletAssets.initialWorld
                (Error "429 Too Many Requests" (Some 429) None)
                eq_refl eq_refl eq_refl (or_introl eq_refl) eq_refl).
  vm_compute in H. discriminate H.
Qed.

(** C2 (amended): when the token-transaction request of a run for a
    connected wallet fails with a rate-limit error (a message containing
    [rate limit], [too many requests] or [429], or the HTTP status 429),
    [fetchTokenData] sets [isRateLimited] and goes on with no
    transactions, and the flag is true when the run ends. No run clears
    the flag. While the flag is true the effect does not call
    [fetchAssets]: any sequence of runs of the effect leaves the state and
    the world as they are and starts no fetch. The requests for the ETH
    balance, for the balances of the tokens and for the prices do not set
    the flag, whatever their answers: a run ends with the flag set only
    when it began with it, when [fetchTokenData] set it because the
    token-transaction request failed with a rate-limit error, or when
    writing the prices to [sessionStorage] threw an error that passes the
    rate-limit test; so when the storage takes the writes, the flag after
    the run is the flag before it or the one of [fetchTokenData]. *)
Theorem C2_rate_limit_flag
    (w : WalletAssets.env) (p : WalletAssets.props) (addr : string)
    (st : WalletAssets.state) (wd : WalletAssets.world)
    (steps : list (WalletAssets.env * WalletAssets.props)) :
  WalletAssets.p_address p = Some addr →
  WalletAssets.isConnected p = true → nonempty addr = true →
  WalletAssets.truthy_str (WalletAssets.etherscanApiKey w) = true →
  (∀ e, WalletAssets.tokentx w = Rejected e →
        WalletAssets.isRateLimitError e = true →
        (WalletAssets.fetchTokenData w addr).1 = (Resolved [], true) ∧
        WalletAssets.isRateLimited (WalletAssets.fetchAssets w p st wd).1 = true) ∧
  (WalletAssets.isRateLimited st = true →
     WalletAssets.isRateLimited (WalletAssets.fetchAssets w p st wd).1 = true ∧
     WalletAssets.assetFetchEffect w p st wd = (st, wd, false) ∧
     AssetsSpec.runEffects steps st wd = (st, wd, O)) ∧
  (WalletAssets.isRateLimited (WalletAssets.fetchAssets w p st wd).1 = true →
     WalletAssets.isRateLimited st = true ∨
     (WalletAssets.fetchTokenData w addr).1.2 = true ∨
     ∃ e, WalletAssets.setItem_error w = Some e ∧
          WalletAssets.isRateLimitError e = true) ∧
  ((WalletAssets.fetchTokenData w addr).1.2 = true →
     ∃ e, WalletAssets.isRateLimitError e = true ∧
          (WalletAssets.tokentx w = Rejected e ∨
           ∃ d, WalletAssets.tokentx w = Resolved d ∧
                WalletAssets.es_status d ≠ "1" ∧
                e = newError ("Etherscan API error: " +:+
                              WalletAssets.or_str (WalletAssets.es_message d)
                                "Unknown error"))) ∧
  (WalletAssets.setItem_error w = None →
     WalletAssets.isRateLimited (WalletAssets.fetchAssets w p st wd).1 =
       WalletAssets.isRateLimited st || (WalletAssets.fetchTokenData w addr).1.2).
Proof.
  intros Hp Hc Ha Hkey. split; [|split; [|split; [|split]]].
  - intros e Htx He.
    destruct (fetchTokenData_rate_limited w addr e Hkey Htx He) as [l Hl].
    split; [by rewrite Hl|].
    unfold WalletAssets.fetchAssets. rewrite Hp, Hc, Ha. simpl.
    destruct (WalletAssets.fetchEthBalance w (WalletAssets.storage wd) addr)
      as [[[bal ss1] l1] rq].
    rewrite Hl. simpl. by rewrite orb_true_r.
  - intros Hf. split; [by apply fetchAssets_keeps_flag|].
    split; [by apply effect_skips | by apply runEffects_skips].
  - by apply fetchAssets_flag.
  - apply fetchTokenData_flag.
  - intros Hset.
    destruct (WalletAssets.isRateLimited (WalletAssets.fetchAssets w p st wd).1) eqn:Hflag.
    + destruct (fetchAssets_flag w p addr st wd Hp Hc Ha Hflag) as [->|[->|(e & He & _)]];
        [done | by rewrite orb_true_r | congruence].
    + symmetry. apply orb_false_intro.
      * destruct (WalletAssets.isRateLimited st) eqn:Hst; [|done].
        by rewrite (fetchAssets_keeps_flag w p st wd Hst) in Hflag.
      * destruct ((WalletAssets.fetchTokenData w addr).1.2) eqn:Htd; [|done].
        revert Hflag. unfold WalletAssets.fetchAssets. rewrite Hp, Hc, Ha. cbn [andb].
        destruct (WalletAssets.fetchEthBalance w (WalletAssets.storage wd) addr)
          as [[[bal ss1] l1] rq].
        destruct (WalletAssets.fetchTokenData w addr) as [[[txs|err] limited1] l2] eqn:Hd;
          cbn [fst snd] in Htd; subst limited1.
        -- cbn [fst WalletAssets.isRateLimited]. by rewrite orb_true_r.
        -- by destruct (fetchTokenData_thrown w addr err true l2 Hd).
Qed.

Lemma C2_rate_limit_flag_witness :
  WalletAssets.isRateLimited
    (WalletAssets.fetchAssets Demo.etherscanRateLimited Demo.connected
       WalletAssets.initialState WalletAssets.initialWorld).1 = true.
Proof.
  destruct (C2_rate_limit_flag Demo.etherscanRateLimited Demo.connected "0xabc"
              WalletAssets.initialState WalletAssets.initialWorld []
              eq_refl eq_refl eq_refl eq_refl) as [H _].
  apply (H (Error "Request failed with status code 429" (Some 429) None));
    reflexivity.
Defined.

(** ** The three batch loops *)

Section loops.
Import WalletAssets.

Lemma fetchBatch_results w cache addr batch :
  Forall2 (fun (at_ : string * token) res =>
             ∃ c, res = tf_result (fetchTokenBalance w c addr at_.2 at_.1))
    batch (fetchBatch w cache addr batch).1.1.
Proof.
  unfold fetchBatch. simpl. rewrite <- list_fmap_compose.
  apply Forall2_fmap_r, Forall_Forall2_diag, Forall_forall.
  intros at_ _. by exists cache.
Qed.

Lemma tokenBatchLoop_cons w addr batch bs cache :
  tokenBatchLoop w addr (batch :: bs) cache =
    ((fetchBatch w cache addr batch).1.1
       :: (tokenBatchLoop w addr bs (fetchBatch w cache addr batch).1.2).1.1,
     (tokenBatchLoop w addr bs (fetchBatch w cache addr batch).1.2).1.2,
     (fetchBatch w cache addr batch).2
       ++ (tokenBatchLoop w addr bs (fetchBatch w cache addr batch).1.2).2).
Proof.
  cbn [tokenBatchLoop].
  destruct (fetchBatch w cache addr batch) as [[res c1] l1]. cbn [fst snd].
  by destruct (tokenBatchLoop w addr bs c1) as [[rest c2] l2].
Qed.

Lemma tokenBatchLoop_results w addr bs cache :
  Forall2 (Forall2 (fun (at_ : string * token) res =>
                      ∃ c, res = tf_result (fetchTokenBalance w c addr at_.2 at_.1)))
    bs (tokenBatchLoop w addr bs cache).1.1.
Proof.
  revert cache. induction bs as [|batch bs IH]; intros cache.
  - constructor.
  - rewrite tokenBatchLoop_cons. cbn [fst snd]. constructor.
    + apply fetchBatch_results.
    + apply IH.
Qed.

Lemma fetchTokenBalances_fetched w ss cache addr ut :
  cachedTokenBalances w ss addr ut = None →
  tb_batchResults (fetchTokenBalances w ss cache addr ut) =
    (tokenBatchLoop w addr (batches 5 (sortedAddresses ut)) cache).1.1.
Proof.
  intros Hc. unfold fetchTokenBalances. rewrite Hc.
  destruct (Nat.eqb_spec (length (Obj.keys ut)) 0) as [H0|_].
  - unfold Obj.keys in H0. rewrite length_fmap in H0.
    apply nil_length_inv in H0. by subst ut.
  - destruct (tokenBatchLoop w addr (batches 5 (sortedAddresses ut)) cache)
      as [[results cache'] l].
    unfold setItem. by destruct (setItem_error w).
Qed.

Lemma priceBatchLoop_results w bs pd :
  (priceBatchLoop w bs pd).1.2 = (fun batch : list string => (fun sym => (fetchPrice w sym).1) <$> batch) <$> bs.
Proof.
  revert pd. induction bs as [|batch bs IH]; intros pd; [done|].
  cbn [priceBatchLoop]. specialize (IH (foldl storePrice pd (fetchPrice w <$> batch).*1)).
  destruct (priceBatchLoop w bs (foldl storePrice pd (fetchPrice w <$> batch).*1))
    as [[pd' rest] l].
  cbn [fst snd] in *. rewrite fmap_cons, <- IH. f_equal.
  by rewrite <- list_fmap_compose.
Qed.

Lemma fetchPriceData_results w ss syms :
  syms ≠ [] →
  pd_results (fetchPriceData w ss syms) =
    (fun batch : list string => (fun sym => (fetchPrice w sym).1) <$> batch)
      <$> batches 3 (symbolsToFetch w ss syms).
Proof.
  intros Hne. unfold fetchPriceData.
  destruct (Nat.eqb_spec (length syms) 0) as [H0|_];
    [by apply nil_length_inv in H0|].
  destruct (Nat.eqb_spec (length (symbolsToFetch w ss syms)) 0) as [H0|_].
  - apply nil_length_inv in H0. by rewrite H0.
  - pose proof (priceBatchLoop_results w (batches 3 (symbolsToFetch w ss syms))
                  (priceCacheOf w ss)) as Hr.
    destruct (priceBatchLoop w (batches 3 (symbolsToFetch w ss syms)) (priceCacheOf w ss))
      as [[pd results] l].
    cbn [fst snd] in Hr. subst results.
    unfold setItem. destruct (setItem_error w) as [err|]; [|done].
    destruct (isRateLimitError err); [|done].
    by destruct (price_data_cache ss) as [[? ?]|].
Qed.
End loops.

Section priority.
Import WalletAssets LoopSpec.

Lemma indexOf_lt x l i : indexOf x l = Some i → (i < length l)%nat.
Proof.
  revert i. induction l as [|y l IH]; intros i; simpl; [done|].
  case_bool_decide; [intros [= <-]; lia|].
  destruct (indexOf x l) as [k|]; [|done].
  intros [= <-]. specialize (IH k eq_refl). lia.
Qed.

Lemma comparePriority_rank a b :
  comparePriority a b = Gt ↔ (priorityRank b < priorityRank a)%nat.
Proof.
  unfold comparePriority, priorityRank.
  destruct (indexOf (symbol a.2) priorityTokens) as [i|] eqn:Hi;
    destruct (indexOf (symbol b.2) priorityTokens) as [k|] eqn:Hk; cbn [default].
  - by rewrite Nat.compare_gt_iff.
  - apply indexOf_lt in Hi. unfold id. split; [done|lia].
  - apply indexOf_lt in Hk. unfold id. split; [by intros _ | done].
  - split; [done|lia].
Qed.

Lemma sortedAddresses_order ut : sortedByRank priorityRank ut (sortedAddresses ut).
Proof.
  split.
  - apply sort_rank_sorted, comparePriority_rank.
  - intros r. apply sort_stable, comparePriority_rank.
Qed.
End priority.

Section symbols_loop.
Import WalletSymbols LoopSpec.

Lemma foldl_set_lookup (v : fetchState) batch (o : gmap string fetchState) sym :
  o !! "__proto__" = None →
  foldl (fun status s => Plain.set s v status) o batch !! sym =
    if bool_decide (sym ∈ batch ∧ sym ≠ "__proto__") then Some v else o !! sym.
Proof.
  revert o. induction batch as [|a batch IH]; intros o Ho; cbn [foldl].
  - rewrite bool_decide_eq_false_2; [done|]. intros [H _]. by apply elem_of_nil in H.
  - assert (Hset : Plain.set a v o = if decide (a = "__proto__") then o else <[a := v]> o).
    { unfold Plain.set. destruct (decide (a = "__proto__")) as [->|Ha].
      - by rewrite Ho, !bool_decide_eq_true_2.
      - by rewrite (bool_decide_eq_false_2 (a = "__proto__")). }
    assert (Ho' : Plain.set a v o !! "__proto__" = None).
    { rewrite Hset. destruct (decide (a = "__proto__")); [done|].
      by rewrite lookup_insert_ne. }
    rewrite (IH _ Ho'). destruct (decide (sym = "__proto__")) as [->|Hs].
    + rewrite !bool_decide_eq_false_2; [by rewrite Ho' | by intros [_ ?]..].
    + destruct (decide (sym ∈ batch)) as [Hin|Hin].
      * rewrite !bool_decide_eq_true_2; [done | split; [by right|done] | done].
      * rewrite (bool_decide_eq_false_2 (sym ∈ batch ∧ _)) by (by intros [? _]).
        rewrite Hset. destruct (decide (a = sym)) as [->|Hne].
        -- rewrite decide_False by done. rewrite lookup_insert_eq.
           rewrite bool_decide_eq_true_2; [done|]. split; [by left|done].
        -- rewrite bool_decide_eq_false_2.
           ++ destruct (decide (a = "__proto__")); [done|]. by rewrite lookup_insert_ne.
           ++ intros [[->|H]%elem_of_cons _]; done.
Qed.

Lemma markBatch_lookup v batch prev sym :
  markBatch v batch prev !! sym =
    if bool_decide (sym ∈ batch ∧ sym ≠ "__proto__") then Some v else prev !! sym.
Proof.
  unfold markBatch.
  pose proof (foldl_set_lookup v batch ∅ sym (lookup_empty _)) as H.
  case_bool_decide.
  - by apply lookup_union_Some_l.
  - rewrite lookup_empty in H. by rewrite lookup_union_r.
Qed.

Lemma storeAnswer_status response batch acc sym :
  (foldl (storeAnswer response) acc batch).2 !! sym =
    if bool_decide (sym ∈ batch)
    then Some (if Plain.has sym (res_data response) then Success else Failed)
    else acc.2 !! sym.
Proof.
  revert acc. induction batch as [|a batch IH]; intros [[np n] fs]; cbn [foldl].
  - rewrite bool_decide_eq_false_2; [done|]. apply not_elem_of_nil.
  - rewrite IH. clear IH.
    assert (Hfs : (storeAnswer response (np, n, fs) a).2 =
                  <[a := if Plain.has a (res_data response) then Success else Failed]> fs).
    { unfold storeAnswer, Plain.has. by destruct (Plain.get a (res_data response)). }
    rewrite Hfs. cbn [snd].
    destruct (decide (sym ∈ batch)) as [Hin|Hin].
    + rewrite !bool_decide_eq_true_2; [done | by right | done].
    + rewrite (bool_decide_eq_false_2 (sym ∈ batch)) by done.
      destruct (decide (a = sym)) as [->|Hne].
      * rewrite lookup_insert_eq. rewrite bool_decide_eq_true_2; [done | by left].
      * rewrite lookup_insert_ne by done. rewrite bool_decide_eq_false_2; [done|].
        intros [->|H]%elem_of_cons; done.
Qed.

Lemma fetchBatch_requests api acc batch :
  (fetchBatch api acc batch).2 = acc.2 ++ [batch].
Proof.
  destruct acc as [[[np n] fs] rq]. unfold fetchBatch.
  destruct (api batch) as [response|err]; [|done].
  by destruct (status response =? 200).
Qed.

Lemma fetchBatch_status api acc batch sym :
  (sym ∈ batch → sym ≠ "__proto__" →
     (fetchBatch api acc batch).1.2 !! sym = Some (statusAfter (api batch) sym)) ∧
  (sym ∉ batch → (fetchBatch api acc batch).1.2 !! sym = acc.1.2 !! sym).
Proof.
  destruct acc as [[[np n] fs] rq]. unfold fetchBatch, statusAfter.
  destruct (api batch) as [response|err]; [destruct (status response =? 200)|];
    cbn [fst snd].
  - rewrite storeAnswer_status. cbn [snd]. rewrite markBatch_lookup. split.
    + intros Hin _. by rewrite bool_decide_eq_true_2.
    + intros Hin. rewrite !bool_decide_eq_false_2; [done | by intros [? _] | done].
  - rewrite markBatch_lookup. split.
    + intros Hin Hp. by rewrite bool_decide_eq_true_2.
    + intros Hin. rewrite bool_decide_eq_false_2; [done | by intros [? _]].
  - rewrite !markBatch_lookup. split.
    + intros Hin Hp. by rewrite bool_decide_eq_true_2.
    + intros Hin. rewrite !bool_decide_eq_false_2; [done | by intros [? _]..].
Qed.

Lemma foldl_fetchBatch_requests api bs acc :
  (foldl (fetchBatch api) acc bs).2 = acc.2 ++ bs.
Proof.
  revert acc. induction bs as [|b bs IH]; intros acc; cbn [foldl].
  - by rewrite app_nil_r.
  - rewrite IH, fetchBatch_requests. by rewrite <- app_assoc.
Qed.

Lemma foldl_fetchBatch_status api bs acc sym :
  sym ≠ "__proto__" →
  (sym ∈ concat bs →
     ∃ batch, batch ∈ bs ∧ sym ∈ batch ∧
       (foldl (fetchBatch api) acc bs).1.2 !! sym = Some (statusAfter (api batch) sym)) ∧
  (sym ∉ concat bs → (foldl (fetchBatch api) acc bs).1.2 !! sym = acc.1.2 !! sym).
Proof.
  intros Hp. induction bs as [|b bs IH] using rev_ind.
  - split; [by intros ?%elem_of_nil | done].
  - rewrite foldl_app, concat_app. cbn [foldl concat]. rewrite app_nil_r.
    destruct (fetchBatch_status api (foldl (fetchBatch api) acc bs) b sym) as [Hin Hout].
    destruct IH as [IHin IHout].
    destruct (decide (sym ∈ b)) as [Hb|Hb].
    + split; [|intros Hn; exfalso; apply Hn, elem_of_app; by right].
      intros _. exists b. split; [apply elem_of_app; right; by left|].
      split; [done|]. by apply Hin.
    + rewrite (Hout Hb). split.
      * intros [H|H]%elem_of_app; [|done].
        destruct (IHin H) as (batch & Hbatch & Hs & Hst).
        exists batch. split; [apply elem_of_app; by left|]. done.
      * intros Hn. apply IHout. intros H. apply Hn, elem_of_app. by left.
Qed.
End symbols_loop.

(** C5: the lookups are made in consecutive batches of a fixed size.
    When [fetchTokenBalances] does not return the cached batch, the
    batches it processes are the chunking by 5 of the addresses sorted by
    priority: the addresses of the tokens, those of the priority tokens
    first in the order of the priority list and the others after them,
    tokens of equal priority in the order they had; and every batch has
    one result for each of its addresses, in order. When [fetchPriceData]
    is given assets, the batches it requests are the chunking by 3 of the
    symbols to fetch, with one result for each symbol. When
    [fetchTokenPrices] of WalletSymbols does not return the fresh cache,
    the batches it requests are the chunking by 5 of its symbols, and
    every symbol (other than [__proto__]) ends with the status that the
    answer to a batch containing it gives it. In a chunking the batches
    are consecutive pieces of the list in order, none is empty, and every
    batch but the last has exactly the fixed size. *)
Theorem C5_fixed_size_batches
    (w : WalletAssets.env) (ss : WalletAssets.sessionStorage)
    (cache : gmap string WalletAssets.tokenData) (addr : string)
    (uniqueTokens : Obj.t WalletAssets.token) (assetSymbols : list string)
    (now : Z) (api : list string → outcome WalletSymbols.batchResponse)
    (setItem_error : bool)
    (symbols : list string) (st : WalletSymbols.state)
    (wsCache : option (gmap string WalletSymbols.quote * Z)) :
  (WalletAssets.cachedTokenBalances w ss addr uniqueTokens = None →
     let sorted := WalletAssets.sortedAddresses uniqueTokens in
     sorted ≡ₚ uniqueTokens ∧
     LoopSpec.sortedByRank LoopSpec.priorityRank uniqueTokens sorted ∧
     chunking 5 sorted (batches 5 sorted) ∧
     Forall2 (Forall2 (fun (at_ : string * WalletAssets.token) res =>
                ∃ c, res = WalletAssets.tf_result
                             (WalletAssets.fetchTokenBalance w c addr at_.2 at_.1)))
       (batches 5 sorted)
       (WalletAssets.tb_batchResults
          (WalletAssets.fetchTokenBalances w ss cache addr uniqueTokens))) ∧
  (assetSymbols ≠ [] →
     let toFetch := WalletAssets.symbolsToFetch w ss assetSymbols in
     chunking 3 toFetch (batches 3 toFetch) ∧
     WalletAssets.pd_results (WalletAssets.fetchPriceData w ss assetSymbols) =
       (fun batch : list string => (fun sym => (WalletAssets.fetchPrice w sym).1) <$> batch)
         <$> batches 3 toFetch) ∧
  (freshCache (2 * 60 * 1000) now wsCache = None →
     let r := WalletSymbols.fetchTokenPrices now api setItem_error symbols st wsCache in
     r.2 = batches 5 symbols ∧
     chunking 5 symbols (batches 5 symbols) ∧
     ∀ sym, sym ∈ symbols → sym ≠ "__proto__" →
       ∃ batch, batch ∈ batches 5 symbols ∧ sym ∈ batch ∧
         WalletSymbols.fetchStatus r.1.1.1 !! sym =
           Some (LoopSpec.statusAfter (api batch) sym)).
Proof.
  split; [|split].
  - intros Hc sorted. split; [apply sort_perm|].
    split; [apply sortedAddresses_order|].
    split; [apply batches_chunking; lia|].
    rewrite fetchTokenBalances_fetched by done. apply tokenBatchLoop_results.
  - intros Hne toFetch. split; [apply batches_chunking; lia|].
    by apply fetchPriceData_results.
  - intros Hc r.
    destruct (batches_chunking 5 symbols) as [Hcat Hsize]; [lia|].
    set (acc := (match wsCache with Some (prices, _) => prices | None => ∅ end,
                 O, WalletSymbols.fetchStatus st, @nil (list string))).
    assert (Hr : r = let '(newPrices, successCount, fs, requested) :=
                       foldl (WalletSymbols.fetchBatch api) acc (batches 5 symbols) in
                     (WalletSymbols.State newPrices fs,
                      if setItem_error then wsCache else Some (newPrices, now),
                      successCount, requested)).
    { unfold r, WalletSymbols.fetchTokenPrices. by rewrite Hc. }
    pose proof (foldl_fetchBatch_requests api (batches 5 symbols) acc) as Hreq.
    pose proof (fun sym H => proj1 (foldl_fetchBatch_status api (batches 5 symbols)
                                      acc sym H)) as Hst.
    destruct (foldl (WalletSymbols.fetchBatch api) acc (batches 5 symbols))
      as [[[np n] fs] rq].
    rewrite Hr. cbn [fst snd WalletSymbols.fetchStatus] in *.
    split; [done|]. split; [done|].
    intros sym Hin Hp. apply Hst; [done|]. by rewrite Hcat.
Qed.

Lemma C5_fixed_size_batches_witness :
  let sorted := WalletAssets.sortedAddresses Demo.twoTokens in
  chunking 5 sorted (batches 5 sorted) ∧
  chunking 3 (WalletAssets.symbolsToFetch Demo.funded DemoCache.storedEth ["USDC"])
    (batches 3 (WalletAssets.symbolsToFetch Demo.funded DemoCache.storedEth ["USDC"])) ∧
  chunking 5 ["ETH"; "USDC"] (batches 5 ["ETH"; "USDC"]).
Proof.
  destruct (C5_fixed_size_batches Demo.funded DemoCache.storedEth ∅ "0xabc"
              Demo.twoTokens ["USDC"] 1000 (fun _ => Rejected (newError "Network Error"))
              false ["ETH"; "USDC"] (WalletSymbols.State ∅ ∅) None)
    as (H1 & H2 & H3).
  split; [apply H1; reflexivity|].
  split; [apply H2; discriminate | apply H3; reflexivity].
Defined.

(** ** Isolation of the requests *)


Section token_isolation.
Import WalletAssets IsolationSpec.

Lemma string_app_inj (p s t : string) : p +:+ s = p +:+ t → s = t.
Proof. induction p as [|c p IH]; simpl; [done|]. intros [= H]. by apply IH. Qed.


Lemma cacheKeyOf_inj addr k k' : cacheKeyOf addr k = cacheKeyOf addr k' → k = k'.
Proof.
  unfold cacheKeyOf. intros H%string_app_inj. simpl in H. by injection H.
Qed.

Lemma fetchTokenBalance_agree w1 w2 c1 c2 addr tk k :
  now w1 = now w2 →
  balanceOf w1 (address tk) = balanceOf w2 (address tk) →
  c1 !! cacheKeyOf addr k = c2 !! cacheKeyOf addr k →
  fetchTokenBalance w1 c1 addr tk k = fetchTokenBalance w2 c2 addr tk k.
Proof.
  intros Hnow Hbal Hc. unfold fetchTokenBalance, cachedTokenBalance.
  fold (cacheKeyOf addr k). by rewrite Hnow, Hbal, Hc.
Qed.

(** The result of a request for a token of the contract [a0] is either
    the same in both worlds or a balance of that contract in both. *)
Lemma fetchTokenBalance_others a0 w1 w2 c1 c2 addr tk k :
  sameButBalanceOf a0 w1 w2 →
  c1 !! cacheKeyOf addr k = c2 !! cacheKeyOf addr k →
  others a0 (option_list (tf_result (fetchTokenBalance w1 c1 addr tk k))) =
  others a0 (option_list (tf_result (fetchTokenBalance w2 c2 addr tk k))).
Proof.
  intros (Hnow & _ & Hbal) Hc.
  destruct (decide (address tk = a0)) as [Ha|Ha].
  - unfold fetchTokenBalance, cachedTokenBalance.
    fold (cacheKeyOf addr k). rewrite Hnow, Hc.
    destruct (c2 !! cacheKeyOf addr k) as [d|];
      [destruct (_ <? _); [done|]|];
      (destruct (_ || _); [done|]; destruct (_ || _); [done|];
       unfold others;
       destruct (balanceOf w1 (address tk)), (balanceOf w2 (address tk));
       repeat (destruct (Ethers.formatUnits _ _)); simpl;
       rewrite ?filter_cons, ?filter_nil; simpl;
       rewrite ?decide_False by (intros H; by apply H); done).
  - by rewrite (fetchTokenBalance_agree w1 w2 c1 c2 addr tk k Hnow (Hbal _ Ha) Hc).
Qed.

Lemma validResults_option_list (rs : list (option tokenData)) :
  validResults rs = rs ≫= option_list.
Proof.
  unfold validResults. induction rs as [|[r|] rs IH]; simpl; [done| |done].
  f_equal. exact IH.
Qed.

Lemma others_app a0 l k : others a0 (l ++ k) = others a0 l ++ others a0 k.
Proof. apply filter_app. Qed.

Lemma fetchBatch_others a0 w1 w2 c1 c2 addr batch :
  sameButBalanceOf a0 w1 w2 →
  (∀ k, k ∈ batch.*1 → c1 !! cacheKeyOf addr k = c2 !! cacheKeyOf addr k) →
  others a0 (validResults (fetchBatch w1 c1 addr batch).1.1) =
  others a0 (validResults (fetchBatch w2 c2 addr batch).1.1).
Proof.
  intros Hw Hc. unfold fetchBatch. cbn [fst snd].
  rewrite !validResults_option_list.
  induction batch as [|[k tk] batch IH]; [done|].
  rewrite !fmap_cons. cbn [mbind list_bind]. rewrite !others_app.
  f_equal.
  - apply fetchTokenBalance_others; [done|]. apply Hc. rewrite fmap_cons. by left.
  - apply IH. intros k' Hk'. apply Hc. rewrite fmap_cons. by right.
Qed.

(** A batch writes to the cache only under the keys of its addresses. *)
Lemma batch_writes_other w cr addr batch (c : gmap string tokenData) k' :
  k' ∉ batch.*1 →
  foldl (fun c r => match tf_cached r with Some (k, v) => <[k := v]> c | None => c end)
    c ((fun at_ : string * token => fetchTokenBalance w cr addr at_.2 at_.1) <$> batch)
    !! cacheKeyOf addr k' = c !! cacheKeyOf addr k'.
Proof.
  revert c. induction batch as [|[k tk] batch IH]; intros c Hk'; [done|].
  rewrite fmap_cons in Hk'. apply not_elem_of_cons in Hk' as [Hne Hk'].
  rewrite fmap_cons. cbn [foldl]. rewrite IH by done. cbn [fst snd].
  unfold fetchTokenBalance. fold (cacheKeyOf addr k).
  destruct (cachedTokenBalance w cr (cacheKeyOf addr k)); [done|].
  destruct (_ || _); [done|]. destruct (_ || _); [done|].
  destruct (balanceOf w (address tk)); [|done].
  destruct (Ethers.formatUnits _ _); [|done]. cbn [tf_cached].
  rewrite lookup_insert_ne; [done|]. intros H%cacheKeyOf_inj. by apply Hne.
Qed.

Lemma fetchBatch_cache_other w c addr batch k' :
  k' ∉ batch.*1 →
  (fetchBatch w c addr batch).1.2 !! cacheKeyOf addr k' = c !! cacheKeyOf addr k'.
Proof. intros Hk'. unfold fetchBatch. cbn [fst snd]. by apply batch_writes_other. Qed.

Lemma tokenBatchLoop_others a0 w1 w2 addr bs c1 c2 :
  sameButBalanceOf a0 w1 w2 →
  NoDup (concat bs).*1 →
  (∀ k, k ∈ (concat bs).*1 → c1 !! cacheKeyOf addr k = c2 !! cacheKeyOf addr k) →
  others a0 (concat (validResults <$> (tokenBatchLoop w1 addr bs c1).1.1)) =
  others a0 (concat (validResults <$> (tokenBatchLoop w2 addr bs c2).1.1)).
Proof.
  intros Hw. revert c1 c2. induction bs as [|batch bs IH]; intros c1 c2 Hnd Hc; [done|].
  rewrite !tokenBatchLoop_cons. cbn [fst snd]. rewrite !fmap_cons.
  cbn [concat]. rewrite !others_app.
  cbn [concat] in Hnd, Hc. rewrite fmap_app in Hnd, Hc.
  apply NoDup_app in Hnd as (Hnd1 & Hdisj & Hnd2).
  f_equal.
  - apply fetchBatch_others; [done|]. intros k Hk. apply Hc, elem_of_app. by left.
  - apply IH; [done|]. intros k Hk.
    rewrite !fetchBatch_cache_other by (intros Hin; by apply (Hdisj k)).
    apply Hc, elem_of_app. by right.
Qed.

(** The balances of the other tokens do not depend on the answer for
    the tokens of the contract [a0]. *)
Lemma fetchTokenBalances_others a0 w1 w2 ss cache addr ut :
  sameButBalanceOf a0 w1 w2 → NoDup (Obj.keys ut) →
  others a0 (tokenBalances (fetchTokenBalances w1 ss cache addr ut)) =
  others a0 (tokenBalances (fetchTokenBalances w2 ss cache addr ut)).
Proof.
  intros Hw Hnd. unfold fetchTokenBalances.
  destruct (length (Obj.keys ut) =? 0)%nat; [done|].
  assert (Hcached : cachedTokenBalances w1 ss addr ut = cachedTokenBalances w2 ss addr ut).
  { unfold cachedTokenBalances. destruct Hw as (-> & _). done. }
  rewrite Hcached. destruct (cachedTokenBalances w2 ss addr ut); [done|].
  pose proof (tokenBatchLoop_others a0 w1 w2 addr
                (batches 5 (sortedAddresses ut)) cache cache Hw) as Hloop.
  destruct (tokenBatchLoop w1 addr (batches 5 (sortedAddresses ut)) cache)
    as [[results1 cache1] l1].
  destruct (tokenBatchLoop w2 addr (batches 5 (sortedAddresses ut)) cache)
    as [[results2 cache2] l2].
  cbn [fst snd] in Hloop.
  assert (Hres : others a0 (concat (validResults <$> results1)) =
                 others a0 (concat (validResults <$> results2))).
  { apply Hloop; [|done].
    destruct (batches_chunking 5 (sortedAddresses ut)) as [-> _]; [lia|].
    unfold sortedAddresses. by rewrite sort_perm. }
  unfold setItem. destruct Hw as (_ & -> & _).
  by destruct (setItem_error w2).
Qed.
End token_isolation.

Section price_isolation.
Import WalletAssets IsolationSpec.

Lemma storePrice_other w x pd sym :
  x ≠ sym → storePrice pd (fetchPrice w x).1 !! sym = pd !! sym.
Proof.
  intros Hne. unfold fetchPrice.
  destruct (priceOf w x) as [r|e]; [|done].
  destruct (pr_status r =? 200); [|done].
  destruct (pr_data r); [|done]. simpl. by rewrite Plain_set_ne.
Qed.

Lemma storePrice_agree s0 w1 w2 x pd1 pd2 sym :
  sameButPriceOf s0 w1 w2 → sym ≠ s0 → pd1 !! sym = pd2 !! sym →
  storePrice pd1 (fetchPrice w1 x).1 !! sym = storePrice pd2 (fetchPrice w2 x).1 !! sym.
Proof.
  intros (_ & _ & Hp) Hne Hpd.
  destruct (decide (x = sym)) as [->|Hx].
  - unfold fetchPrice. rewrite (Hp sym Hne).
    destruct (priceOf w2 sym) as [r|e]; [|done].
    destruct (pr_status r =? 200); [|done].
    destruct (pr_data r); [|done]. simpl. by rewrite !Plain_set_eq, Hpd.
  - by rewrite !storePrice_other.
Qed.

Lemma priceBatch_agree s0 w1 w2 batch pd1 pd2 sym :
  sameButPriceOf s0 w1 w2 → sym ≠ s0 → pd1 !! sym = pd2 !! sym →
  foldl storePrice pd1 (fetchPrice w1 <$> batch).*1 !! sym =
  foldl storePrice pd2 (fetchPrice w2 <$> batch).*1 !! sym.
Proof.
  intros Hw Hne. revert pd1 pd2.
  induction batch as [|x batch IH]; intros pd1 pd2 Hpd; [done|].
  rewrite !fmap_cons. cbn [foldl]. apply IH. by eapply storePrice_agree.
Qed.

Lemma priceBatchLoop_cons w batch bs pd :
  priceBatchLoop w (batch :: bs) pd =
    let pd1 := foldl storePrice pd (fetchPrice w <$> batch).*1 in
    ((priceBatchLoop w bs pd1).1.1,
     (fetchPrice w <$> batch).*1 :: (priceBatchLoop w bs pd1).1.2,
     concat (fetchPrice w <$> batch).*2 ++ (priceBatchLoop w bs pd1).2).
Proof.
  cbn [priceBatchLoop].
  by destruct (priceBatchLoop w bs (foldl storePrice pd (fetchPrice w <$> batch).*1))
    as [[pd' rest] l].
Qed.

Lemma priceBatchLoop_agree s0 w1 w2 bs pd1 pd2 sym :
  sameButPriceOf s0 w1 w2 → sym ≠ s0 → pd1 !! sym = pd2 !! sym →
  (priceBatchLoop w1 bs pd1).1.1 !! sym = (priceBatchLoop w2 bs pd2).1.1 !! sym.
Proof.
  intros Hw Hne. revert pd1 pd2.
  induction bs as [|batch bs IH]; intros pd1 pd2 Hpd; [done|].
  rewrite !priceBatchLoop_cons. cbn [fst snd]. apply IH.
  by eapply priceBatch_agree.
Qed.

(** The price of a symbol does not depend on the answer to the request
    for another symbol. *)
Lemma fetchPriceData_others s0 w1 w2 ss syms sym :
  sameButPriceOf s0 w1 w2 → sym ≠ s0 →
  prices (fetchPriceData w1 ss syms) !! sym = prices (fetchPriceData w2 ss syms) !! sym.
Proof.
  intros Hw Hne. unfold fetchPriceData.
  destruct (length syms =? 0)%nat; [done|].
  assert (Hcache : priceCacheOf w1 ss = priceCacheOf w2 ss).
  { unfold priceCacheOf. by destruct Hw as (-> & _). }
  assert (Hfetch : symbolsToFetch w1 ss syms = symbolsToFetch w2 ss syms).
  { unfold symbolsToFetch. by rewrite Hcache. }
  rewrite Hcache, Hfetch.
  destruct (length (symbolsToFetch w2 ss syms) =? 0)%nat; [done|].
  pose proof (priceBatchLoop_agree s0 w1 w2 (batches 3 (symbolsToFetch w2 ss syms))
                (priceCacheOf w2 ss) (priceCacheOf w2 ss) sym Hw Hne eq_refl) as Hloop.
  destruct (priceBatchLoop w1 _ _) as [[pd1 r1] l1].
  destruct (priceBatchLoop w2 _ _) as [[pd2 r2] l2].
  cbn [fst snd] in Hloop.
  unfold setItem. destruct Hw as (_ & -> & _).
  destruct (setItem_error w2) as [err|]; [|done].
  destruct (isRateLimitError err); [|done].
  by destruct (price_data_cache ss) as [[? ?]|].
Qed.
End price_isolation.

Section eth_isolation.
Import WalletAssets IsolationSpec.

Lemma fetchBatch_ext w1 w2 c addr batch :
  now w1 = now w2 → (∀ a, balanceOf w1 a = balanceOf w2 a) →
  fetchBatch w1 c addr batch = fetchBatch w2 c addr batch.
Proof.
  intros Hnow Hbal. unfold fetchBatch.
  assert (Hrs : (fun at_ : string * token => fetchTokenBalance w1 c addr at_.2 at_.1) <$> batch
              = (fun at_ : string * token => fetchTokenBalance w2 c addr at_.2 at_.1) <$> batch).
  { apply list_fmap_ext. intros i [k tk] _. by apply fetchTokenBalance_agree. }
  by rewrite Hrs.
Qed.

Lemma tokenBatchLoop_ext w1 w2 addr bs c :
  now w1 = now w2 → (∀ a, balanceOf w1 a = balanceOf w2 a) →
  tokenBatchLoop w1 addr bs c = tokenBatchLoop w2 addr bs c.
Proof.
  intros Hnow Hbal. revert c. induction bs as [|batch bs IH]; intros c; [done|].
  rewrite !tokenBatchLoop_cons. rewrite (fetchBatch_ext w1 w2) by done.
  by rewrite IH.
Qed.

Lemma fetchTokenBalances_respects w1 w2 ss ss' cache addr ut :
  now w1 = now w2 → setItem_error w1 = setItem_error w2 →
  (∀ a, balanceOf w1 a = balanceOf w2 a) →
  token_balances ss = token_balances ss' →
  price_data_cache ss = price_data_cache ss' →
  let r := fetchTokenBalances w1 ss cache addr ut in
  let r' := fetchTokenBalances w2 ss' cache addr ut in
  tokenBalances r = tokenBalances r' ∧ tb_cache r = tb_cache r' ∧
  tb_log r = tb_log r' ∧
  token_balances (tb_storage r) = token_balances (tb_storage r') ∧
  price_data_cache (tb_storage r) = price_data_cache (tb_storage r').
Proof.
  intros Hnow Hset Hbal Htb Hpc. unfold fetchTokenBalances.
  destruct (length (Obj.keys ut) =? 0)%nat; [done|].
  unfold cachedTokenBalances. rewrite Hnow, Htb.
  destruct (freshCache _ _ _) as [balances|].
  - destruct (0 <? _)%nat; [done|].
    rewrite (tokenBatchLoop_ext w1 w2) by done.
    destruct (tokenBatchLoop w2 _ _ _) as [[results c'] l].
    unfold setItem. rewrite Hset. by destruct (setItem_error w2).
  - rewrite (tokenBatchLoop_ext w1 w2) by done.
    destruct (tokenBatchLoop w2 _ _ _) as [[results c'] l].
    unfold setItem. rewrite Hset. by destruct (setItem_error w2).
Qed.

Lemma priceBatchLoop_ext w1 w2 bs pd :
  (∀ sym, priceOf w1 sym = priceOf w2 sym) →
  priceBatchLoop w1 bs pd = priceBatchLoop w2 bs pd.
Proof.
  intros Hp. revert pd. induction bs as [|batch bs IH]; intros pd; [done|].
  assert (Hrs : fetchPrice w1 <$> batch = fetchPrice w2 <$> batch).
  { apply list_fmap_ext. intros i sym _. unfold fetchPrice. by rewrite Hp. }
  rewrite !priceBatchLoop_cons. cbn zeta. by rewrite Hrs, IH.
Qed.

Lemma fetchPriceData_respects w1 w2 ss ss' syms :
  now w1 = now w2 → setItem_error w1 = setItem_error w2 →
  (∀ sym, priceOf w1 sym = priceOf w2 sym) →
  token_balances ss = token_balances ss' →
  price_data_cache ss = price_data_cache ss' →
  let r := fetchPriceData w1 ss syms in
  let r' := fetchPriceData w2 ss' syms in
  prices r = prices r' ∧ pd_rateLimited r = pd_rateLimited r' ∧ pd_log r = pd_log r'.
Proof.
  intros Hnow Hset Hp Htb Hpc. unfold fetchPriceData.
  destruct (length syms =? 0)%nat; [done|].
  assert (Hcache : priceCacheOf w1 ss = priceCacheOf w2 ss').
  { unfold priceCacheOf. by rewrite Hnow, Hpc. }
  assert (Hfetch : symbolsToFetch w1 ss syms = symbolsToFetch w2 ss' syms).
  { unfold symbolsToFetch. by rewrite Hcache. }
  rewrite Hcache, Hfetch.
  destruct (length (symbolsToFetch w2 ss' syms) =? 0)%nat; [done|].
  rewrite (priceBatchLoop_ext w1 w2) by done.
  destruct (priceBatchLoop w2 _ _) as [[pd r] l].
  unfold setItem. rewrite Hset. destruct (setItem_error w2) as [err|]; [|done].
  destruct (isRateLimitError err); [|done].
  rewrite Hpc. by destruct (price_data_cache ss') as [[? ?]|].
Qed.

Lemma fetchEthBalance_rest w ss addr :
  token_balances (fetchEthBalance w ss addr).1.1.2 = token_balances ss ∧
  price_data_cache (fetchEthBalance w ss addr).1.1.2 = price_data_cache ss.
Proof.
  unfold fetchEthBalance. destruct (freshCache _ _ _); [done|].
  destruct (getBalance w); [|done].
  unfold setItem. by destruct (setItem_error w).
Qed.

Lemma fetchTokenData_ext w1 w2 addr :
  etherscanApiKey w1 = etherscanApiKey w2 → tokentx w1 = tokentx w2 →
  fetchTokenData w1 addr = fetchTokenData w2 addr.
Proof. intros Hk Ht. unfold fetchTokenData. by rewrite Hk, Ht. Qed.

(** What a run delivers does not depend on the answer to the ETH
    balance request of the same run. *)
Lemma fetchAssets_eth_isolated w1 w2 p st wd :
  sameButGetBalance w1 w2 →
  let r1 := fetchAssets w1 p st wd in
  let r2 := fetchAssets w2 p st wd in
  onAssetsLoaded r1.2 = onAssetsLoaded r2.2 ∧ context r1.2 = context r2.2 ∧
  assets r1.1 = assets r2.1 ∧ priceData r1.1 = priceData r2.1 ∧
  isRateLimited r1.1 = isRateLimited r2.1.
Proof.
  intros (Hnow & Hset & Hkey & Htx & Hbal & Hp). unfold fetchAssets.
  destruct (p_address p) as [addr|]; [|done].
  destruct (isConnected p && nonempty addr); [|done].
  destruct (fetchEthBalance_rest w1 (storage wd) addr) as [Htb1 Hpc1].
  destruct (fetchEthBalance_rest w2 (storage wd) addr) as [Htb2 Hpc2].
  destruct (fetchEthBalance w1 (storage wd) addr) as [[[bal1 ss1] l1] rq1].
  destruct (fetchEthBalance w2 (storage wd) addr) as [[[bal2 ss2] l2] rq2].
  cbn [fst snd] in Htb1, Hpc1, Htb2, Hpc2.
  rewrite (fetchTokenData_ext w1 w2) by done.
  destruct (fetchTokenData w2 addr) as [[[txs|err] limited1] l3].
  - destruct (fetchTokenBalances_respects w1 w2 ss1 ss2 (globalTokenBalanceCache wd) addr
                (uniqueTokens (scanTransactions txs)))
      as (Hb & Hc & Hl & Htb & Hpc); [done|done|done|congruence|congruence|].
    rewrite Hb.
    destruct (fetchPriceData_respects w1 w2
                (tb_storage (fetchTokenBalances w1 ss1 (globalTokenBalanceCache wd) addr
                   (uniqueTokens (scanTransactions txs))))
                (tb_storage (fetchTokenBalances w2 ss2 (globalTokenBalanceCache wd) addr
                   (uniqueTokens (scanTransactions txs))))
                ("ETH" :: ((fun t => symbol (td_token t)) <$>
                   List.filter validBalance
                     (tokenBalances
                        (fetchTokenBalances w2 ss2 (globalTokenBalanceCache wd) addr
                           (uniqueTokens (scanTransactions txs)))))))
      as (Hpr & Hrl & _); [done|done|done|done|done|].
    cbn [fst snd onAssetsLoaded context assets priceData isRateLimited].
    by rewrite Hpr, Hrl.
  - destruct (isRateLimitMessage err);
      cbn [fst snd onAssetsLoaded context assets priceData isRateLimited];
      [|done].
    split; [done|]. split; [done|]. split; [done|]. split; [|done].
    rewrite Hpc1, Hpc2. done.
Qed.
End eth_isolation.

Section absorbed.
Import WalletAssets AssetsSpec.

Lemma clean_not_skipped sym nm :
  clean sym nm →
  containsUrlPattern (Some sym) || containsUrlPattern (Some nm) = false ∧
  negb (nonempty sym) || bool_decide (trim sym = "") = false.
Proof.
  intros (Hb & Hs & Hn). unfold containsUrlPattern. rewrite Hs, Hn.
  split; [by destruct (nonempty sym), (nonempty nm)|].
  rewrite bool_decide_eq_false_2 by done.
  destruct sym; [by destruct Hb | done].
Qed.
End absorbed.

(** C1: an error of one request of the asset loading is caught where the
    request is made, written to the console, and replaced by a default:
    a failed ETH balance request gives the balance [Error] and leaves the
    storage as it is; a failed balance request of a token gives the
    token with the balance [Error], marked as an error, and caches
    nothing; a failed price request gives no price entry. What is
    computed from the other requests stays the same: the balances of the
    tokens of other contracts do not depend on the answer for one
    contract, the price entry of a symbol does not depend on the answer
    for another symbol, and the list passed on, the net worth, the token
    rows and the prices do not depend on the answer to the ETH balance
    request. *)
Theorem C1_request_errors_isolated
    (w w' : WalletAssets.env) (ss : WalletAssets.sessionStorage)
    (cache : gmap string WalletAssets.tokenData) (addr : string)
    (tk : WalletAssets.token) (k sym : string) (e : JS.error)
    (uniqueTokens : Obj.t WalletAssets.token) (assetSymbols : list string)
    (a0 s0 : string) (p : WalletAssets.props) (st : WalletAssets.state)
    (wd : WalletAssets.world) :
  (freshCache (2 * 60 * 1000) (WalletAssets.now w)
     (WalletAssets.eth_balance ss !! addr) = None →
   WalletAssets.getBalance w = Rejected e →
   WalletAssets.fetchEthBalance w ss addr =
     ("Error", ss, [(LError, "Failed to fetch ETH balance:")], true)) ∧
  (WalletAssets.cachedTokenBalance w cache (addr +:+ "-" +:+ k) = None →
   AssetsSpec.clean (WalletAssets.symbol tk) (WalletAssets.name tk) →
   WalletAssets.balanceOf w (WalletAssets.address tk) = Rejected e →
   WalletAssets.fetchTokenBalance w cache addr tk k =
     WalletAssets.TokenFetch
       (Some (WalletAssets.TokenData tk "Error" "0" None true)) None
       [(LError, "Error fetching balance for " +:+ WalletAssets.symbol tk)] true) ∧
  (WalletAssets.priceOf w sym = Rejected e →
   WalletAssets.fetchPrice w sym = (None, [(LError, "Error fetching price for " +:+ sym)]) ∧
   ∀ priceData, WalletAssets.storePrice priceData (WalletAssets.fetchPrice w sym).1
                = priceData) ∧
  (IsolationSpec.sameButBalanceOf a0 w w' → NoDup (Obj.keys uniqueTokens) →
   IsolationSpec.others a0
     (WalletAssets.tokenBalances
        (WalletAssets.fetchTokenBalances w ss cache addr uniqueTokens)) =
   IsolationSpec.others a0
     (WalletAssets.tokenBalances
        (WalletAssets.fetchTokenBalances w' ss cache addr uniqueTokens))) ∧
  (IsolationSpec.sameButPriceOf s0 w w' → sym ≠ s0 →
   WalletAssets.prices (WalletAssets.fetchPriceData w ss assetSymbols) !! sym =
   WalletAssets.prices (WalletAssets.fetchPriceData w' ss assetSymbols) !! sym) ∧
  (IsolationSpec.sameButGetBalance w w' →
   let r := WalletAssets.fetchAssets w p st wd in
   let r' := WalletAssets.fetchAssets w' p st wd in
   WalletAssets.onAssetsLoaded r.2 = WalletAssets.onAssetsLoaded r'.2 ∧
   WalletAssets.context r.2 = WalletAssets.context r'.2 ∧
   WalletAssets.assets r.1 = WalletAssets.assets r'.1 ∧
   WalletAssets.priceData r.1 = WalletAssets.priceData r'.1).
Proof.
  split; [|split; [|split; [|split; [|split]]]].
  - intros Hc He. unfold WalletAssets.fetchEthBalance. by rewrite Hc, He.
  - intros Hc [Hurl Hsym]%clean_not_skipped He.
    unfold WalletAssets.fetchTokenBalance. by rewrite Hc, Hurl, Hsym, He.
  - intros He. unfold WalletAssets.fetchPrice. rewrite He. done.
  - apply fetchTokenBalances_others.
  - apply fetchPriceData_others.
  - intros Hw r r'.
    destruct (fetchAssets_eth_isolated w w' p st wd Hw) as (H1 & H2 & H3 & H4 & _).
    done.
Qed.

Lemma C1_request_errors_isolated_witness :
  WalletAssets.fetchEthBalance Demo.fundedEthFails
    (WalletAssets.SessionStorage ∅ ∅ None) "0xabc" =
    ("Error", WalletAssets.SessionStorage ∅ ∅ None,
     [(LError, "Failed to fetch ETH balance:")], true) ∧
  WalletAssets.tf_result
    (WalletAssets.fetchTokenBalance Demo.fundedTokenFails ∅ "0xabc" Demo.usdcToken "0xa0b8")
    = Some (WalletAssets.TokenData Demo.usdcToken "Error" "0" None true) ∧
  (WalletAssets.fetchPrice Demo.fundedPriceFails "USDC").1 = None ∧
  WalletAssets.prices
    (WalletAssets.fetchPriceData Demo.funded (WalletAssets.SessionStorage ∅ ∅ None)
       ["USDC"]) !! "ETH" =
  WalletAssets.prices
    (WalletAssets.fetchPriceData Demo.fundedPriceFails
       (WalletAssets.SessionStorage ∅ ∅ None) ["USDC"]) !! "ETH" ∧
  WalletAssets.onAssetsLoaded
    (WalletAssets.fetchAssets Demo.funded Demo.connected WalletAssets.initialState
       WalletAssets.initialWorld).2 =
  WalletAssets.onAssetsLoaded
    (WalletAssets.fetchAssets Demo.fundedEthFails Demo.connected WalletAssets.initialState
       WalletAssets.initialWorld).2.
Proof.
  split; [|split; [|split; [|split]]].
  - apply (C1_request_errors_isolated Demo.fundedEthFails Demo.funded
             (WalletAssets.SessionStorage ∅ ∅ None) ∅ "0xabc" Demo.usdcToken
             "0xa0b8" "USDC" (newError "missing response") Demo.twoTokens ["USDC"]
             "0xA0b8" "USDC" Demo.connected WalletAssets.initialState
             WalletAssets.initialWorld); reflexivity.
  - destruct (C1_request_errors_isolated Demo.fundedTokenFails Demo.funded
             (WalletAssets.SessionStorage ∅ ∅ None) ∅ "0xabc" Demo.usdcToken
             "0xa0b8" "USDC" (newError "call revert exception") Demo.twoTokens ["USDC"]
             "0xA0b8" "USDC" Demo.connected WalletAssets.initialState
             WalletAssets.initialWorld) as (_ & H & _).
    rewrite H; [reflexivity | reflexivity | | reflexivity].
    split; [discriminate|]. split; reflexivity.
  - destruct (C1_request_errors_isolated Demo.fundedPriceFails Demo.funded
             (WalletAssets.SessionStorage ∅ ∅ None) ∅ "0xabc" Demo.usdcToken
             "0xa0b8" "USDC" (newError "Request failed with status code 404")
             Demo.twoTokens ["USDC"]
             "0xA0b8" "USDC" Demo.connected WalletAssets.initialState
             WalletAssets.initialWorld) as (_ & _ & H & _).
    destruct H as [H _]; [reflexivity|]. by rewrite H.
  - destruct (C1_request_errors_isolated Demo.funded Demo.fundedPriceFails
             (WalletAssets.SessionStorage ∅ ∅ None) ∅ "0xabc" Demo.usdcToken
             "0xa0b8" "ETH" (newError "Request failed with status code 404")
             Demo.twoTokens ["USDC"]
             "0xA0b8" "USDC" Demo.connected WalletAssets.initialState
             WalletAssets.initialWorld) as (_ & _ & _ & _ & H & _).
    apply H; [|discriminate].
    split; [reflexivity|]. split; [reflexivity|].
    intros sym Hsym. simpl.
    destruct (String.eqb sym "ETH"); [reflexivity|].
    destruct (String.eqb_spec sym "USDC"); [congruence | reflexivity].
  - destruct (C1_request_errors_isolated Demo.funded Demo.fundedEthFails
             (WalletAssets.SessionStorage ∅ ∅ None) ∅ "0xabc" Demo.usdcToken
             "0xa0b8" "ETH" (newError "missing response")
             Demo.twoTokens ["USDC"]
             "0xA0b8" "USDC" Demo.connected WalletAssets.initialState
             WalletAssets.initialWorld) as (_ & _ & _ & _ & _ & H).
    apply H. repeat split; reflexivity.
Defined.

(** ** The caches *)


Section caches.
Import CacheSpec.

Lemma fresh_freshCache {A} ttl now (entry : option (A * Z)) v :
  fresh ttl now entry v ↔ freshCache ttl now entry = Some v.
Proof. symmetry. apply freshCache_Some. Qed.

Lemma stale_freshCache {A} ttl now (entry : option (A * Z)) :
  stale ttl now entry ↔ freshCache ttl now entry = None.
Proof. symmetry. apply freshCache_None. Qed.

Lemma fresh_or_stale {A} ttl now (entry : option (A * Z)) :
  (∃ v, fresh ttl now entry v) ∨ stale ttl now entry.
Proof.
  destruct (freshCache ttl now entry) as [v|] eqn:H.
  - left. exists v. by apply fresh_freshCache.
  - right. by apply stale_freshCache.
Qed.

Lemma fresh_not_stale {A} ttl now (entry : option (A * Z)) v :
  fresh ttl now entry v → ¬ stale ttl now entry.
Proof. intros (ts & He & Hlt) Hs. specialize (Hs v ts He). lia. Qed.




(** *** The batch of token balances *)
Lemma token_batch_lookup w ss cache addr ut :
  ut ≠ [] →
  (∀ balances,
     fresh five_minutes (WalletAssets.now w) (WalletAssets.token_balances ss !! addr)
       balances →
     validCached ut balances ≠ [] →
     WalletAssets.fetchTokenBalances w ss cache addr ut =
       WalletAssets.TokenBalancesResult (validCached ut balances) [] ss cache []) ∧
  (stale five_minutes (WalletAssets.now w) (WalletAssets.token_balances ss !! addr) ∨
   (∀ balances,
      fresh five_minutes (WalletAssets.now w) (WalletAssets.token_balances ss !! addr)
        balances → validCached ut balances = []) →
   WalletAssets.cachedTokenBalances w ss addr ut = None).
Proof.
  intros Hut.
  assert (Hlen : (length (Obj.keys ut) =? 0)%nat = false).
  { apply Nat.eqb_neq. unfold Obj.keys. rewrite length_fmap.
    by destruct ut. }
  unfold WalletAssets.fetchTokenBalances, WalletAssets.cachedTokenBalances.
  rewrite Hlen. unfold five_minutes, WalletAssets.CACHE_EXPIRY.
  change (5 * 60 * 1000) with 300000. split.
  - intros balances Hb%fresh_freshCache Hv. rewrite Hb.
    fold (validCached ut balances).
    destruct (validCached ut balances); [done|]. done.
  - intros [Hs%stale_freshCache|Hv]; [by rewrite Hs|].
    destruct (freshCache 300000 _ _) as [balances|] eqn:Hb; [|done].
    apply fresh_freshCache in Hb. fold (validCached ut balances).
    by rewrite (Hv balances Hb).
Qed.
End caches.

Section more_caches.
Import CacheSpec.








End more_caches.

Section kept.
Import CacheSpec.







End kept.


Section run_kept.
Import WalletAssets.




End run_kept.




(** * Further properties of the code *)

Section sort_desc.
Context {A : Type} (key : A → Qc).

Lemma sort_desc_sorted l :
  StronglySorted (fun a b => (key b ≤ key a)%Qc)
    (sort (fun a b => (key b ?= key a)%Qc) l).
Proof.
  eapply StronglySorted_mono; [|apply sort_strongly_sorted].
  - intros x y. unfold precedes. by rewrite Qcle_alt.
  - intros x y H1 H2. apply Z.compare_gt_iff in H1, H2. lia.
  - intros x y z. unfold precedes. rewrite <- !Qcle_alt.
    intros H1 H2. exact (Qcle_trans _ _ _ H2 H1).
Qed.
End sort_desc.

Section lending.
Import LendingData LendingSpec.

Lemma filterPool_app acc p : filterPool acc p = acc ++ filterPool [] p.
Proof.
  unfold filterPool.
  destruct (_ && _ && _); [done|]. by rewrite app_nil_r.
Qed.

Lemma filterPool_eligible p it : it ∈ filterPool [] p → eligible it.
Proof.
  unfold filterPool.
  destruct (bool_decide _) eqn:H1; simpl; [|by intros ?%elem_of_nil].
  destruct (bool_decide (toLowerCase _ = _)) eqn:H2; simpl; [|by intros ?%elem_of_nil].
  destruct (bool_decide (_ ∈ _)) eqn:H3; simpl; [|by intros ?%elem_of_nil].
  intros ->%list_elem_of_singleton.
  apply bool_decide_eq_true in H1, H2, H3. by repeat split.
Qed.

Lemma foldl_filterPool_eligible pools acc :
  Forall eligible acc → Forall eligible (foldl filterPool acc pools).
Proof.
  revert acc. induction pools as [|p pools IH]; intros acc Hacc; simpl; [done|].
  apply IH. rewrite filterPool_app. apply Forall_app. split; [done|].
  apply Forall_forall. intros it. apply filterPool_eligible.
Qed.

Lemma sort_byApyDesc_sorted l : StronglySorted apyDescending (sort byApyDesc l).
Proof. apply (sort_desc_sorted apy). Qed.

Lemma eligible_test it :
  bool_decide (Q2Qc (1 # 100) < apy it)%Qc &&
  bool_decide (toLowerCase (chain it) = "ethereum") &&
  bool_decide (protocol it ∈ LENDING_PROTOCOLS) = bool_decide (eligible it).
Proof.
  unfold eligible. destruct (decide (Q2Qc (1 # 100) < apy it)%Qc) as [H1|H1];
    destruct (decide (toLowerCase (chain it) = "ethereum")) as [H2|H2];
    destruct (decide (protocol it ∈ LENDING_PROTOCOLS)) as [H3|H3];
    repeat first [ rewrite (bool_decide_eq_true_2 _ H1) | rewrite (bool_decide_eq_true_2 _ H2)
                 | rewrite (bool_decide_eq_true_2 _ H3) | rewrite (bool_decide_eq_false_2 _ H1)
                 | rewrite (bool_decide_eq_false_2 _ H2) | rewrite (bool_decide_eq_false_2 _ H3) ];
    cbn [andb]; symmetry;
    first [ by apply bool_decide_eq_true_2
          | apply bool_decide_eq_false_2; by intros (? & ? & ?) ].
Qed.

Lemma filterPool_read p :
  filterPool [] p = if decide (eligible (read p)) then [read p] else [].
Proof.
  assert (H : filterPool [] p = if bool_decide (eligible (read p)) then [read p] else []).
  { rewrite <- eligible_test. unfold filterPool, read.
    by destruct (p_apy p), (p_apr p). }
  rewrite H. case_bool_decide as He; [by rewrite decide_True | by rewrite decide_False].
Qed.

Lemma foldl_filterPool_read pools acc :
  foldl filterPool acc pools = acc ++ filter eligible (read <$> pools).
Proof.
  revert acc. induction pools as [|p pools IH]; intros acc; cbn [foldl].
  - by rewrite app_nil_r.
  - rewrite IH, filterPool_app, filterPool_read, fmap_cons, filter_cons.
    rewrite <- app_assoc. by destruct (decide (eligible (read p))).
Qed.
End lending.

(** X1: the lending data after a fetch. A fetch that used the network
    and reports no error leaves in the state pools that all have an APY
    above 0.01, the chain Ethereum (in any case of letters) and one of
    the known lending protocols, in descending order of APY; when the
    storage takes the write, the cache holds these pools with the time of
    the fetch, and when it refuses, the cache stays as it was. When
    there is no fresh cache entry and the request is answered with the
    status 200 and an array of pools under [data], the network is used,
    no error is reported, and the state holds exactly the pools of the
    answer, as the component reads them, that meet the three criteria. *)
Theorem lending_data_loaded
    (now : Z) (api : outcome LendingData.response) (setItem_error : bool)
    (st : LendingData.state) (cache : option (list LendingData.item * Z)) :
  let r := LendingData.fetchLendingData now api setItem_error st cache in
  (r.2 = true → LendingData.st_error r.1.1 = None →
   Forall LendingSpec.eligible (LendingData.lendingData r.1.1) ∧
   StronglySorted LendingSpec.apyDescending (LendingData.lendingData r.1.1) ∧
   r.1.2 = if setItem_error then cache else Some (LendingData.lendingData r.1.1, now)) ∧
  (∀ resp pools,
     freshCache (15 * 60 * 1000) now cache = None →
     api = Resolved resp → LendingData.status resp = 200 →
     LendingData.res_data resp = Some (LendingData.DataArray pools) →
     r.2 = true ∧ LendingData.st_error r.1.1 = None ∧
     LendingData.lendingData r.1.1 ≡ₚ
       filter LendingSpec.eligible (LendingSpec.read <$> pools)).
Proof.
  intros r. split.
  - unfold r, LendingData.fetchLendingData.
    destruct (freshCache _ _ _); [done|].
    assert (Hload : ∀ pools,
      Forall LendingSpec.eligible
        (sort LendingData.byApyDesc (foldl LendingData.filterPool [] pools)) ∧
      StronglySorted LendingSpec.apyDescending
        (sort LendingData.byApyDesc (foldl LendingData.filterPool [] pools))).
    { intros pools. split; [|apply sort_byApyDesc_sorted].
      apply Forall_forall. intros it Hit%elem_of_sort. revert it Hit.
      apply Forall_forall, foldl_filterPool_eligible. constructor. }
    destruct api as [resp|e].
    + destruct (LendingData.status resp =? 200).
      * destruct (LendingData.res_data resp) as [[l|l|l|]|]; simpl;
          try (intros _ _; destruct (Hload l) as [H1 H2]; by destruct setItem_error);
          try (destruct cache as [[??]|]; by intros).
        intros _ _. destruct (Hload []) as [H1 H2]. by destruct setItem_error.
      * simpl. by intros.
    + destruct cache as [[??]|]; by intros.
  - intros resp pools Hstale -> Hst Hdata.
    unfold r, LendingData.fetchLendingData. rewrite Hstale, Hst, Hdata.
    cbn [Z.eqb Pos.eqb fst snd LendingData.st_error LendingData.lendingData].
    split; [done|]. split; [done|].
    by rewrite sort_perm, foldl_filterPool_read.
Qed.

Lemma lending_data_loaded_witness :
  Forall LendingSpec.eligible (LendingData.lendingData Samples.lendingLoaded) ∧
  LendingData.lendingData Samples.lendingLoaded ≡ₚ
    filter LendingSpec.eligible (LendingSpec.read <$> Samples.lendingPools).
Proof.
  destruct (lending_data_loaded 1000 Samples.lendingApi false
              (LendingData.State [] false None) None) as [H1 H2].
  split.
  - destruct H1 as (H & _); [reflexivity | reflexivity | exact H].
  - by destruct (H2 _ Samples.lendingPools eq_refl eq_refl eq_refl eq_refl) as (_ & _ & H).
Defined.

Section highest.
Import LendingData LendingSpec.

Lemma highestApyStep_inv rows m x :
  highest_inv rows m → highest_inv (rows ++ [x]) (highestApyStep m x).
Proof.
  intros Hm s. unfold highestApyStep.
  assert (Hv : (if bool_decide (apy x = 0%Qc) then 0%Qc else apy x) = apy x)
    by (by case_bool_decide).
  rewrite Hv. clear Hv. specialize (Hm s) as Hs.
  destruct (decide (symbol x = s)) as [<-|Hne].
  - destruct (m !! symbol x) as [v|] eqn:Hlook.
    + destruct Hs as [(it0 & Hin0 & Hs0 & Hv0) Hmax]. case_bool_decide as Hlt.
      * rewrite lookup_insert_eq. split.
        -- exists x. split; [set_solver|done].
        -- intros it [Hin| ->%list_elem_of_singleton]%elem_of_app Hsym.
           ++ apply Qclt_le_weak. eapply Qcle_lt_trans; [by apply Hmax|done].
           ++ apply Qcle_refl.
      * rewrite Hlook. split.
        -- exists it0. split; [set_solver|done].
        -- intros it [Hin| ->%list_elem_of_singleton]%elem_of_app Hsym.
           ++ by apply Hmax.
           ++ by apply Qcnot_lt_le.
    + rewrite lookup_insert_eq. split.
      * exists x. split; [set_solver|done].
      * intros it [Hin| ->%list_elem_of_singleton]%elem_of_app Hsym.
        -- by destruct (Hs it Hin).
        -- apply Qcle_refl.
  - assert (Hsame : (match m !! symbol x with
                     | Some highest =>
                         if bool_decide (highest < apy x)%Qc
                         then <[symbol x := apy x]> m else m
                     | None => <[symbol x := apy x]> m
                     end) !! s = m !! s).
    { destruct (m !! symbol x); [case_bool_decide|]; by rewrite ?lookup_insert_ne. }
    rewrite Hsame. destruct (m !! s) as [v|].
    + destruct Hs as [(it0 & Hin0 & Hs0 & Hv0) Hmax]. split.
      * exists it0. split; [set_solver|done].
      * intros it [Hin| ->%list_elem_of_singleton]%elem_of_app Hsym; [by apply Hmax|done].
    + intros it [Hin| ->%list_elem_of_singleton]%elem_of_app; [by apply Hs|done].
Qed.

Lemma findHighestApyByAsset_inv rows : highest_inv rows (findHighestApyByAsset rows).
Proof.
  unfold findHighestApyByAsset.
  induction rows as [|x rows IH] using rev_ind.
  - intros s. simpl. rewrite lookup_empty. by intros it ?%elem_of_nil.
  - rewrite foldl_app. simpl. by apply highestApyStep_inv.
Qed.

Lemma isHighestApy_spec rows it :
  it ∈ rows → isHighestApy rows it = true ↔ highestOf rows it.
Proof.
  intros Hin. unfold isHighestApy. rewrite bool_decide_eq_true.
  pose proof (findHighestApyByAsset_inv rows (symbol it)) as Hs.
  destruct (findHighestApyByAsset rows !! symbol it) as [v|].
  - destruct Hs as [(it0 & Hin0 & Hs0 & Hv0) Hmax]. split.
    + intros [= ->]. intros it' Hin' Hsym. by apply Hmax.
    + intros Hhi. f_equal. apply Qcle_antisym; [|by apply Hmax].
      rewrite <- Hv0. by apply Hhi.
  - by destruct (Hs it Hin).
Qed.
End highest.

(** X2: in the table of lending opportunities, a row carries the mark of
    the highest APY exactly when no row of the table for the same asset
    has a higher APY; every asset of the table has a marked row. *)
Theorem lending_highest_apy_mark
    (st : LendingData.state) (showOnlyUserAssets : bool)
    (userAssets : list (option string)) (it : LendingData.item) (mark : bool) :
  let table := LendingData.displayed st showOnlyUserAssets userAssets in
  (it, mark) ∈ table →
  (mark = true ↔ LendingSpec.highestOf table.*1 it) ∧
  ∃ it', (it', true) ∈ table ∧ LendingData.symbol it' = LendingData.symbol it.
Proof.
  intros table. unfold table, LendingData.displayed.
  destruct (LendingData.isLoading st); [by intros ?%elem_of_nil|].
  case_bool_decide; [by intros ?%elem_of_nil|].
  destruct (length _ =? 0)%nat; [by intros ?%elem_of_nil|].
  set (rows := LendingData.filteredLendingData st showOnlyUserAssets userAssets).
  assert (Hrows : ((fun it => (it, LendingData.isHighestApy rows it)) <$> rows).*1 = rows).
  { rewrite <- list_fmap_compose. apply list_fmap_id. }
  rewrite Hrows.
  intros (it0 & [= -> ->] & Hin)%list_elem_of_fmap. split.
  - by apply isHighestApy_spec.
  - pose proof (findHighestApyByAsset_inv rows (LendingData.symbol it0)) as Hs.
    destruct (LendingData.findHighestApyByAsset rows !! LendingData.symbol it0)
      as [v|] eqn:Hlook; [|by destruct (Hs it0 Hin)].
    destruct Hs as [(it1 & Hin1 & Hs1 & Hv1) _]. exists it1. split; [|done].
    apply list_elem_of_fmap. exists it1. split; [|done]. f_equal. symmetry.
    unfold LendingData.isHighestApy. apply bool_decide_eq_true.
    rewrite Hs1, Hlook. by rewrite Hv1.
Qed.

Lemma lending_highest_apy_mark_witness :
  ∃ it', (it', true) ∈ LendingData.displayed Samples.lendingLoaded false [] ∧
         LendingData.symbol it' = "USDC".
Proof.
  apply (lending_highest_apy_mark Samples.lendingLoaded false []
           Samples.compoundUsdc true).
  vm_compute. apply list_elem_of_here.
Defined.

(** X3: when the request for the lending data fails and an entry is
    stored, the state takes the pools of the entry, whatever its age,
    with the notice that cached data are used, and the entry stays as it
    is. The table shows no row then, because an error text is set. *)
Theorem lending_failed_fetch
    (now : Z) (api : outcome LendingData.response) (setItem_error : bool)
    (st : LendingData.state)
    (data : list LendingData.item) (ts : Z) (showOnlyUserAssets : bool)
    (userAssets : list (option string)) :
  15 * 60 * 1000 ≤ now - ts →
  LendingSpec2.fetchFails api →
  let r := LendingData.fetchLendingData now api setItem_error st (Some (data, ts)) in
  r = (LendingData.State data false
         (Some "Using cached data. Latest data could not be fetched."),
       Some (data, ts), true) ∧
  LendingData.displayed r.1.1 showOnlyUserAssets userAssets = [].
Proof.
  intros Hold Hfail r.
  assert (Hr : r = (LendingData.State data false
                      (Some "Using cached data. Latest data could not be fetched."),
                    Some (data, ts), true)).
  { unfold r, LendingData.fetchLendingData, freshCache.
    destruct (Z.ltb_spec (now - ts) (15 * 60 * 1000)); [lia|].
    destruct api as [resp|e]; [|done].
    destruct Hfail as [-> ->]. done. }
  split; [exact Hr|]. by rewrite Hr.
Qed.

Lemma lending_failed_fetch_witness :
  LendingData.displayed
    (LendingData.fetchLendingData 1000000 (Rejected (newError "Network Error")) false
       (LendingData.State [] false None)
       (Some ([Samples.compoundUsdc], 0))).1.1 true [] = [].
Proof.
  apply (lending_failed_fetch 1000000 (Rejected (newError "Network Error")) false
           (LendingData.State [] false None) [Samples.compoundUsdc] 0 true []).
  - vm_compute. discriminate.
  - exact I.
Defined.

Lemma elem_of_concat {A} (x : A) (ls : list (list A)) :
  x ∈ concat ls ↔ ∃ l, x ∈ l ∧ l ∈ ls.
Proof.
  induction ls as [|l ls IH]; simpl.
  - split; [by intros ?%elem_of_nil|]. by intros (? & _ & ?%elem_of_nil).
  - rewrite elem_of_app, IH. split.
    + intros [H|(l' & H1 & H2)]; [exists l|exists l'];
        (split; [done|]); [by left | by right].
    + intros (l' & H1 & [->|H2]%elem_of_cons); [by left|]. right. by exists l'.
Qed.

Section defillama.
Import DefiLlamaScript ScriptSpec.

Lemma foldl_filterPool pools acc :
  foldl LendingData.filterPool acc pools =
  acc ++ concat (LendingData.filterPool [] <$> pools).
Proof.
  revert acc. induction pools as [|p pools IH]; intros acc; simpl.
  - by rewrite app_nil_r.
  - rewrite IH, filterPool_app. by rewrite <- app_assoc.
Qed.

Lemma protocols_nonempty pr : pr ∈ LendingData.LENDING_PROTOCOLS → nonempty pr = true.
Proof.
  unfold LendingData.LENDING_PROTOCOLS. rewrite !elem_of_cons, elem_of_nil.
  intros H. repeat (destruct H as [->|H]; [done|]). done.
Qed.

Lemma accepted_filterPool p :
  accepted p = true →
  ∃ it, LendingData.filterPool [] p = [it] ∧ sameOpportunity (toYield p) it.
Proof.
  unfold accepted. rewrite !andb_true_iff.
  intros [[Hapy Hchain%bool_decide_eq_true] Hpr].
  destruct (LendingData.p_apy p) as [| |x] eqn:Hx; try done.
  destruct (LendingData.p_project p) as [pr|] eqn:Hp; [|done].
  apply bool_decide_eq_true in Hpr.
  unfold LendingData.filterPool. rewrite Hx, Hchain, Hp. simpl.
  rewrite (protocols_nonempty pr Hpr), Hapy.
  rewrite (bool_decide_eq_true_2 (pr ∈ _)) by done. simpl.
  eexists. split; [done|]. unfold sameOpportunity, toYield. simpl.
  by rewrite Hx, Hp, Hchain.
Qed.

Lemma accepted_spec p :
  accepted p = true →
  (Q2Qc (1 # 100) < apy (toYield p))%Qc ∧ chain (toYield p) = "Ethereum" ∧
  protocol (toYield p) ∈ LENDING_PROTOCOLS.
Proof.
  unfold accepted, toYield. rewrite !andb_true_iff. simpl.
  intros [[Hapy Hchain%bool_decide_eq_true] Hpr].
  destruct (LendingData.p_apy p) as [| |x]; try done.
  destruct (LendingData.p_project p) as [pr|]; [|done].
  apply bool_decide_eq_true in Hapy, Hpr. by rewrite Hchain.
Qed.

Lemma accepted_length pools :
  (length (filter (fun p => accepted p = true) pools)
   ≤ length (concat (LendingData.filterPool [] <$> pools)))%nat.
Proof.
  induction pools as [|p pools IH]; [done|].
  rewrite fmap_cons, filter_cons. cbn [concat]. rewrite length_app.
  case_decide as Hp; [|lia].
  destruct (accepted_filterPool p Hp) as (it & -> & _). cbn [length]. lia.
Qed.
End defillama.

(** X4: the pools that the script prints are pools that the lending view
    keeps of the same document: every printed pool has an APY above
    0.01, the chain [Ethereum] and a known lending protocol, and the
    component's filter keeps a pool with the same protocol, APY, value
    locked and chain, under the same symbol ([Unknown] when it is
    missing); the script prints them in descending order of APY, and
    never more of them than the component keeps. *)
Theorem script_pools_kept_by_component (pools : list LendingData.pool) :
  (∀ y, y ∈ DefiLlamaScript.yieldData pools →
     (Q2Qc (1 # 100) < DefiLlamaScript.apy y)%Qc ∧
     DefiLlamaScript.chain y = "Ethereum" ∧
     DefiLlamaScript.protocol y ∈ DefiLlamaScript.LENDING_PROTOCOLS ∧
     ∃ it, it ∈ foldl LendingData.filterPool [] pools ∧
           ScriptSpec.sameOpportunity y it) ∧
  StronglySorted ScriptSpec.yieldDescending (DefiLlamaScript.yieldData pools) ∧
  (length (DefiLlamaScript.yieldData pools)
   ≤ length (foldl LendingData.filterPool [] pools))%nat.
Proof.
  split; [|split].
  - intros y Hy. unfold DefiLlamaScript.yieldData in Hy.
    apply elem_of_sort, list_elem_of_fmap in Hy as (p & -> & Hp).
    apply list_elem_of_filter in Hp as [Hacc Hp].
    destruct (accepted_spec p Hacc) as (H1 & H2 & H3).
    split; [done|]. split; [done|]. split; [done|].
    destruct (accepted_filterPool p Hacc) as (it & Hit & Hsame).
    exists it. split; [|done]. rewrite foldl_filterPool. simpl.
    apply elem_of_concat. exists [it]. split; [apply list_elem_of_here|].
    apply list_elem_of_fmap. by exists p.
  - apply (sort_desc_sorted DefiLlamaScript.apy).
  - unfold DefiLlamaScript.yieldData.
    rewrite sort_length, length_fmap, foldl_filterPool. apply accepted_length.
Qed.

Section staking_script.
Import StakingScript StakingScriptSpec.

Lemma filterWhen_spec x test data item :
  item ∈ filterWhen x test data ↔
  item ∈ data ∧ ∀ v, given x v → test v item = true.
Proof.
  unfold filterWhen, given. destruct x as [v|].
  - destruct v as [|c v]; simpl.
    + split; [|by intros [? _]]. intros Hin. split; [done|]. by intros v [[= <-] ?].
    + rewrite !list_elem_of_In, filter_In. split.
      * intros [Hin Ht]. split; [done|]. by intros v' [[= <-] _].
      * intros [Hin Ht]. split; [done|]. by apply Ht.
  - split; [|by intros [? _]]. intros Hin. split; [done|]. by intros v [? _].
Qed.

Lemma filterWhen_sublist x test data : filterWhen x test data `sublist_of` data.
Proof.
  unfold filterWhen. destruct x as [v|]; [|done].
  destruct (nonempty v); [|done].
  induction data as [|d data IH]; simpl; [done|].
  destruct (test v d); [by apply sublist_skip | by apply sublist_cons].
Qed.

Lemma filterWhen_comm x test y test' data :
  filterWhen x test (filterWhen y test' data) =
  filterWhen y test' (filterWhen x test data).
Proof.
  unfold filterWhen. destruct x as [v|], y as [v'|]; try done.
  destruct (nonempty v), (nonempty v'); try done.
  induction data as [|d data IH]; simpl; [done|].
  destruct (test' v' d) eqn:H1, (test v d) eqn:H2; simpl;
    rewrite ?H1, ?H2, ?IH; done.
Qed.

Lemma filterWhen_idemp x test data :
  filterWhen x test (filterWhen x test data) = filterWhen x test data.
Proof.
  unfold filterWhen. destruct x as [v|]; [|done].
  destruct (nonempty v); [|done].
  induction data as [|d data IH]; simpl; [done|].
  destruct (test v d) eqn:H1; simpl; rewrite ?H1, ?IH; done.
Qed.

Lemma nonempty_toLowerCase s : nonempty (toLowerCase s) = nonempty s.
Proof. by destruct s. Qed.

Lemma filterWhen_case x y (test : string → entry → bool) data :
  sameUpToCase x y →
  (∀ a b item, toLowerCase a = toLowerCase b → test a item = test b item) →
  filterWhen x test data = filterWhen y test data.
Proof.
  unfold sameUpToCase, filterWhen. destruct x as [a|], y as [b|]; try done.
  intros Hab Ht.
  rewrite <- (nonempty_toLowerCase a), <- (nonempty_toLowerCase b), Hab.
  destruct (nonempty (toLowerCase b)); [|done].
  induction data as [|d data IH]; simpl; [done|].
  by rewrite (Ht a b d Hab), IH.
Qed.
End staking_script.

(** X5: [filterStakingData] keeps, in their order, exactly the entries
    that pass every filter that is given and not empty: the asset equal
    to the asset filter, the protocol containing the protocol filter, a
    chain name containing the chain filter, each without regard to the
    case of letters. Filtering the result again with the same filters
    changes nothing, and filter values that differ only in the case of
    letters select the same entries. *)
Theorem filterStakingData_selects
    (data : list StakingScript.entry) (f g : StakingScript.filters) :
  (∀ item, item ∈ StakingScript.filterStakingData data f ↔
           item ∈ data ∧ StakingScriptSpec.matches f item) ∧
  StakingScript.filterStakingData data f `sublist_of` data ∧
  StakingScript.filterStakingData (StakingScript.filterStakingData data f) f =
    StakingScript.filterStakingData data f ∧
  (StakingScriptSpec.sameUpToCase (StakingScript.f_asset f) (StakingScript.f_asset g) →
   StakingScriptSpec.sameUpToCase (StakingScript.f_protocol f) (StakingScript.f_protocol g) →
   StakingScriptSpec.sameUpToCase (StakingScript.f_chain f) (StakingScript.f_chain g) →
   StakingScript.filterStakingData data f = StakingScript.filterStakingData data g).
Proof.
  unfold StakingScript.filterStakingData. split; [|split; [|split]].
  - intros item. rewrite !filterWhen_spec. unfold StakingScriptSpec.matches.
    unfold StakingScript.assetTest, StakingScript.protocolTest, StakingScript.chainTest.
    split.
    + intros [[[Hin Ha] Hp] Hc]. split; [done|]. split; [|split; [done|]].
      * intros a Hg. specialize (Ha a Hg). by apply bool_decide_eq_true in Ha.
      * intros c Hg. apply Hc, existsb_exists in Hg as (name & Hin' & Hn).
        exists name. by rewrite <- list_elem_of_In in Hin'.
    + intros [Hin (Ha & Hp & Hc)]. split; [split; [split; [done|]|done]|].
      * intros a Hg. apply bool_decide_eq_true. by apply Ha.
      * intros c Hg. apply existsb_exists. destruct (Hc c Hg) as (name & Hin' & Hn).
        exists name. by rewrite <- list_elem_of_In.
  - etrans; [apply filterWhen_sublist|]. etrans; apply filterWhen_sublist.
  - rewrite (filterWhen_comm (StakingScript.f_asset f) StakingScript.assetTest
               (StakingScript.f_chain f) StakingScript.chainTest).
    rewrite (filterWhen_comm (StakingScript.f_asset f) StakingScript.assetTest
               (StakingScript.f_protocol f) StakingScript.protocolTest).
    rewrite filterWhen_idemp.
    rewrite (filterWhen_comm (StakingScript.f_protocol f) StakingScript.protocolTest
               (StakingScript.f_chain f) StakingScript.chainTest).
    by rewrite !filterWhen_idemp.
  - intros Ha Hp Hc.
    rewrite (filterWhen_case _ _ _ _ Ha), (filterWhen_case _ _ _ _ Hp),
      (filterWhen_case _ _ _ _ Hc); [done| | |].
    + intros a b item Hab. unfold StakingScript.chainTest. by rewrite Hab.
    + intros a b item Hab. unfold StakingScript.protocolTest. by rewrite Hab.
    + intros a b item Hab. unfold StakingScript.assetTest. by rewrite Hab.
Qed.

Lemma filterStakingData_selects_witness :
  StakingScript.filterStakingData Samples.stakingEntries
    (StakingScript.Filters (Some "eth") None (Some "ethereum")) =
  StakingScript.filterStakingData Samples.stakingEntries
    (StakingScript.Filters (Some "ETH") None (Some "Ethereum")).
Proof.
  apply (filterStakingData_selects Samples.stakingEntries
           (StakingScript.Filters (Some "eth") None (Some "ethereum"))
           (StakingScript.Filters (Some "ETH") None (Some "Ethereum")));
    reflexivity.
Defined.

Section totals.
Import WalletAssets.

Lemma addNetWorth_fold l r :
  let r' := foldl addNetWorth r l in
  netWorth r' =
    foldl (fun total a => if PortfolioOptimizer.hasValue a then add total (usdValue a)
                          else total) (netWorth r) l ∧
  totalAssets r' = totalAssets r ∧
  (assetsWithValue r' + assetsWithoutValue r'
   = assetsWithValue r + assetsWithoutValue r + length l)%nat ∧
  assetsWithValue r' =
    (assetsWithValue r + length (List.filter PortfolioOptimizer.hasValue l))%nat.
Proof.
  revert r. induction l as [|a l IH]; intros r; simpl.
  - repeat split; lia.
  - destruct (IH (addNetWorth r a)) as (H1 & H2 & H3 & H4).
    rewrite H1, H2, H3, H4. unfold addNetWorth, PortfolioOptimizer.hasValue.
    destruct (truthy (usdValue a) && negb (isNaN (usdValue a))); simpl;
      repeat split; lia.
Qed.

Lemma or_count_same n : PortfolioOptimizer.or_count n n = n.
Proof. unfold PortfolioOptimizer.or_count. by destruct (n =? 0)%nat. Qed.

Lemma close_enough (x : jsnum) :
  gt x zero = true →
  strict_eq x zero ||
  lt (div (abs (sub x x)) x) (Num (Q2Qc (1 # 10))) = true.
Proof.
  destruct x as [|q]; simpl; [done|]. intros Hq%bool_decide_eq_true.
  apply orb_true_iff. right.
  assert (Hsub : (q - q = 0)%Qc) by ring. rewrite Hsub.
  rewrite (bool_decide_eq_false_2 (0 < 0)%Qc)
    by (intros H; by apply Qclt_not_eq in H).
  rewrite (bool_decide_eq_false_2 (q = 0%Qc)).
  - apply bool_decide_eq_true. unfold Qcdiv. rewrite Qcmult_0_l. done.
  - intros ->. by apply Qclt_not_eq in Hq.
Qed.
End totals.

(** X6: the three places that add up the value of an asset list agree:
    the net worth that [fetchAssets] reports, the total of
    [calculateTotalFromAssets] of the portfolio view and the total that
    [handleAssetsLoaded] logs are the same number for every list; the
    reported number of assets is the length of the list, and the counts
    of assets with and without value add up to it. *)
Theorem asset_totals_agree (l : list WalletAssets.asset) :
  let ctx := WalletAssets.netWorthOf l in
  PortfolioOptimizer.calculateTotalFromAssets l = WalletAssets.netWorth ctx ∧
  App.totalValue l = WalletAssets.netWorth ctx ∧
  WalletAssets.totalAssets ctx = length l ∧
  (WalletAssets.assetsWithValue ctx + WalletAssets.assetsWithoutValue ctx = length l)%nat ∧
  WalletAssets.assetsWithValue ctx = length (List.filter PortfolioOptimizer.hasValue l).
Proof.
  intros ctx. unfold ctx, WalletAssets.netWorthOf.
  destruct (addNetWorth_fold l
              (WalletAssets.NetWorthReport zero (length l) 0 0)) as (H1 & H2 & H3 & H4).
  simpl in *. rewrite H1, H2, H3, H4. repeat split.
Qed.

(** X7: the portfolio view fed by a run of [fetchAssets], with the list
    the run passed on and the net worth it reported: whenever the net
    worth is greater than 0 the view shows that net worth as the total
    value, never the total it computes itself, together with the
    reported counts; the number of assets it shows is the length of the
    list. *)
Theorem portfolio_summary_of_run
    (w : WalletAssets.env) (p : WalletAssets.props) (st : WalletAssets.state)
    (wd : WalletAssets.world) (l : list WalletAssets.asset) :
  l ∈ AssetsSpec.deliveredBy w p st wd →
  let ctx := WalletAssets.context (WalletAssets.fetchAssets w p st wd).2 in
  gt (WalletAssets.netWorth ctx) zero = true →
  PortfolioOptimizer.shown ctx l =
    Some (PortfolioOptimizer.Summary (WalletAssets.netWorth ctx) (length l)
            (Some (WalletAssets.assetsWithValue ctx))
            (Some (WalletAssets.assetsWithoutValue ctx)) true).
Proof.
  intros Hl ctx Hpos.
  destruct (deliveredBy_cases w p st wd) as [H|(vb & _ & H & Hc)];
    rewrite H in Hl; [by apply elem_of_nil in Hl|].
  apply list_elem_of_singleton in Hl. fold ctx in Hc.
  set (l0 := WalletAssets.ethAsset _ _ :: _) in Hc, Hl. subst l.
  destruct (addNetWorth_fold l0
              (WalletAssets.NetWorthReport zero (length l0) 0 0)) as (H1 & H2 & _).
  unfold PortfolioOptimizer.shown, PortfolioOptimizer.portfolioSummary.
  assert (Htot : PortfolioOptimizer.calculateTotalFromAssets l0 = WalletAssets.netWorth ctx).
  { rewrite Hc. unfold WalletAssets.netWorthOf. by rewrite H1. }
  assert (Hn : WalletAssets.totalAssets ctx = length l0).
  { rewrite Hc. unfold WalletAssets.netWorthOf. by rewrite H2. }
  rewrite Htot, Hpos, (close_enough _ Hpos), Hn, or_count_same. done.
Qed.

Lemma portfolio_summary_of_run_witness :
  is_Some (PortfolioOptimizer.shown
             (WalletAssets.context
                (WalletAssets.fetchAssets Demo.funded Demo.connected
                   WalletAssets.initialState WalletAssets.initialWorld).2)
             Samples.fundedAssets).
Proof.
  rewrite (portfolio_summary_of_run Demo.funded Demo.connected
             WalletAssets.initialState WalletAssets.initialWorld Samples.fundedAssets).
  - by eexists.
  - vm_compute. apply list_elem_of_here.
  - vm_compute. reflexivity.
Defined.

Section proxy_limiter.
Import PriceProxy LimiterSpec ProxySpec.

Lemma served_cons t v vs :
  length (served ((t, v) :: vs)) =
  ((match v with Next => 1 | TooMany => 0 end) + length (served vs))%nat.
Proof. unfold served. simpl. by destruct v. Qed.

Lemma step_budget s e :
  count_ok s →
  (match (step s e).2 with Some Next => 1 | _ => 0 end)
  + (MAX_REQUESTS_PER_WINDOW - requestCount (step s e).1)
  ≤ (MAX_REQUESTS_PER_WINDOW - requestCount s)
    + MAX_REQUESTS_PER_WINDOW * (if resets s e then 1 else 0).
Proof.
  unfold count_ok, MAX_REQUESTS_PER_WINDOW. intros Hs.
  destruct e as [now|now]; cbn [step resets]; [|simpl; lia].
  destruct (Z.ltb_spec RATE_LIMIT_WINDOW (now - windowStart s)) as [Hnew|Hsame].
  - rewrite (rateLimiter_new_window now s Hnew). simpl. lia.
  - rewrite (rateLimiter_same_window now s Hsame).
    unfold MAX_REQUESTS_PER_WINDOW.
    destruct (Z.leb_spec 25 (requestCount s)); simpl; lia.
Qed.

End proxy_limiter.

(** X8: over a whole run of the limiter, the requests served are at most
    25 for every counting window: starting from a counter within its
    bounds, no more than 25 minus the counter, plus 25 for every reset
    of the counter (by the timer or by a request that finds the window
    elapsed), are served. *)
Theorem limiter_serves_25_per_window
    (s : PriceProxy.limiter) (es : list PriceProxy.event) :
  LimiterSpec.count_ok s →
  Z.of_nat (length (PriceProxy.served (PriceProxy.run s es).2)) ≤
    (PriceProxy.MAX_REQUESTS_PER_WINDOW - PriceProxy.requestCount s)
    + PriceProxy.MAX_REQUESTS_PER_WINDOW * Z.of_nat (ProxySpec.resetCount s es).
Proof.
  revert s. induction es as [|e es IH]; intros s Hs.
  - unfold LimiterSpec.count_ok in Hs. simpl. lia.
  - rewrite run_cons. cbn [ProxySpec.resetCount snd].
    specialize (IH _ (step_count_ok s e Hs)).
    pose proof (step_budget s e Hs) as Hb.
    assert (Hlen : Z.of_nat (length (PriceProxy.served
               match (PriceProxy.step s e).2 with
               | Some v =>
                   (PriceProxy.time_of e, v)
                   :: (PriceProxy.run (PriceProxy.step s e).1 es).2
               | None => (PriceProxy.run (PriceProxy.step s e).1 es).2
               end)) =
             (match (PriceProxy.step s e).2 with Some PriceProxy.Next => 1 | _ => 0 end)
             + Z.of_nat (length (PriceProxy.served
                                   (PriceProxy.run (PriceProxy.step s e).1 es).2))).
    { destruct ((PriceProxy.step s e).2) as [v|]; [|lia].
      rewrite served_cons. destruct v; lia. }
    rewrite Hlen. unfold PriceProxy.MAX_REQUESTS_PER_WINDOW in *.
    destruct (PriceProxy.resets s e); lia.
Qed.

Lemma limiter_serves_25_per_window_witness :
  Z.of_nat (length (PriceProxy.served
                      (PriceProxy.run (PriceProxy.Limiter 0 0) LimiterSpec.burst).2)) ≤
    (PriceProxy.MAX_REQUESTS_PER_WINDOW - 0)
    + PriceProxy.MAX_REQUESTS_PER_WINDOW
      * Z.of_nat (ProxySpec.resetCount (PriceProxy.Limiter 0 0) LimiterSpec.burst).
Proof.
  apply (limiter_serves_25_per_window (PriceProxy.Limiter 0 0) LimiterSpec.burst).
  unfold LimiterSpec.count_ok, PriceProxy.MAX_REQUESTS_PER_WINDOW. simpl. lia.
Defined.

Section proxy_cache.
Import PriceProxy ProxySpec.

Lemma freshEntry_insert w w' c k d :
  now w' - now w < CACHE_DURATION →
  freshEntry w' (<[k := CacheEntry (now w) d]> c) k = Some d.
Proof.
  intros Hlt. unfold freshEntry. rewrite lookup_insert_eq. simpl.
  by destruct (Z.ltb_spec (now w' - now w) CACHE_DURATION); [|lia].
Qed.

Lemma getPrice_fetched w c sym r d :
  upstream w = Resolved r →
  (getPrice w c sym).2 = true →
  (getPrice w c sym).1.1 = Response 200 (PriceBody d) →
  (getPrice w c sym).1.2 = <[toUpperCase sym := CacheEntry (now w) d]> c.
Proof.
  unfold getPrice. intros ->.
  destruct (freshEntry w c (toUpperCase sym)); [done|].
  destruct (if cmc_status r =? 200 then _ else _) as [cn|]; [|done].
  destruct (quote_USD cn) as [q|]; [|done].
  destruct (q_price q); try done. simpl. by intros _ [= <-].
Qed.
Lemma getPrice_cached w w' c sym sym' d :
  toUpperCase sym' = toUpperCase sym →
  now w' - now w < CACHE_DURATION →
  getPrice w' (<[toUpperCase sym := CacheEntry (now w) d]> c) sym' =
    (Response 200 (PriceBody d), <[toUpperCase sym := CacheEntry (now w) d]> c, false).
Proof.
  intros Hsym Hlt. unfold getPrice. rewrite Hsym.
  by rewrite (freshEntry_insert w w' c _ d Hlt).
Qed.

Lemma servePrice_fetched w s sym r d s1 :
  upstream w = Resolved r →
  servePrice w s sym = (Response 200 (PriceBody d), s1, true) →
  cache s1 = <[toUpperCase sym := CacheEntry (now w) d]> (cache s).
Proof.
  intros Hup. unfold servePrice.
  destruct (rateLimiter (now w) (limit s)) as [l [|]]; [|done].
  pose proof (getPrice_fetched w (cache s) sym r d Hup) as Hc.
  destruct (getPrice w (cache s) sym) as [[resp c] called]. cbn [fst snd] in Hc.
  intros [= -> <- ->]. cbn [cache]. by apply Hc.
Qed.

Lemma servePrice_cached w w' s' c sym sym' d :
  toUpperCase sym' = toUpperCase sym →
  now w' - now w < CACHE_DURATION →
  cache s' = <[toUpperCase sym := CacheEntry (now w) d]> c →
  servePrice w' s' sym' =
    match (rateLimiter (now w') (limit s')).2 with
    | Next => (Response 200 (PriceBody d),
               Server (rateLimiter (now w') (limit s')).1 (cache s'), false)
    | TooMany => (rateLimitExceeded,
                  Server (rateLimiter (now w') (limit s')).1 (cache s'), false)
    end.
Proof.
  intros Hsym Hlt Hc. unfold servePrice.
  destruct (rateLimiter (now w') (limit s')) as [l [|]]; cbn [fst snd]; [|done].
  by rewrite Hc, (getPrice_cached w w' c sym sym' d Hsym Hlt).
Qed.
End proxy_cache.

(** X9: a price that the server fetched from the upstream API for
    [GET /api/price/:symbol] and answered with is served from the cache
    afterwards. For five minutes every request for the symbol, in any
    case of letters, that the rate limiter lets through gets the same
    data with the status 200, and a request that the limiter rejects gets
    the status 429; none of them makes an upstream request and the cache
    stays as it is, over any number of such requests. *)
Theorem proxy_price_fetched_then_cached
    (w : PriceProxy.env) (s s1 : PriceProxy.server) (sym : string)
    (r : PriceProxy.cmcResponse) (d : PriceProxy.priceData)
    (reqs : list (PriceProxy.env * string)) :
  PriceProxy.upstream w = Resolved r →
  PriceProxy.servePrice w s sym =
    (PriceProxy.Response 200 (PriceProxy.PriceBody d), s1, true) →
  Forall (fun req : PriceProxy.env * string =>
            toUpperCase req.2 = toUpperCase sym ∧
            PriceProxy.now req.1 - PriceProxy.now w < PriceProxy.CACHE_DURATION) reqs →
  (∀ req, req ∈ reqs → ∀ s',
     PriceProxy.cache s' = PriceProxy.cache s1 →
     PriceProxy.servePrice req.1 s' req.2 =
       match (PriceProxy.rateLimiter (PriceProxy.now req.1) (PriceProxy.limit s')).2 with
       | PriceProxy.Next =>
           (PriceProxy.Response 200 (PriceProxy.PriceBody d),
            PriceProxy.Server
              (PriceProxy.rateLimiter (PriceProxy.now req.1) (PriceProxy.limit s')).1
              (PriceProxy.cache s1), false)
       | PriceProxy.TooMany =>
           (PriceProxy.rateLimitExceeded,
            PriceProxy.Server
              (PriceProxy.rateLimiter (PriceProxy.now req.1) (PriceProxy.limit s')).1
              (PriceProxy.cache s1), false)
       end) ∧
  Forall (fun a : PriceProxy.response * bool =>
            a.2 = false ∧
            (a.1 = PriceProxy.Response 200 (PriceProxy.PriceBody d) ∨
             a.1 = PriceProxy.rateLimitExceeded))
    (ProxySpec.serveAll s1 reqs).1 ∧
  length (ProxySpec.serveAll s1 reqs).1 = length reqs ∧
  PriceProxy.cache (ProxySpec.serveAll s1 reqs).2 = PriceProxy.cache s1.
Proof.
  intros Hup Hfirst Hreqs.
  pose proof (servePrice_fetched w s sym r d s1 Hup Hfirst) as Hc1.
  assert (Hstep : ∀ req, req ∈ reqs → ∀ s',
            PriceProxy.cache s' = PriceProxy.cache s1 →
            PriceProxy.servePrice req.1 s' req.2 =
              match (PriceProxy.rateLimiter (PriceProxy.now req.1)
                       (PriceProxy.limit s')).2 with
              | PriceProxy.Next =>
                  (PriceProxy.Response 200 (PriceProxy.PriceBody d),
                   PriceProxy.Server
                     (PriceProxy.rateLimiter (PriceProxy.now req.1)
                        (PriceProxy.limit s')).1
                     (PriceProxy.cache s1), false)
              | PriceProxy.TooMany =>
                  (PriceProxy.rateLimitExceeded,
                   PriceProxy.Server
                     (PriceProxy.rateLimiter (PriceProxy.now req.1)
                        (PriceProxy.limit s')).1
                     (PriceProxy.cache s1), false)
              end).
  { intros req Hin s' Hs'. rewrite Forall_forall in Hreqs.
    destruct (Hreqs req Hin) as [Hsym Hlt].
    rewrite (servePrice_cached w req.1 s' (PriceProxy.cache s) sym req.2 d Hsym Hlt)
      by (by rewrite Hs').
    by rewrite Hs'. }
  split; [exact Hstep|].
  clear Hfirst Hc1 Hreqs.
  assert (Hall : ∀ s', PriceProxy.cache s' = PriceProxy.cache s1 →
            Forall (fun a : PriceProxy.response * bool =>
                      a.2 = false ∧
                      (a.1 = PriceProxy.Response 200 (PriceProxy.PriceBody d) ∨
                       a.1 = PriceProxy.rateLimitExceeded))
              (ProxySpec.serveAll s' reqs).1 ∧
            length (ProxySpec.serveAll s' reqs).1 = length reqs ∧
            PriceProxy.cache (ProxySpec.serveAll s' reqs).2 = PriceProxy.cache s1).
  { induction reqs as [|[w' sym'] reqs IH]; intros s' Hs'; [done|].
    cbn [ProxySpec.serveAll].
    pose proof (Hstep (w', sym') ltac:(by left) s' Hs') as H1. cbn [fst snd] in H1.
    rewrite H1.
    destruct (PriceProxy.rateLimiter (PriceProxy.now w') (PriceProxy.limit s')) as [l v].
    cbn [fst snd].
    assert (IH' := fun s'' Hs'' =>
              IH (fun req Hin => Hstep req ltac:(by right)) s'' Hs'').
    destruct v.
    - destruct (IH' (PriceProxy.Server l (PriceProxy.cache s1)) eq_refl)
        as (Hf & Hl & Hc).
      destruct (ProxySpec.serveAll _ reqs) as [rs s2]. cbn [fst snd length] in *.
      split; [|by rewrite Hl]. constructor; [|done]. split; [done|by left].
    - destruct (IH' (PriceProxy.Server l (PriceProxy.cache s1)) eq_refl)
        as (Hf & Hl & Hc).
      destruct (ProxySpec.serveAll _ reqs) as [rs s2]. cbn [fst snd length] in *.
      split; [|by rewrite Hl]. constructor; [|done]. split; [done|by right]. }
  by apply Hall.
Qed.

Lemma proxy_price_fetched_then_cached_witness :
  (ProxySpec.serveAll Samples.serverFetched
     [(Samples.proxySoon, "eth"); (Samples.proxySoon, "Eth")]).1
  = [(PriceProxy.Response 200 (PriceProxy.PriceBody Samples.ethPrice), false);
     (PriceProxy.rateLimitExceeded, false)] ∧
  PriceProxy.cache
    (ProxySpec.serveAll Samples.serverFetched
       [(Samples.proxySoon, "eth"); (Samples.proxySoon, "Eth")]).2
  = PriceProxy.cache Samples.serverFetched.
Proof.
  split; [vm_compute; reflexivity|].
  apply (proxy_price_fetched_then_cached Samples.proxyFetches
           (PriceProxy.Server (PriceProxy.Limiter 23 0) ∅) Samples.serverFetched "ETH"
           Samples.upstreamEth Samples.ethPrice
           [(Samples.proxySoon, "eth"); (Samples.proxySoon, "Eth")]).
  - reflexivity.
  - vm_compute. reflexivity.
  - repeat constructor; vm_compute; reflexivity.
Defined.

Section proxy_batch.
Import PriceProxy ProxySpec.

Lemma storeQuote_cases w d acc sym :
  storeQuote w d acc sym = acc ∨
  ∃ r, storeQuote w d acc sym =
         (<[sym := r]> acc.1, <[sym := CacheEntry (now w) r]> acc.2).
Proof.
  unfold storeQuote. destruct (d !! sym) as [c|]; [|by left].
  destruct (quote_USD c) as [q|]; [|by left].
  destruct (q_price q); [by left | right; by eexists | right; by eexists].
Qed.

Lemma foldl_storeQuote_stored w d l res0 c0 :
  stored w res0 c0 l (foldl (storeQuote w d) (res0, c0) l).
Proof.
  induction l as [|sym l IH] using rev_ind.
  - split; [|by left]. intros s x Hx. by left.
  - rewrite foldl_app. simpl.
    destruct IH as [IH1 IH2].
    destruct (storeQuote_cases w d (foldl (storeQuote w d) (res0, c0) l) sym)
      as [->|(r & ->)].
    + split; [|done]. intros s x Hx.
      destruct (IH1 s x Hx) as [?|[??]]; [by left|right].
      split; [|done]. apply elem_of_app. by left.
    + split.
      * intros s x. simpl. destruct (decide (s = sym)) as [->|Hne].
        -- rewrite !lookup_insert_eq. intros [= ->]. right.
           split; [|done]. apply elem_of_app. right. apply list_elem_of_here.
        -- rewrite !lookup_insert_ne by done. intros Hx.
           destruct (IH1 s x Hx) as [?|[??]]; [by left|right].
           split; [|done]. apply elem_of_app. by left.
      * intros k e. simpl. destruct (decide (k = sym)) as [->|Hne].
        -- rewrite lookup_insert_eq. intros [= <-]. by right.
        -- rewrite lookup_insert_ne by done. apply IH2.
Qed.

Lemma cached_result w c syms (acc : gmap string priceData) s x :
  foldl (fun (r : gmap string priceData) sym => match freshEntry w c sym with
                      | Some d => <[sym := d]> r
                      | None => r
                      end) acc syms !! s = Some x →
  acc !! s = Some x ∨ (s ∈ syms ∧ freshEntry w c s = Some x).
Proof.
  revert acc. induction syms as [|sym syms IH]; intros acc; simpl; [by left|].
  intros [H|[H1 H2]]%IH.
  - destruct (freshEntry w c sym) as [d|] eqn:Hf; [|by left].
    destruct (decide (s = sym)) as [->|Hne].
    + rewrite lookup_insert_eq in H. injection H as ->. right.
      split; [apply list_elem_of_here | done].
    + rewrite lookup_insert_ne in H by done. by left.
  - right. split; [by apply list_elem_of_further | done].
Qed.

Lemma freshEntry_lookup w c c' s : c' !! s = c !! s → freshEntry w c' s = freshEntry w c s.
Proof. unfold freshEntry. by intros ->. Qed.

Lemma freshEntry_stored w c s x :
  c !! s = Some (CacheEntry (now w) x) → freshEntry w c s = Some x.
Proof.
  unfold freshEntry. intros ->. simpl.
  by destruct (Z.ltb_spec (now w - now w) CACHE_DURATION);
    [|unfold CACHE_DURATION in *; lia].
Qed.
End proxy_batch.

(** X10: every price in an answer of [GET /api/prices] belongs to a symbol
    of the request, and the cache holds it afterwards as a fresh entry of
    that symbol, so that a request repeated at once needs no upstream
    request for it. Every entry of the cache after the request is an
    entry it had before or was stored at the time of the request. *)
Theorem proxy_prices_answer_cached
    (w : PriceProxy.env) (priceCache : gmap string PriceProxy.cacheEntry)
    (q : string) :
  let r := PriceProxy.getPrices w priceCache (Some q) in
  (∀ result sym d,
     r.1.1 = PriceProxy.Response 200 (PriceProxy.PricesBody result) →
     result !! sym = Some d →
     sym ∈ PriceProxy.symbolArray q ∧
     PriceProxy.freshEntry w r.1.2 sym = Some d) ∧
  ProxySpec.stampedAt (PriceProxy.now w) priceCache r.1.2.
Proof.
  intros r. unfold r, PriceProxy.getPrices.
  assert (Hsame : ProxySpec.stampedAt (PriceProxy.now w) priceCache priceCache)
    by (intros k e; by left).
  destruct (nonempty q); simpl; [|by split].
  set (syms := PriceProxy.symbolArray q).
  set (res0 := foldl _ ∅ syms).
  set (toFetch := filter _ syms).
  assert (Hres0 : ∀ s x, res0 !! s = Some x →
            s ∈ syms ∧ PriceProxy.freshEntry w priceCache s = Some x).
  { intros s x [H|H]%cached_result; [by rewrite lookup_empty in H | done]. }
  destruct (length toFetch =? 0)%nat.
  { split; [|done]. simpl. intros result sym d [= <-]. apply Hres0. }
  destruct (PriceProxy.upstream w) as [resp|e].
  - destruct (if PriceProxy.cmc_status resp =? 200 then _ else _) as [d|].
    + pose proof (foldl_storeQuote_stored w d toFetch res0 priceCache) as [H1 H2].
      destruct (foldl _ _ toFetch) as [result' cache']. simpl in *.
      split; [|done]. intros result sym x [= <-] Hx.
      destruct (H1 sym x Hx) as [[Hr Hc]|[Hin Hc]].
      * destruct (Hres0 sym x Hr) as [Hs Hf]. split; [done|].
        by rewrite (freshEntry_lookup w priceCache cache' sym Hc).
      * split; [|by apply freshEntry_stored].
        by apply list_elem_of_filter in Hin as [_ ?].
    + split; [|done]. simpl. intros result sym d [= <-]. apply Hres0.
  - split; [|done]. simpl. intros result sym d Hr.
    destruct (response_status e) as [st|].
    + by destruct (st =? 429).
    + by case_bool_decide.
Qed.

Lemma proxy_prices_answer_cached_witness :
  PriceProxy.freshEntry Samples.proxyFetches
    (PriceProxy.getPrices Samples.proxyFetches ∅ (Some "ETH,btc")).1.2 "ETH"
  = Some Samples.ethPrice.
Proof.
  destruct (proxy_prices_answer_cached Samples.proxyFetches ∅ "ETH,btc") as [H _].
  eapply H; [reflexivity|]. vm_compute. reflexivity.
Defined.

Section scan_counts.
Import WalletAssets ScanSpec.

Lemma parseDecimals_nonzero d : parseDecimals d ≠ 0.
Proof.
  unfold parseDecimals. destruct d as [s|]; [|done].
  destruct (parseInt s) as [z|]; [|done].
  destruct (Z.eqb_spec z 0); [done|done].
Qed.

Lemma Obj_set_new {A} (k : string) (v : A) (o : Obj.t A) :
  k ∉ Obj.keys o → Obj.set k v o = o ++ [(k, v)].
Proof.
  unfold Obj.keys. induction o as [|[k' v'] o IH]; simpl; [done|].
  intros Hk. rewrite not_elem_of_cons in Hk. destruct Hk as [Hne Hk].
  rewrite bool_decide_eq_false_2 by done. by rewrite IH.
Qed.

Lemma processTx_addresses s otx :
  processedAddresses (processTx s otx) =
    match addressOf otx with
    | Some a => {[ a ]} ∪ processedAddresses s
    | None => processedAddresses s
    end.
Proof.
  unfold processTx, addressOf. destruct otx as [t|]; [|done].
  destruct (contractAddress t) as [ca|]; [|done].
  destruct (nonempty ca); [|done]. simpl.
  case_bool_decide as Hin; [set_solver|].
  destruct (containsUrlPattern _ || containsUrlPattern _); [done|].
  destruct (match tokenSymbol t with Some _ => _ | None => _ end); done.
Qed.

Lemma processTx_counted s otx : counted s → counted (processTx s otx).
Proof.
  intros (Hnd & Hkeys & Hcount). unfold processTx.
  destruct otx as [t|]; [|done].
  destruct (contractAddress t) as [ca|]; [|done].
  destruct (nonempty ca); [|done]. simpl.
  case_bool_decide as Hin; [done|].
  assert (Hsize : size ({[toLowerCase ca]} ∪ processedAddresses s)
                  = S (size (processedAddresses s))).
  { rewrite size_union by set_solver. by rewrite size_singleton. }
  assert (Hold : ∀ k tk, (k, tk) ∈ uniqueTokens s →
            k = toLowerCase (address tk) ∧
            k ∈ ({[toLowerCase ca]} ∪ processedAddresses s : gset string) ∧
            decimals tk ≠ 0).
  { intros k tk Hk. destruct (Hkeys k tk Hk) as (? & ? & ?).
    split; [done|]. split; [set_solver|done]. }
  destruct (containsUrlPattern _ || containsUrlPattern _).
  { split; [done|]. split; [done|]. simpl. rewrite Hsize. lia. }
  destruct (match tokenSymbol t with Some _ => _ | None => _ end).
  - assert (Hnew : toLowerCase ca ∉ Obj.keys (uniqueTokens s)).
    { intros ((k & tk) & Hk & Hktk)%list_elem_of_fmap. simpl in Hk. subst k.
      by destruct (Hkeys _ _ Hktk) as (_ & ? & _). }
    simpl. rewrite (Obj_set_new _ _ _ Hnew).
    split; [|split];
      cbn [uniqueTokens tokensWithoutSymbols tokensWithUrlPatterns processedAddresses].
    + unfold Obj.keys. rewrite fmap_app. apply NoDup_app. split; [done|]. split.
      * intros x Hx ->%list_elem_of_singleton. done.
      * apply NoDup_singleton.
    + intros k tk [Hk|[= -> ->]%list_elem_of_singleton]%elem_of_app;
        [by apply Hold|].
      simpl. split; [done|]. split; [set_solver|apply parseDecimals_nonzero].
    + rewrite length_app, Hsize. simpl. lia.
  - split; [done|]. split; [done|]. simpl. rewrite Hsize. lia.
Qed.

Lemma foldl_processTx_counted txs s :
  counted s →
  counted (foldl processTx s txs) ∧
  processedAddresses (foldl processTx s txs) =
    list_to_set (omap addressOf txs) ∪ processedAddresses s.
Proof.
  revert s. induction txs as [|otx txs IH]; intros s Hs; simpl.
  - split; [done|]. set_solver.
  - destruct (IH _ (processTx_counted s otx Hs)) as [H1 H2].
    split; [done|]. rewrite H2, processTx_addresses.
    destruct (addressOf otx); simpl; set_solver.
Qed.
End scan_counts.

(** X11: [processTokenTransactions] handles every distinct contract
    address of the transactions, compared in lower case, exactly once:
    the address becomes a token, or is counted as filtered for a URL
    pattern, or as filtered for a missing symbol, so that the number of
    tokens and the two counts add up to the number of distinct
    addresses. The tokens are kept under distinct keys; the key of a
    token is its address in lower case, and its number of decimals is
    never 0. *)
Theorem token_scan_counts (tokenTxs : list (option WalletAssets.tx)) :
  let s := WalletAssets.scanTransactions tokenTxs in
  WalletAssets.processedAddresses s = list_to_set (omap ScanSpec.addressOf tokenTxs) ∧
  (length (WalletAssets.processTokenTransactions tokenTxs)
   + WalletAssets.tokensWithoutSymbols s + WalletAssets.tokensWithUrlPatterns s
   = size (WalletAssets.processedAddresses s))%nat ∧
  NoDup (Obj.keys (WalletAssets.processTokenTransactions tokenTxs)) ∧
  (∀ k tk, (k, tk) ∈ WalletAssets.processTokenTransactions tokenTxs →
     k = toLowerCase (WalletAssets.address tk) ∧
     k ∈ WalletAssets.processedAddresses s ∧
     WalletAssets.decimals tk ≠ 0).
Proof.
  intros s. unfold s, WalletAssets.processTokenTransactions, WalletAssets.scanTransactions.
  destruct (foldl_processTx_counted tokenTxs (WalletAssets.TxScan [] 0 0 ∅ []))
    as [(Hnd & Hkeys & Hcount) Haddr].
  { split; [constructor|]. split; [by intros k tk ?%elem_of_nil|]. done. }
  split; [|done]. rewrite Haddr. simpl. set_solver.
Qed.

Section wallet_symbols.
Import WalletSymbols SymbolsSpec.




End wallet_symbols.



(** X13: an ETH balance that [fetchEthBalance] fetched is stored with the
    time of the fetch, and for two minutes every call for the same
    address returns it without a request and without touching the
    storage. When the storage refuses the write, the balance that was
    fetched is dropped: the call returns [Error] and stores nothing. *)
Theorem eth_balance_fetched_then_cached
    (w w' : WalletAssets.env) (ss : WalletAssets.sessionStorage) (addr : string)
    (n : N) :
  freshCache (2 * 60 * 1000) (WalletAssets.now w)
    (WalletAssets.eth_balance ss !! addr) = None →
  WalletAssets.getBalance w = Resolved n →
  let r := WalletAssets.fetchEthBalance w ss addr in
  match WalletAssets.setItem_error w with
  | None =>
      r.1.1.1 = Ethers.formatEther n ∧
      (WalletAssets.now w' - WalletAssets.now w < 2 * 60 * 1000 →
       WalletAssets.fetchEthBalance w' r.1.1.2 addr =
         (Ethers.formatEther n, r.1.1.2, [], false))
  | Some _ =>
      r = ("Error", ss, [(LError, "Failed to fetch ETH balance:")], true)
  end.
Proof.
  intros Hstale Hbal r.
  assert (Hr : r = match WalletAssets.setItem_error w with
                   | None =>
                       (Ethers.formatEther n,
                        WalletAssets.SessionStorage
                          (<[addr := (Ethers.formatEther n, WalletAssets.now w)]>
                             (WalletAssets.eth_balance ss))
                          (WalletAssets.token_balances ss)
                          (WalletAssets.price_data_cache ss), [], true)
                   | Some _ =>
                       ("Error", ss, [(LError, "Failed to fetch ETH balance:")], true)
                   end).
  { unfold r, WalletAssets.fetchEthBalance. rewrite Hstale, Hbal.
    unfold WalletAssets.setItem. by destruct (WalletAssets.setItem_error w). }
  destruct (WalletAssets.setItem_error w); [done|]. rewrite Hr.
  split; [done|]. intros Hlt.
  unfold WalletAssets.fetchEthBalance, freshCache.
  cbn [WalletAssets.eth_balance fst snd]. rewrite lookup_insert_eq.
  by destruct (Z.ltb_spec (WalletAssets.now w' - WalletAssets.now w) (2 * 60 * 1000));
    [|lia].
Qed.

Lemma eth_balance_fetched_then_cached_witness :
  (WalletAssets.fetchEthBalance Demo.funded (WalletAssets.SessionStorage ∅ ∅ None)
     "0xabc").1.1.1 = "1.5".
Proof.
  apply (eth_balance_fetched_then_cached Demo.funded Demo.funded
           (WalletAssets.SessionStorage ∅ ∅ None) "0xabc" 1500000000000000000%N);
    reflexivity.
Defined.

Section app.
Import WalletAssets.

Lemma delivered_symbols w p st wd l :
  l ∈ AssetsSpec.deliveredBy w p st wd →
  l ≠ [] ∧ (∃ a, a ∈ l ∧ asset_symbol a = "ETH") ∧
  Forall (fun a => nonempty (asset_symbol a) = true) l.
Proof.
  intros Hl.
  destruct (deliveredBy_cases w p st wd) as [H|(vb & Hvb & H & _)];
    rewrite H in Hl; [by apply elem_of_nil in Hl|].
  apply list_elem_of_singleton in Hl as ->. split; [done|]. split.
  - eexists. split; [apply list_elem_of_here|done].
  - constructor; [done|]. apply Forall_fmap.
    eapply Forall_impl; [exact Hvb|]. intros t Ht. simpl.
    unfold validBalance in Ht. rewrite !andb_true_iff in Ht.
    by destruct Ht as [[[[[_ _] ?] _] _] _].
Qed.

Lemma symbolsOf_userAssetSymbols l u :
  Forall (fun a => nonempty (asset_symbol a) = true) l →
  u ∈ StakingData.userAssetSymbols (App.symbolsOf l) ↔
  ∃ a, a ∈ l ∧ toUpperCase (asset_symbol a) = u.
Proof.
  intros Hne. unfold StakingData.userAssetSymbols.
  rewrite elem_of_userAssetSymbols_acc. unfold App.symbolsOf. split.
  - intros [H|(sy & (a & [= ->] & Ha)%list_elem_of_fmap & _ & Hu)];
      [by apply not_elem_of_empty in H|]. by exists a.
  - intros (a & Ha & Hu). right. exists (asset_symbol a).
    split; [apply list_elem_of_fmap; by exists a|]. split; [|done].
    rewrite Forall_forall in Hne. by apply Hne.
Qed.
End app.

(** X14: the staking view fed with the asset list that a run of
    [fetchAssets] passed to the application: once the staking data are
    loaded without error, its table shows exactly the loaded
    opportunities whose asset is, without regard to the case of letters,
    the symbol of an asset of the list; the list always has the ETH
    entry, so every loaded opportunity for ETH is shown. *)
Theorem staking_table_of_delivered_assets
    (w : WalletAssets.env) (p : WalletAssets.props) (st : WalletAssets.state)
    (wd : WalletAssets.world) (l : list WalletAssets.asset)
    (stk : StakingData.state) :
  l ∈ AssetsSpec.deliveredBy w p st wd →
  StakingData.isLoading stk = false → StakingData.st_error stk = None →
  let table := StakingData.displayed stk (App.symbolsOf l) in
  (∀ it, it ∈ table ↔
     it ∈ StakingData.stakingData stk ∧
     ∃ a, a ∈ l ∧
          toUpperCase (WalletAssets.asset_symbol a) = toUpperCase (StakingData.asset it)) ∧
  (∀ it, it ∈ StakingData.stakingData stk →
         toUpperCase (StakingData.asset it) = "ETH" → it ∈ table).
Proof.
  intros Hl Hload Herr table.
  destruct (delivered_symbols w p st wd l Hl) as (Hne & (eth & Heth & Hsym) & Hall).
  assert (Htable : ∀ it, it ∈ table ↔
            it ∈ StakingData.stakingData stk ∧
            ∃ a, a ∈ l ∧
                 toUpperCase (WalletAssets.asset_symbol a)
                 = toUpperCase (StakingData.asset it)).
  { intros it. unfold table, StakingData.displayed. rewrite Hload, Herr.
    rewrite bool_decide_eq_false_2 by (by intros [? ?]).
    destruct (Nat.eqb_spec (length (StakingData.stakingData stk)) 0) as [H0|_].
    - apply nil_length_inv in H0. rewrite H0.
      split; [by intros ?%elem_of_nil | by intros [?%elem_of_nil _]].
    - unfold StakingData.filteredStakingData, App.symbolsOf. rewrite length_fmap.
      destruct (Nat.eqb_spec (length l) 0) as [H0|_];
        [by apply nil_length_inv in H0|].
      rewrite list_elem_of_filter.
      fold (App.symbolsOf l). rewrite (symbolsOf_userAssetSymbols l _ Hall).
      tauto. }
  split; [exact Htable|].
  intros it Hit Hu. apply Htable. split; [done|]. exists eth. split; [done|].
  by rewrite Hsym, Hu.
Qed.

Lemma staking_table_of_delivered_assets_witness :
  Forall (fun it => toUpperCase (StakingData.asset it) = "ETH" →
                    it ∈ StakingData.displayed Samples.stakingLoaded
                           (App.symbolsOf Samples.fundedAssets))
    (StakingData.stakingData Samples.stakingLoaded).
Proof.
  apply Forall_forall.
  apply (staking_table_of_delivered_assets Demo.funded Demo.connected
           WalletAssets.initialState WalletAssets.initialWorld Samples.fundedAssets
           Samples.stakingLoaded).
  - vm_compute. apply list_elem_of_here.
  - reflexivity.
  - reflexivity.
Defined.

Section price_data.
Import WalletAssets PriceSpec.

Lemma unique_spec l seen :
  NoDup (unique l seen) ∧
  ∀ x, x ∈ unique l seen ↔ x ∈ l ∧ x ∉ seen.
Proof.
  revert seen. induction l as [|y l IH]; intros seen; simpl.
  - split; [constructor|]. intros x. split; [by intros ?%elem_of_nil|].
    by intros [?%elem_of_nil _].
  - case_bool_decide as Hy.
    + destruct (IH seen) as [Hnd Hin]. split; [done|]. intros x.
      rewrite Hin, elem_of_cons. split; [intros [? ?]; split; [by right|done]|].
      intros [[->|?] ?]; done.
    + destruct (IH (y :: seen)) as [Hnd Hin]. split.
      * constructor; [|done]. rewrite Hin. intros [_ Hn]. apply Hn. by left.
      * intros x. rewrite !elem_of_cons, Hin, not_elem_of_cons. split.
        -- intros [->|[? [? ?]]]; split; try done; [by left | by right].
        -- intros [[->|?] ?]; [by left|].
           destruct (decide (x = y)) as [->|?]; [by left | by right].
Qed.

Lemma priceSymbols_spec syms :
  NoDup (priceSymbols syms) ∧
  ∀ x, x ∈ priceSymbols syms ↔ x = "ETH" ∨ x ∈ syms.
Proof.
  unfold priceSymbols. destruct (unique_spec syms []) as [Hnd Hin].
  assert (Hin' : ∀ x, x ∈ unique syms [] ↔ x ∈ syms).
  { intros x. rewrite Hin. split; [by intros [? _]|]. intros ?. split; [done|].
    by intros ?%elem_of_nil. }
  case_bool_decide as Heth.
  - split; [done|]. intros x. rewrite Hin'. split; [by right|].
    intros [->|?]; [by apply Hin'|done].
  - split.
    + apply NoDup_app. split; [done|]. split; [|apply NoDup_singleton].
      intros x Hx ->%list_elem_of_singleton. done.
    + intros x. rewrite elem_of_app, list_elem_of_singleton, Hin'. tauto.
Qed.

Lemma storePrice_fetched w x pd sym :
  x ≠ "__proto__" →
  storePrice pd (fetchPrice w x).1 !! sym =
    if bool_decide (x = sym)
    then match fetched w sym with Some e => Some e | None => pd !! sym end
    else pd !! sym.
Proof.
  intros Hx'. case_bool_decide as Hx; [subst x|by apply storePrice_other].
  unfold fetched, fetchPrice.
  destruct (priceOf w sym) as [r|e]; [|done].
  destruct (pr_status r =? 200); [|done].
  destruct (pr_data r) as [[? ? ?]|]; [|done]. simpl.
  rewrite Plain_set_plain by done. by rewrite lookup_insert_eq.
Qed.

Lemma foldl_storePrice_fetched w l pd sym :
  "__proto__" ∉ l →
  foldl storePrice pd (fetchPrice w <$> l).*1 !! sym =
    if bool_decide (sym ∈ l)
    then match fetched w sym with Some e => Some e | None => pd !! sym end
    else pd !! sym.
Proof.
  revert pd. induction l as [|x l IH]; intros pd Hl; [done|].
  apply not_elem_of_cons in Hl as [Hx Hl].
  rewrite !fmap_cons. cbn [foldl fst]. rewrite IH, storePrice_fetched by done.
  destruct (decide (sym ∈ l)) as [Hin|Hin].
  - rewrite (bool_decide_eq_true_2 (sym ∈ l)) by done.
    rewrite (bool_decide_eq_true_2 (sym ∈ x :: l)) by (apply elem_of_cons; by right).
    destruct (fetched w sym); [done|]. by destruct (bool_decide (x = sym)).
  - rewrite (bool_decide_eq_false_2 (sym ∈ l)) by done.
    destruct (decide (x = sym)) as [->|Hne].
    + rewrite (bool_decide_eq_true_2 (sym = sym)) by done.
      by rewrite (bool_decide_eq_true_2 (sym ∈ sym :: l)) by (apply elem_of_cons; by left).
    + rewrite (bool_decide_eq_false_2 (x = sym)) by done.
      rewrite (bool_decide_eq_false_2 (sym ∈ x :: l)); [done|].
      by intros [?|?]%elem_of_cons.
Qed.

Lemma priceBatchLoop_fetched w bs pd sym :
  "__proto__" ∉ concat bs →
  (priceBatchLoop w bs pd).1.1 !! sym =
    if bool_decide (sym ∈ concat bs)
    then match fetched w sym with Some e => Some e | None => pd !! sym end
    else pd !! sym.
Proof.
  revert pd. induction bs as [|b bs IH]; intros pd Hp; [done|].
  cbn [concat] in Hp. apply not_elem_of_app in Hp as [Hb' Hbs'].
  rewrite priceBatchLoop_cons. cbn [fst concat].
  rewrite IH, foldl_storePrice_fetched by done.
  destruct (decide (sym ∈ b)) as [Hb|Hb], (decide (sym ∈ concat bs)) as [Hbs|Hbs].
  - rewrite (bool_decide_eq_true_2 (sym ∈ b)) by done.
    rewrite (bool_decide_eq_true_2 (sym ∈ concat bs)) by done.
    rewrite (bool_decide_eq_true_2 (sym ∈ b ++ concat bs)) by (apply elem_of_app; by left).
    by destruct (fetched w sym).
  - rewrite (bool_decide_eq_true_2 (sym ∈ b)) by done.
    rewrite (bool_decide_eq_false_2 (sym ∈ concat bs)) by done.
    by rewrite (bool_decide_eq_true_2 (sym ∈ b ++ concat bs))
      by (apply elem_of_app; by left).
  - rewrite (bool_decide_eq_false_2 (sym ∈ b)) by done.
    rewrite (bool_decide_eq_true_2 (sym ∈ concat bs)) by done.
    by rewrite (bool_decide_eq_true_2 (sym ∈ b ++ concat bs))
      by (apply elem_of_app; by right).
  - rewrite (bool_decide_eq_false_2 (sym ∈ b)) by done.
    rewrite (bool_decide_eq_false_2 (sym ∈ concat bs)) by done.
    rewrite (bool_decide_eq_false_2 (sym ∈ b ++ concat bs)); [done|].
    by intros [?|?]%elem_of_app.
Qed.

Lemma symbolsToFetch_spec w ss syms sym :
  sym ∈ symbolsToFetch w ss syms ↔
    (sym = "ETH" ∨ sym ∈ syms) ∧
    priceCacheOf w ss !! sym = None ∧ sym ∉ Plain.OBJECT_PROTOTYPE.
Proof.
  destruct (priceSymbols_spec syms) as [_ Hin].
  unfold symbolsToFetch. rewrite list_elem_of_filter, Hin.
  assert (Hhas : Plain.has sym (priceCacheOf w ss) = false ↔
                 priceCacheOf w ss !! sym = None ∧ sym ∉ Plain.OBJECT_PROTOTYPE).
  { rewrite <- not_true_iff_false, Plain_has_spec. split.
    - intros Hn. split.
      + destruct (priceCacheOf w ss !! sym) eqn:H; [|done].
        exfalso. apply Hn. left. by eexists.
      + intros H. apply Hn. by right.
    - intros [Hnone Hp] [[e He]|H]; [congruence | done]. }
  rewrite Hhas. tauto.
Qed.
End price_data.

(** X15: the prices that [fetchPriceData] returns when the storage takes
    the write. A symbol that the fresh cache has keeps its cached entry
    and is not requested, and a symbol that names a member of
    [Object.prototype] is not requested either; every other symbol of
    the assets, and ETH in any case, is requested once, and has the entry
    of the answer when the request is answered with the status 200 and
    data, and no entry otherwise; no other symbol has an entry. When a
    request was made the prices are stored with the time of the run. *)
Theorem price_data_fetched
    (w : WalletAssets.env) (ss : WalletAssets.sessionStorage)
    (assetSymbols : list string) :
  let toFetch := WalletAssets.symbolsToFetch w ss assetSymbols in
  let r := WalletAssets.fetchPriceData w ss assetSymbols in
  NoDup toFetch ∧
  (∀ sym, sym ∈ toFetch ↔
          (sym = "ETH" ∨ sym ∈ assetSymbols) ∧
          WalletAssets.priceCacheOf w ss !! sym = None ∧
          sym ∉ Plain.OBJECT_PROTOTYPE) ∧
  (assetSymbols ≠ [] → WalletAssets.setItem_error w = None →
   (∀ sym, WalletAssets.prices r !! sym =
           match WalletAssets.priceCacheOf w ss !! sym with
           | Some e => Some e
           | None => if bool_decide (sym ∈ toFetch) then PriceSpec.fetched w sym else None
           end) ∧
   (toFetch ≠ [] →
    WalletAssets.price_data_cache (WalletAssets.pd_storage r)
    = Some (WalletAssets.prices r, WalletAssets.now w))).
Proof.
  intros toFetch r.
  destruct (priceSymbols_spec assetSymbols) as [Hnd Hin].
  pose proof (symbolsToFetch_spec w ss assetSymbols) as Hto. fold toFetch in Hto.
  split; [by apply NoDup_filter|]. split; [exact Hto|].
  intros Hne Hset. unfold r, WalletAssets.fetchPriceData.
  destruct (Nat.eqb_spec (length assetSymbols) 0) as [H0|_];
    [by apply nil_length_inv in H0|].
  fold toFetch.
  destruct (Nat.eqb_spec (length toFetch) 0) as [H0|_].
  - apply nil_length_inv in H0. rewrite H0. simpl. split; [|done].
    intros sym. destruct (WalletAssets.priceCacheOf w ss !! sym); [done|].
    first [done | by rewrite bool_decide_eq_false_2 by (by intros ?%elem_of_nil)].
  - assert (Hplain : "__proto__" ∉ concat (batches 3 toFetch)).
    { destruct (batches_chunking 3 toFetch) as [-> _]; [lia|].
      intros (_ & _ & Hp)%Hto. apply Hp. set_solver. }
    pose proof (fun sym => priceBatchLoop_fetched w (batches 3 toFetch)
                  (WalletAssets.priceCacheOf w ss) sym Hplain) as Hloop.
    destruct (WalletAssets.priceBatchLoop w (batches 3 toFetch)
                (WalletAssets.priceCacheOf w ss)) as [[pd results] l].
    unfold WalletAssets.setItem. rewrite Hset. simpl in *. split; [|done].
    intros sym. rewrite Hloop.
    destruct (batches_chunking 3 toFetch) as [-> _]; [lia|].
    destruct (WalletAssets.priceCacheOf w ss !! sym) as [e|] eqn:Hc.
    + rewrite bool_decide_eq_false_2; [done|].
      intros (_ & Hn & _)%Hto. congruence.
    + case_bool_decide; [|done]. by destruct (PriceSpec.fetched w sym).
Qed.

Lemma price_data_fetched_witness :
  WalletAssets.prices
    (WalletAssets.fetchPriceData Demo.funded (WalletAssets.SessionStorage ∅ ∅ None)
       ["USDC"]) !! "ETH" = PriceSpec.fetched Demo.funded "ETH".
Proof.
  destruct (price_data_fetched Demo.funded (WalletAssets.SessionStorage ∅ ∅ None)
              ["USDC"]) as (_ & _ & H).
  destruct H as [H _]; [discriminate | reflexivity |].
  exact (H "ETH").
Defined.
Section digits.
Import NumberSpec.

Lemma string_app_cons c s t : String c s +:+ t = String c (s +:+ t).
Proof. reflexivity. Qed.

Lemma string_app_nil_l s : "" +:+ s = s.
Proof. reflexivity. Qed.

Lemma string_app_nil_r s : s +:+ "" = s.
Proof.
  induction s as [|c s IH]; [done|]. by rewrite string_app_cons, IH.
Qed.

Lemma string_app_assoc s t u : (s +:+ t) +:+ u = s +:+ (t +:+ u).
Proof.
  induction s as [|c s IH]; [done|]. by rewrite !string_app_cons, IH.
Qed.

Lemma string_length_app s t :
  String.length (s +:+ t) = (String.length s + String.length t)%nat.
Proof.
  induction s as [|c s IH]; [done|].
  rewrite string_app_cons. cbn [String.length]. by rewrite IH.
Qed.

Lemma rev_app_append s t : String.rev_app s t = String.rev s +:+ t.
Proof.
  unfold String.rev. revert t. induction s as [|c s IH]; intros t; [done|].
  cbn [String.rev_app].
  rewrite (IH (String c t)), (IH (String c "")). by rewrite string_app_assoc.
Qed.

Lemma string_rev_cons c s : String.rev (String c s) = String.rev s +:+ String c "".
Proof. unfold String.rev at 1. cbn [String.rev_app]. apply rev_app_append. Qed.

Lemma string_rev_app s t : String.rev (s +:+ t) = String.rev t +:+ String.rev s.
Proof.
  induction s as [|c s IH].
  - by rewrite string_app_nil_l, string_app_nil_r.
  - by rewrite string_app_cons, !string_rev_cons, IH, string_app_assoc.
Qed.

Lemma string_rev_involutive s : String.rev (String.rev s) = s.
Proof.
  induction s as [|c s IH]; [done|].
  by rewrite string_rev_cons, string_rev_app, IH.
Qed.

Lemma zeros_snoc j : Ethers.zeros j +:+ "0" = Ethers.zeros (S j).
Proof.
  induction j as [|j IH]; [done|].
  cbn [Ethers.zeros] in *. by rewrite string_app_cons, IH.
Qed.

Lemma rev_zeros j : String.rev (Ethers.zeros j) = Ethers.zeros j.
Proof.
  induction j as [|j IH]; [done|].
  cbn [Ethers.zeros]. rewrite string_rev_cons, IH. apply zeros_snoc.
Qed.

Lemma length_zeros j : String.length (Ethers.zeros j) = j.
Proof. induction j as [|j IH]; [done|]. cbn [Ethers.zeros String.length]. by rewrite IH. Qed.

Lemma all_digits_app s t : all_digits (s +:+ t) = all_digits s && all_digits t.
Proof.
  induction s as [|c s IH]; [done|].
  rewrite string_app_cons. cbn [all_digits]. by rewrite IH, andb_assoc.
Qed.

Lemma all_digits_zeros j : all_digits (Ethers.zeros j) = true.
Proof. induction j as [|j IH]; [done|]. exact IH. Qed.

Lemma all_digits_rev s : all_digits (String.rev s) = all_digits s.
Proof.
  induction s as [|c s IH]; [done|].
  rewrite string_rev_cons, all_digits_app, IH. cbn [all_digits].
  rewrite andb_true_r. apply andb_comm.
Qed.

Lemma value_from_app acc s t :
  value_from acc (s +:+ t) = value_from (value_from acc s) t.
Proof.
  revert acc. induction s as [|c s IH]; intros acc; [done|].
  rewrite string_app_cons. cbn [value_from]. apply IH.
Qed.

Lemma value_from_acc acc s :
  value_from acc s = (acc * 10 ^ N.of_nat (String.length s) + valueOf s)%N.
Proof.
  unfold valueOf. revert acc. induction s as [|c s IH]; intros acc.
  - cbn [value_from String.length]. change (N.of_nat 0) with 0%N.
    rewrite N.pow_0_r. lia.
  - cbn [value_from String.length]. rewrite (IH (10 * acc + digit_val c)%N),
      (IH (10 * 0 + digit_val c)%N).
    rewrite Nat2N.inj_succ, N.pow_succ_r by lia. lia.
Qed.

Lemma value_zeros acc j :
  value_from acc (Ethers.zeros j) = (acc * 10 ^ N.of_nat j)%N.
Proof.
  revert acc. induction j as [|j IH]; intros acc.
  - cbn [Ethers.zeros value_from]. change (N.of_nat 0) with 0%N.
    rewrite N.pow_0_r. lia.
  - cbn [Ethers.zeros value_from]. rewrite IH.
    rewrite Nat2N.inj_succ, N.pow_succ_r by lia.
    change (digit_val "0") with 0%N. lia.
Qed.

Lemma read_digits_all acc n s rest :
  all_digits s = true → stops rest →
  read_digits acc n (s +:+ rest) = (value_from acc s, (n + String.length s)%nat, rest).
Proof.
  revert acc n. induction s as [|c s IH]; intros acc n Hs Hrest.
  - rewrite string_app_nil_l. cbn [value_from String.length].
    rewrite Nat.add_0_r. destruct rest as [|c rest]; [done|].
    cbn [read_digits]. cbn [stops] in Hrest. by rewrite Hrest.
  - cbn [all_digits] in Hs. apply andb_true_iff in Hs as [Hc Hs].
    rewrite string_app_cons. cbn [read_digits value_from String.length]. rewrite Hc.
    rewrite IH by done. f_equal. f_equal. lia.
Qed.
End digits.

Section decimal.
Import NumberSpec.

Lemma pretty_N_char_val x : (x < 10)%N → digit_val (pretty_N_char x) = x.
Proof.
  intros Hx.
  assert (x = 0 ∨ x = 1 ∨ x = 2 ∨ x = 3 ∨ x = 4 ∨ x = 5 ∨ x = 6 ∨ x = 7 ∨ x = 8
          ∨ x = 9)%N as H by lia.
  repeat (destruct H as [->|H]; [reflexivity|]). by subst x.
Qed.

Lemma pretty_N_go_value x s :
  all_digits s = true →
  all_digits (pretty_N_go x s) = true ∧
  valueOf (pretty_N_go x s) = (x * 10 ^ N.of_nat (String.length s) + valueOf s)%N.
Proof.
  revert s. induction (N.lt_wf_0 x) as [x _ IH]; intros s Hs.
  destruct (decide (0 < x)%N) as [Hpos|Hz].
  - rewrite pretty_N_go_step by done.
    destruct (IH (x `div` 10)%N (N.div_lt x 10 Hpos eq_refl)
                (String (pretty_N_char (x `mod` 10)) s)) as [Hd Hv].
    { cbn [all_digits]. by rewrite pretty_N_char_digit. }
    split; [done|]. rewrite Hv. unfold valueOf. cbn [value_from String.length].
    rewrite (value_from_acc (10 * 0 + _)), pretty_N_char_val by (apply N.mod_lt; lia).
    unfold valueOf. rewrite Nat2N.inj_succ, N.pow_succ_r by lia.
    pose proof (N.div_mod x 10 ltac:(lia)) as Hdm. nia.
  - assert (x = 0%N) as -> by lia. rewrite pretty_N_go_0. split; [done|]. lia.
Qed.

Lemma pretty_N_go_length x s k :
  (x < 10 ^ N.of_nat k)%N →
  (String.length (pretty_N_go x s) ≤ k + String.length s)%nat.
Proof.
  revert s k. induction (N.lt_wf_0 x) as [x _ IH]; intros s k Hx.
  destruct (decide (0 < x)%N) as [Hpos|Hz].
  - rewrite pretty_N_go_step by done.
    destruct k as [|k]; [change (N.of_nat 0) with 0%N in Hx; rewrite N.pow_0_r in Hx; lia|].
    rewrite Nat2N.inj_succ, N.pow_succ_r in Hx by lia.
    etrans; [apply (IH (x `div` 10)%N (N.div_lt x 10 Hpos eq_refl) _ k)|].
    + apply N.Div0.div_lt_upper_bound. lia.
    + cbn [String.length]. lia.
  - assert (x = 0%N) as -> by lia. rewrite pretty_N_go_0. lia.
Qed.

Lemma pretty_N_value (x : N) :
  all_digits (pretty x) = true ∧ valueOf (pretty x) = x ∧
  (1 ≤ String.length (pretty x))%nat ∧
  ∀ k, (1 ≤ k)%nat → (x < 10 ^ N.of_nat k)%N → (String.length (pretty x) ≤ k)%nat.
Proof.
  unfold pretty, pretty_N. case_decide as Hx.
  - subst x. split; [done|]. split; [done|]. split; [simpl; lia|].
    intros k Hk _. simpl. lia.
  - destruct (pretty_N_go_value x "" eq_refl) as [Hd Hv].
    split; [done|]. split.
    { rewrite Hv. change (String.length "") with O. change (valueOf "") with 0%N.
      change (N.of_nat 0) with 0%N. rewrite N.pow_0_r. lia. }
    split.
    + pose proof (pretty_N_digit x) as Hs. unfold pretty, pretty_N in Hs.
      rewrite decide_False in Hs by done.
      destruct (pretty_N_go x "") as [|c s]; [done|]. simpl. lia.
    + intros k _ Hk. pose proof (pretty_N_go_length x "" k Hk) as H. simpl in H. lia.
Qed.

Lemma padStart_value n s :
  all_digits s = true → (String.length s ≤ n)%nat →
  all_digits (Ethers.padStart n s) = true ∧
  valueOf (Ethers.padStart n s) = valueOf s ∧
  String.length (Ethers.padStart n s) = n.
Proof.
  intros Hs Hn. unfold Ethers.padStart.
  rewrite all_digits_app, all_digits_zeros, Hs, string_length_app, length_zeros.
  split; [done|]. split; [|lia].
  unfold valueOf. rewrite value_from_app, value_zeros. f_equal; lia.
Qed.

Lemma dropZeros_spec t :
  ∃ j, t = Ethers.zeros j +:+ Ethers.dropZeros t.
Proof.
  induction t as [|c t [j IH]].
  - by exists O.
  - cbn [Ethers.dropZeros].
    destruct (decide (c = "0"%char)) as [->|Hc].
    + exists (S j). cbn [Ethers.zeros]. by rewrite string_app_cons, <- IH.
    + exists O. rewrite string_app_nil_l.
      destruct c as [[] [] [] [] [] [] [] []]; try done.
Qed.

Lemma stripTrailingZeros_value p :
  all_digits p = true →
  let f := Ethers.stripTrailingZeros p in
  all_digits f = true ∧ (1 ≤ String.length f)%nat ∧
  (valueOf f * 10 ^ N.of_nat (String.length p)
   = valueOf p * 10 ^ N.of_nat (String.length f))%N.
Proof.
  intros Hp f. unfold f, Ethers.stripTrailingZeros.
  destruct (dropZeros_spec (String.rev p)) as [j Hj].
  assert (Hp' : p = String.rev (Ethers.dropZeros (String.rev p)) +:+ Ethers.zeros j).
  { rewrite <- (string_rev_involutive p) at 1.
    rewrite Hj at 1. by rewrite string_rev_app, rev_zeros. }
  set (r := Ethers.dropZeros (String.rev p)) in *.
  assert (Hr : all_digits (String.rev r) = true).
  { rewrite Hp', all_digits_app in Hp. by apply andb_true_iff in Hp as [? _]. }
  assert (Hval : valueOf p = (valueOf (String.rev r) * 10 ^ N.of_nat j)%N).
  { rewrite Hp' at 1. unfold valueOf. by rewrite value_from_app, value_zeros. }
  assert (Hlen : String.length p = (String.length (String.rev r) + j)%nat).
  { rewrite Hp' at 1. by rewrite string_length_app, length_zeros. }
  destruct r as [|c r].
  - change (String.rev "") with "" in *. rewrite Hval. split; [done|]. split; [simpl; lia|].
    change (valueOf "0") with 0%N. change (valueOf "") with 0%N. lia.
  - split; [done|]. split.
    + rewrite string_rev_cons, string_length_app. simpl. lia.
    + rewrite Hval, Hlen, Nat2N.inj_add, N.pow_add_r. lia.
Qed.
End decimal.

Section exact.
Import NumberSpec.

Lemma digit_first c s :
  is_digit c = true →
  trimStart (String c s) = String c s ∧ read_sign (String c s) = (false, String c s).
Proof.
  intros Hc. split.
  - cbn [trimStart]. replace (is_white c) with false; [done|].
    destruct c as [[] [] [] [] [] [] [] []]; try discriminate Hc; reflexivity.
  - destruct c as [[] [] [] [] [] [] [] []]; try discriminate Hc; reflexivity.
Qed.

Lemma parseFloat_integer ip :
  all_digits ip = true → (1 ≤ String.length ip)%nat →
  parseFloat ip = Num (scale10 (Z.of_N (valueOf ip)) 0).
Proof.
  intros Hip Hlen. destruct ip as [|c ip]; [simpl in Hlen; lia|].
  assert (Hc : is_digit c = true).
  { cbn [all_digits] in Hip. by apply andb_true_iff in Hip as [? _]. }
  destruct (digit_first c ip Hc) as [Ht Hs].
  unfold parseFloat. rewrite Ht, Hs.
  rewrite <- (string_app_nil_r (String c ip)) at 1.
  rewrite (read_digits_all 0 0 (String c ip) "" Hip I).
  cbn [String.length Nat.add]. cbn [read_exponent]. by rewrite Z.sub_0_r.
Qed.

Lemma parseFloat_fraction ip f :
  all_digits ip = true → (1 ≤ String.length ip)%nat → all_digits f = true →
  parseFloat (ip +:+ "." +:+ f) =
    Num (scale10 (Z.of_N (value_from (valueOf ip) f)) (- Z.of_nat (String.length f))).
Proof.
  intros Hip Hlen Hf. destruct ip as [|c ip]; [simpl in Hlen; lia|].
  assert (Hc : is_digit c = true).
  { cbn [all_digits] in Hip. by apply andb_true_iff in Hip as [? _]. }
  rewrite string_app_cons.
  destruct (digit_first c (ip +:+ "." +:+ f) Hc) as [Ht Hs].
  unfold parseFloat. rewrite Ht, Hs. rewrite <- string_app_cons.
  rewrite (read_digits_all 0 0 (String c ip) ("." +:+ f) Hip eq_refl).
  rewrite (string_app_cons "." "" f), string_app_nil_l.
  rewrite <- (string_app_nil_r f) at 1.
  rewrite (read_digits_all _ 0 f "" Hf I).
  cbn [String.length Nat.add]. cbn [read_exponent]. by rewrite Z.sub_0_l.
Qed.

Lemma scale10_quotient (m value : N) (nf : nat) (d : Z) :
  (1 ≤ nf)%nat → 0 ≤ d →
  (m * 10 ^ Z.to_N d = value * 10 ^ N.of_nat nf)%N →
  scale10 (Z.of_N m) (- Z.of_nat nf) = quotient value d.
Proof.
  intros Hnf Hd Heq. unfold scale10, quotient.
  destruct (Z.leb_spec 0 (- Z.of_nat nf)); [lia|].
  apply Q2Qc_eq_iff. unfold Qeq. cbn [Qnum Qden].
  rewrite Z.opp_involutive, Pos2Z.inj_pow.
  rewrite !Z2Pos.id by (try apply Z.pow_pos_nonneg; lia).
  apply (f_equal Z.of_N) in Heq. rewrite !N2Z.inj_mul, !N2Z.inj_pow in Heq.
  rewrite Z2N.id, nat_N_Z in Heq by done. exact Heq.
Qed.
End exact.

Section format_units.
Import NumberSpec.

Lemma formatUnits_exact_text value d :
  0 ≤ d ≤ 80 →
  ∃ s, Ethers.formatUnits value d = Some s ∧ parseFloat s = Num (quotient value d) ∧
       (0 < d → denotes s (quotient value d)).
Proof.
  intros Hd. unfold Ethers.formatUnits.
  destruct (Z.ltb_spec 80 d) as [?|_]; [lia|].
  destruct (Z.ltb_spec d (- (2 ^ 53 - 1))) as [?|_]; [lia|]. cbn [orb].
  destruct (Z.eqb_spec d 0) as [->|Hd0].
  - eexists. split; [done|]. split; [|lia].
    destruct (pretty_N_value value) as (Hdig & Hval & Hlen & _).
    rewrite (parseFloat_integer _ Hdig Hlen), Hval. f_equal.
    unfold scale10, quotient. simpl. apply Q2Qc_eq_iff.
    unfold Qeq. simpl. lia.
  - destruct (Z.ltb_spec d 0) as [?|_]; [lia|].
    eexists. split; [done|].
    set (u := (10 ^ Z.to_N d)%N).
    assert (Hu : (0 < u)%N) by (unfold u; apply N.neq_0_lt_0, N.pow_nonzero; lia).
    destruct (pretty_N_value (value `div` u)%N) as (Hip & Hipv & Hipl & _).
    destruct (pretty_N_value (value `mod` u)%N) as (Hfr & Hfrv & _ & Hfrl).
    destruct (padStart_value (Z.to_nat d) (pretty (value `mod` u)%N) Hfr)
      as (Hp & Hpv & Hpl).
    { apply Hfrl; [lia|]. rewrite Z_nat_N. apply N.mod_lt. lia. }
    destruct (stripTrailingZeros_value _ Hp) as (Hf & Hfl & Hfv).
    rewrite Hpl, Hpv, Hfrv, Z_nat_N in Hfv. fold u in Hfv.
    pose proof (N.div_mod value u ltac:(lia)) as Hdm.
    set (f := Ethers.stripTrailingZeros _) in *.
    set (lf := (10 ^ N.of_nat (String.length f))%N) in *.
    set (q := (value `div` u)%N) in *. set (m := (value `mod` u)%N) in *.
    assert (Hexact : ((valueOf (pretty q) * lf + valueOf f) * u = value * lf)%N).
    { rewrite Hipv, N.mul_add_distr_r, Hfv.
      replace (value * lf)%N with ((u * q + m) * lf)%N by (by rewrite <- Hdm).
      lia. }
    split.
    + rewrite (parseFloat_fraction _ _ Hip Hipl Hf). f_equal.
      apply scale10_quotient; [done|lia|].
      rewrite value_from_acc. fold u lf. exact Hexact.
    + intros _. exists (pretty q), f. split; [done|].
      split; [done|]. split; [done|]. split; [done|]. split; [done|].
      unfold quotient. apply Q2Qc_eq_iff. unfold Qeq. cbn [Qnum Qden].
      rewrite !Z2Pos.id by (apply Z.pow_pos_nonneg; lia).
      fold lf. apply (f_equal Z.of_N) in Hexact.
      rewrite !N2Z.inj_mul in Hexact. unfold u, lf in Hexact.
      rewrite !N2Z.inj_pow, Z2N.id, nat_N_Z in Hexact by lia.
      unfold lf. change (Z.of_N 10) with 10 in Hexact. by rewrite Hexact.
Qed.

Lemma formatUnits_too_many value d : 80 < d → Ethers.formatUnits value d = None.
Proof.
  intros Hd. unfold Ethers.formatUnits.
  by destruct (Z.ltb_spec 80 d) as [_|?]; [|lia].
Qed.
End format_units.

(** X16: the text of an ETH balance that [fetchEthBalance] fetches is
    exact: when there is no fresh cache entry, the provider answers with
    the balance in wei and the storage takes the write, the text returned
    is a decimal numeral, with digits on both sides of the point, that
    denotes the balance divided by ten to the eighteenth. *)
Theorem eth_balance_exact
    (w : WalletAssets.env) (ss : WalletAssets.sessionStorage) (addr : string)
    (wei : N) :
  freshCache (2 * 60 * 1000) (WalletAssets.now w)
    (WalletAssets.eth_balance ss !! addr) = None →
  WalletAssets.getBalance w = Resolved wei →
  WalletAssets.setItem_error w = None →
  NumberSpec.denotes (WalletAssets.fetchEthBalance w ss addr).1.1.1
    (NumberSpec.quotient wei 18).
Proof.
  intros Hstale Hbal Hset.
  assert (Hb : (WalletAssets.fetchEthBalance w ss addr).1.1.1 = Ethers.formatEther wei).
  { unfold WalletAssets.fetchEthBalance, WalletAssets.setItem.
    by rewrite Hstale, Hbal, Hset. }
  rewrite Hb. unfold Ethers.formatEther.
  destruct (formatUnits_exact_text wei 18 ltac:(lia)) as (s & -> & _ & Hs).
  apply Hs. lia.
Qed.

Lemma eth_balance_exact_witness :
  NumberSpec.denotes
    (WalletAssets.fetchEthBalance Demo.funded
       (WalletAssets.SessionStorage ∅ ∅ None) "0xabc").1.1.1
    (NumberSpec.quotient 1500000000000000000 18).
Proof.
  apply (eth_balance_exact Demo.funded (WalletAssets.SessionStorage ∅ ∅ None) "0xabc"
           1500000000000000000%N); reflexivity.
Defined.

Section token_value.
Import WalletAssets NumberSpec.

Lemma quotient_positive value d : (0 < quotient value d)%Qc ↔ (0 < value)%N.
Proof.
  unfold quotient, Qclt. cbn [this Q2Qc]. rewrite !Qred_correct.
  unfold Qlt. cbn [Qnum Qden]. lia.
Qed.

Lemma clean_skips tk :
  AssetsSpec.clean (symbol tk) (name tk) →
  containsUrlPattern (Some (symbol tk)) || containsUrlPattern (Some (name tk)) = false ∧
  negb (nonempty (symbol tk)) || bool_decide (trim (symbol tk) = "") = false ∧
  nonempty (symbol tk) = true.
Proof.
  intros Hc. destruct (clean_not_skipped _ _ Hc) as [H1 H2].
  split; [done|]. split; [done|].
  apply orb_false_iff in H2 as [H2 _]. by apply negb_false_iff in H2.
Qed.
End token_value.

(** X17: the text of a token balance that [fetchTokenBalance] fetches.
    For a token that passes the spam filter and has no fresh cache
    entry, when the contract answers with the raw balance: with 1 to 80
    decimals the call returns the token with the raw balance and a
    balance text that is a decimal numeral denoting the raw balance
    divided by ten to the decimals, and the token passes the filter of
    valid balances exactly when the raw balance is not 0; with more than
    80 decimals the formatting throws, the call returns the token with
    the balance [Error], and the token does not pass the filter. *)
Theorem token_balance_exact
    (w : WalletAssets.env) (cache : gmap string WalletAssets.tokenData)
    (addr k : string) (tk : WalletAssets.token) (bal : N) :
  WalletAssets.cachedTokenBalance w cache (addr +:+ "-" +:+ k) = None →
  AssetsSpec.clean (WalletAssets.symbol tk) (WalletAssets.name tk) →
  WalletAssets.balanceOf w (WalletAssets.address tk) = Resolved bal →
  let r := WalletAssets.tf_result (WalletAssets.fetchTokenBalance w cache addr tk k) in
  (0 < WalletAssets.decimals tk ≤ 80 →
   ∃ t, r = Some t ∧
        WalletAssets.td_token t = tk ∧
        WalletAssets.error t = false ∧
        WalletAssets.balanceRaw t = pretty bal ∧
        NumberSpec.denotes (WalletAssets.balance t)
          (NumberSpec.quotient bal (WalletAssets.decimals tk)) ∧
        (WalletAssets.validBalance t = true ↔ (0 < bal)%N)) ∧
  (80 < WalletAssets.decimals tk →
   r = Some (WalletAssets.TokenData tk "Error" "0" None true) ∧
   WalletAssets.validBalance (WalletAssets.TokenData tk "Error" "0" None true) = false).
Proof.
  intros Hcache Hclean Hbal r.
  destruct (clean_skips tk Hclean) as (Hurl & Hsym & Hne).
  assert (Hr : r = match Ethers.formatUnits bal (WalletAssets.decimals tk) with
                   | Some s => Some (WalletAssets.TokenData tk s (pretty bal)
                                       (Some (WalletAssets.now w)) false)
                   | None => Some (WalletAssets.TokenData tk "Error" "0" None true)
                   end).
  { unfold r, WalletAssets.fetchTokenBalance. rewrite Hcache, Hurl, Hsym, Hbal.
    by destruct (Ethers.formatUnits bal (WalletAssets.decimals tk)). }
  split.
  - intros Hdec.
    destruct (formatUnits_exact_text bal (WalletAssets.decimals tk) ltac:(lia))
      as (s & Hs & Hparse & Hden).
    rewrite Hr, Hs. eexists. split; [done|].
    cbn [WalletAssets.td_token WalletAssets.balance WalletAssets.error
         WalletAssets.balanceRaw].
    split; [done|]. split; [done|]. split; [done|]. split; [apply Hden; lia|].
    unfold WalletAssets.validBalance.
    cbn [WalletAssets.error WalletAssets.balance WalletAssets.td_token].
    rewrite Hparse, Hne. apply orb_false_iff in Hurl as [Hu1 Hu2].
    apply orb_false_iff in Hsym as [_ Hblank]. rewrite Hu1, Hu2, Hblank.
    cbn [negb andb]. rewrite !andb_true_r. unfold gt, zero.
    rewrite bool_decide_eq_true. apply quotient_positive.
  - intros Hdec. rewrite Hr, (formatUnits_too_many bal _ Hdec). done.
Qed.

Lemma token_balance_exact_witness :
  ∃ t, WalletAssets.tf_result
         (WalletAssets.fetchTokenBalance Demo.funded ∅ "0xabc" Demo.usdcToken "0xa0b8")
       = Some t ∧
       NumberSpec.denotes (WalletAssets.balance t) (NumberSpec.quotient 2500000 6).
Proof.
  destruct (token_balance_exact Demo.funded ∅ "0xabc" "0xa0b8" Demo.usdcToken
              2500000%N) as [H _].
  - reflexivity.
  - split; [discriminate|]. split; reflexivity.
  - reflexivity.
  - destruct H as (t & Ht & _ & _ & _ & Hd & _); [simpl; lia|].
    exists t. split; [exact Ht | exact Hd].
Defined.

(** X18: the price script and the proxy read the answer of the price API
    alike. For a symbol that the proxy's cache does not hold fresh,
    [fetchCryptoPriceData] returns data exactly when
    [GET /api/price/:symbol] answers 200 from the upstream answer; the
    proxy then sends the same symbol and price, and the name, the time
    of the last update and the change over 24 hours of the script's
    data with their defaults (the symbol, the current time, 0) where
    they are missing. When the script throws on an answer of the API,
    the proxy answers with an error status. *)
Theorem price_script_agrees_with_proxy
    (w : PriceProxy.env) (priceCache : gmap string PriceProxy.cacheEntry)
    (sym : string) :
  PriceProxy.freshEntry w priceCache (toUpperCase sym) = None →
  match CmcScript.fetchCryptoPriceData (PriceProxy.upstream w) sym with
  | Some d =>
      (PriceProxy.getPrice w priceCache sym).1.1 =
        PriceProxy.Response 200
          (PriceProxy.PriceBody
             (PriceProxy.PriceData (CmcScript.symbol d)
                (PriceProxy.or_name (CmcScript.name d) sym)
                (Some (CmcScript.price d))
                (PriceProxy.or_name (CmcScript.lastUpdated d) (PriceProxy.nowIso w))
                (match CmcScript.percentChange24h d with
                 | JNumber x => x
                 | _ => 0%Qc
                 end)))
  | None =>
      ∀ r, PriceProxy.upstream w = Resolved r →
           PriceProxy.status (PriceProxy.getPrice w priceCache sym).1.1 = 404 ∨
           PriceProxy.status (PriceProxy.getPrice w priceCache sym).1.1 = 500
  end.
Proof.
  intros Hfresh. unfold CmcScript.fetchCryptoPriceData, PriceProxy.getPrice.
  rewrite Hfresh. destruct (PriceProxy.upstream w) as [r|e]; [|by intros r].
  destruct (PriceProxy.cmc_status r =? 200); [|intros ? _; by left].
  destruct (PriceProxy.cmc_data r ≫= _) as [c|]; [|intros ? _; by left].
  destruct (PriceProxy.quote_USD c) as [q|]; [|intros ? _; by left].
  destruct (PriceProxy.q_price q) as [| |price].
  - intros ? _. by left.
  - intros ? _. by right.
  - reflexivity.
Qed.

Lemma price_script_agrees_with_proxy_witness :
  (PriceProxy.getPrice Samples.proxyFetches ∅ "ETH").1.1 =
    PriceProxy.Response 200 (PriceProxy.PriceBody Samples.ethPrice).
Proof.
  pose proof (price_script_agrees_with_proxy Samples.proxyFetches ∅ "ETH") as H.
  apply H. reflexivity.
Defined.

Section script_main.

Lemma fetchAll_requests api symbols :
  let r := CmcScript.fetchAll api symbols in
  r.2 `prefix_of` symbols ∧
  (∀ sym, sym ∈ r.2 → sym ∈ symbols) ∧
  match r.1 with
  | Some l =>
      r.2 = symbols ∧
      Forall2 (fun sym d => CmcScript.fetchCryptoPriceData (api sym) sym = Some d)
        symbols l
  | None =>
      ∃ sym, last r.2 = Some sym ∧
             CmcScript.fetchCryptoPriceData (api sym) sym = None
  end.
Proof.
  induction symbols as [|sym symbols IH]; cbn [CmcScript.fetchAll].
  - split; [done|]. split; [done|]. split; [done|]. constructor.
  - destruct (CmcScript.fetchCryptoPriceData (api sym) sym) as [d|] eqn:Hd.
    + destruct (CmcScript.fetchAll api symbols) as [r requested].
      cbn [fst snd] in *. destruct IH as (Hpre & Hin & Hres).
      split; [by apply prefix_cons|]. split.
      * intros s [->|Hs]%elem_of_cons; [by left|]. right. by apply Hin.
      * destruct r as [l|]; cbn [fmap option_fmap option_map].
        -- destruct Hres as [-> Hall]. split; [done|]. by constructor.
        -- destruct Hres as (s & Hlast & Hs). exists s. split; [|done].
           destruct requested; [done|]. done.
    + cbn [fst snd]. split; [apply prefix_cons, prefix_nil|]. split.
      * intros s ->%list_elem_of_singleton. by left.
      * by exists sym.
Qed.
End script_main.

(** X19: the price script asks for ETH, BTC and AVAX in this order and
    stops at the first request that fails: the symbols requested are a
    beginning of the three; the script ends with the data of all three
    exactly when each request gives data, and otherwise the last symbol
    requested is one whose request gave none. *)
Theorem price_script_stops_at_first_failure
    (api : string → outcome PriceProxy.cmcResponse) :
  let r := CmcScript.main api in
  r.2 `prefix_of` ["ETH"; "BTC"; "AVAX"] ∧
  match r.1 with
  | Some l =>
      r.2 = ["ETH"; "BTC"; "AVAX"] ∧
      Forall2 (fun sym d => CmcScript.fetchCryptoPriceData (api sym) sym = Some d)
        ["ETH"; "BTC"; "AVAX"] l
  | None =>
      ∃ sym, last r.2 = Some sym ∧
             CmcScript.fetchCryptoPriceData (api sym) sym = None
  end.
Proof.
  intros r. unfold r, CmcScript.main.
  destruct (fetchAll_requests api ["ETH"; "BTC"; "AVAX"]) as (Hpre & _ & Hres).
  split; [exact Hpre | exact Hres].
Qed.

(** X20: the tabs of the investment view. A click on the button of a tab
    makes the view render the panel of that tab and no other; the tab is
    stored, and the next first render of the view shows it again. When
    the storage refuses the write, the next first render shows the tab
    that was stored before, and the staking panel when none was. *)
Theorem investment_tab_restored
    (p : InvestmentOpportunities.panel) (s : InvestmentOpportunities.state)
    (setItem_error : bool) :
  let clicked :=
    InvestmentOpportunities.handleTabClick setItem_error
      (InvestmentOpportunities.tabName p) s in
  let next :=
    InvestmentOpportunities.restoreTab
      (InvestmentOpportunities.initial (InvestmentOpportunities.savedTab clicked)) in
  InvestmentOpportunities.rendered clicked = [p] ∧
  (setItem_error = false → InvestmentOpportunities.rendered next = [p]) ∧
  (setItem_error = true →
   next = InvestmentOpportunities.restoreTab
            (InvestmentOpportunities.initial (InvestmentOpportunities.savedTab s))) ∧
  InvestmentOpportunities.rendered
    (InvestmentOpportunities.restoreTab (InvestmentOpportunities.initial None))
  = [InvestmentOpportunities.StakingPanel].
Proof.
  intros clicked next. unfold next, clicked. split; [|split; [|split]].
  - by destruct p.
  - intros ->. by destruct p.
  - by intros ->.
  - reflexivity.
Qed.

Section batch_memory.
Import WalletAssets BatchSpec.

Lemma fetchTokenBalance_known ut w c addr k tk :
  keyed ut → cacheOf ut addr c → (k, tk) ∈ ut →
  let r := fetchTokenBalance w c addr tk k in
  (∀ t, tf_result r = Some t → known ut t) ∧
  (∀ key d, tf_cached r = Some (key, d) → known ut d).
Proof.
  intros Hut Hc Hk r. unfold r, fetchTokenBalance, cachedTokenBalance.
  assert (Htk : ∀ b raw ct e, known ut (TokenData tk b raw ct e)).
  { intros. by apply (Hut k tk). }
  destruct (c !! (addr +:+ "-" +:+ k)) as [d|] eqn:Hd.
  - destruct (now w - default 0 (cacheTime d) <? CACHE_EXPIRY).
    { split; [|done]. intros t [= <-]. by apply (Hc k tk d). }
    destruct (_ || _); [done|]. destruct (_ || _); [done|].
    destruct (balanceOf w (address tk)); [|split; [by intros t [= <-]|done]].
    destruct (Ethers.formatUnits _ _); split; try done;
      [by intros t [= <-] | by intros key d' [= _ <-] | by intros t [= <-]].
  - destruct (_ || _); [done|]. destruct (_ || _); [done|].
    destruct (balanceOf w (address tk)); [|split; [by intros t [= <-]|done]].
    destruct (Ethers.formatUnits _ _); split; try done;
      [by intros t [= <-] | by intros key d' [= _ <-] | by intros t [= <-]].
Qed.

Lemma writes_known ut addr (rs : list tokenFetch) c :
  Forall (fun r => ∀ key d, tf_cached r = Some (key, d) → known ut d) rs →
  cacheOf ut addr c →
  cacheOf ut addr
    (foldl (fun c r => match tf_cached r with Some (k, v) => <[k := v]> c | None => c end)
       c rs).
Proof.
  intros Hrs. revert c. induction Hrs as [|r rs Hr _ IH]; intros c Hc; [done|].
  cbn [foldl]. apply IH. destruct (tf_cached r) as [[key v]|] eqn:Hw; [|done].
  intros k tk d Hk. destruct (decide (key = addr +:+ "-" +:+ k)) as [->|Hne].
  - rewrite lookup_insert_eq. intros [= <-]. exact (Hr _ _ eq_refl).
  - rewrite lookup_insert_ne by done. exact (Hc k tk d Hk).
Qed.

Lemma fetchBatch_known ut w c addr batch :
  keyed ut → cacheOf ut addr c → (∀ at_, at_ ∈ batch → at_ ∈ ut) →
  Forall (known ut) (validResults (fetchBatch w c addr batch).1.1) ∧
  cacheOf ut addr (fetchBatch w c addr batch).1.2.
Proof.
  intros Hut Hc Hb. unfold fetchBatch. cbn [fst snd]. split.
  - unfold validResults. apply Forall_forall. intros t Ht.
    apply list_elem_of_omap in Ht as (o & Ho & Hot). destruct o as [t'|]; [|done].
    simpl in Hot. injection Hot as ->.
    apply list_elem_of_fmap in Ho as (r & Hr & Hin).
    apply list_elem_of_fmap in Hin as ([k tk] & -> & Hin).
    by apply (fetchTokenBalance_known ut w c addr k tk Hut Hc (Hb _ Hin)).
  - apply writes_known; [|done]. apply Forall_fmap, Forall_forall.
    intros [k tk] Hin key d.
    by apply (fetchTokenBalance_known ut w c addr k tk Hut Hc (Hb _ Hin)).
Qed.

Lemma tokenBatchLoop_known ut w addr bs c :
  keyed ut → cacheOf ut addr c → (∀ at_, at_ ∈ concat bs → at_ ∈ ut) →
  Forall (known ut) (concat (validResults <$> (tokenBatchLoop w addr bs c).1.1)).
Proof.
  intros Hut. revert c. induction bs as [|b bs IH]; intros c Hc Hb; [constructor|].
  rewrite tokenBatchLoop_cons. cbn [fst snd]. rewrite fmap_cons. cbn [concat].
  cbn [concat] in Hb.
  destruct (fetchBatch_known ut w c addr b Hut Hc) as [Hres Hc'].
  { intros at_ Hin. apply Hb, elem_of_app. by left. }
  apply Forall_app. split; [done|]. apply IH; [done|].
  intros at_ Hin. apply Hb, elem_of_app. by right.
Qed.

Lemma filter_known ut l :
  Forall (known ut) l → CacheSpec.validCached ut l = l.
Proof.
  unfold CacheSpec.validCached. induction 1 as [|t l Ht _ IH]; [done|].
  rewrite filter_cons. rewrite decide_True by exact Ht. by rewrite IH.
Qed.
End batch_memory.

(** X21: the token balances that a run fetched are remembered as a whole.
    When [fetchTokenBalances] fetched the balances of tokens that are
    kept under their addresses, and the storage took the write, then for
    five minutes every call for the same wallet and tokens returns the
    same list, with the entries of the requests that failed, makes no
    balance request and leaves storage and cache as they are, unless the
    list is empty. *)
Theorem token_batch_remembered
    (w w' : WalletAssets.env) (ss : WalletAssets.sessionStorage)
    (cache cache' : gmap string WalletAssets.tokenData) (addr : string)
    (ut : Obj.t WalletAssets.token) :
  BatchSpec.keyed ut → BatchSpec.cacheOf ut addr cache →
  WalletAssets.cachedTokenBalances w ss addr ut = None →
  WalletAssets.setItem_error w = None →
  let r := WalletAssets.fetchTokenBalances w ss cache addr ut in
  WalletAssets.tokenBalances r ≠ [] →
  WalletAssets.now w' - WalletAssets.now w < WalletAssets.CACHE_EXPIRY →
  WalletAssets.fetchTokenBalances w' (WalletAssets.tb_storage r) cache' addr ut =
    WalletAssets.TokenBalancesResult (WalletAssets.tokenBalances r) []
      (WalletAssets.tb_storage r) cache' [].
Proof.
  intros Hut Hc Hmiss Hset r Hne Hlt.
  assert (Hnil : ut ≠ []).
  { intros ->. by apply Hne. }
  assert (Hr : r = let '(results, c1, l) :=
                     WalletAssets.tokenBatchLoop w addr
                       (batches 5 (WalletAssets.sortedAddresses ut)) cache in
                   WalletAssets.TokenBalancesResult
                     (concat (WalletAssets.validResults <$> results)) results
                     (WalletAssets.SessionStorage (WalletAssets.eth_balance ss)
                        (<[addr := (concat (WalletAssets.validResults <$> results),
                                    WalletAssets.now w)]>
                           (WalletAssets.token_balances ss))
                        (WalletAssets.price_data_cache ss)) c1 l).
  { unfold r, WalletAssets.fetchTokenBalances. rewrite Hmiss.
    destruct (Nat.eqb_spec (length (Obj.keys ut)) 0) as [H0|_].
    - unfold Obj.keys in H0. rewrite length_fmap in H0.
      by apply nil_length_inv in H0.
    - destruct (WalletAssets.tokenBatchLoop _ _ _ _) as [[results c1] l].
      unfold WalletAssets.setItem. by rewrite Hset. }
  pose proof (tokenBatchLoop_known ut w addr
                (batches 5 (WalletAssets.sortedAddresses ut)) cache Hut Hc) as Hknown.
  destruct (WalletAssets.tokenBatchLoop _ _ _ _) as [[results c1] l].
  cbn [fst snd] in Hknown. rewrite Hr in Hne |- *. clear Hr r.
  cbn [WalletAssets.tokenBalances WalletAssets.tb_storage] in *.
  set (balances := concat (WalletAssets.validResults <$> results)) in *.
  assert (Hall : Forall (BatchSpec.known ut) balances).
  { apply Hknown. intros at_ Hin.
    destruct (batches_chunking 5 (WalletAssets.sortedAddresses ut)) as [Hcat _]; [lia|].
    rewrite Hcat in Hin. by apply elem_of_sort in Hin. }
  destruct (token_batch_lookup w'
              (WalletAssets.SessionStorage (WalletAssets.eth_balance ss)
                 (<[addr := (balances, WalletAssets.now w)]>
                    (WalletAssets.token_balances ss))
                 (WalletAssets.price_data_cache ss)) cache' addr ut Hnil) as [Hhit _].
  rewrite <- (filter_known ut balances Hall) at 2.
  apply Hhit.
  - exists (WalletAssets.now w). cbn [WalletAssets.token_balances].
    rewrite lookup_insert_eq. split; [done|]. exact Hlt.
  - by rewrite (filter_known ut balances Hall).
Qed.

Lemma token_batch_remembered_witness :
  WalletAssets.tokenBalances
    (WalletAssets.fetchTokenBalances Demo.fundedTokenFails
       (WalletAssets.SessionStorage ∅ ∅ None) ∅ "0xabc" [("0xa0b8", Demo.usdcToken)]) =
    [WalletAssets.TokenData Demo.usdcToken "Error" "0" None true] ∧
  WalletAssets.fetchTokenBalances Demo.funded
    (WalletAssets.tb_storage
       (WalletAssets.fetchTokenBalances Demo.fundedTokenFails
          (WalletAssets.SessionStorage ∅ ∅ None) ∅ "0xabc" [("0xa0b8", Demo.usdcToken)]))
    ∅ "0xabc" [("0xa0b8", Demo.usdcToken)] =
  WalletAssets.TokenBalancesResult
    (WalletAssets.tokenBalances
       (WalletAssets.fetchTokenBalances Demo.fundedTokenFails
          (WalletAssets.SessionStorage ∅ ∅ None) ∅ "0xabc" [("0xa0b8", Demo.usdcToken)]))
    []
    (WalletAssets.tb_storage
       (WalletAssets.fetchTokenBalances Demo.fundedTokenFails
          (WalletAssets.SessionStorage ∅ ∅ None) ∅ "0xabc" [("0xa0b8", Demo.usdcToken)]))
    ∅ [].
Proof.
  split; [reflexivity|].
  apply (token_batch_remembered Demo.fundedTokenFails Demo.funded
           (WalletAssets.SessionStorage ∅ ∅ None) ∅ ∅ "0xabc"
           [("0xa0b8", Demo.usdcToken)]).
  - intros k tk Hin. apply list_elem_of_singleton in Hin. injection Hin as -> ->.
    split; [reflexivity | by eexists].
  - intros k tk d _ Hd. rewrite lookup_empty in Hd. discriminate.
  - reflexivity.
  - reflexivity.
  - discriminate.
  - simpl. unfold WalletAssets.CACHE_EXPIRY. lia.
Defined.

